(** * deploy_pipeline.py: a shallow embedding and its properties

    The deploy pipeline runs each stage as a separate process; the stages
    share one properties dict that lives in a lock directory.  This file
    embeds the Python source function by function:

    - Python values: byte strings as [string], dicts of strings as
      [gmap string string], sets of strings as [gset string];
    - effects: a state-and-exception monad [M] over a [World] that holds
      the lock-directory file system, the clock, the shared [props] dict
      (it is mutated in place by the stage handlers), the state of the
      external collaborators and the trace of observable events;
    - external collaborators (git, urllib2, json, the deploy.* modules,
      alertlib) are parameters of the development. *)

From stdpp Require Import gmap strings list sorting pretty.
From Stdlib Require Import Ascii ZArith.

(** ** Python primitives *)

Module Py.

(** The exceptions that the program raises, catches or lets through. *)
Inductive exn : Type :=
| IOError (errno : option Z) (msg : string)
| OSError (errno : option Z) (msg : string)
| KeyError (key : string)
| ValueError (msg : string)
| TypeError (msg : string)
| RuntimeError (msg : string)
| AssertionError (msg : string)
| ZeroDivisionError
| CalledProcessError (returncode : Z) (cmd : list string)
| IndexError (msg : string)
| MonitoringError (msg : string)
| OtherException (cls msg : string).

Inductive result (A : Type) : Type :=
| Ok (a : A)
| Raise (e : exn).
Arguments Ok {A} a.
Arguments Raise {A} e.

Definition EEXIST : Z := 17.
Definition ENOENT : Z := 2.
Definition ENOTEMPTY : Z := 39.

(** [why.__class__.__name__] *)
Definition class_name (e : exn) : string :=
  match e with
  | IOError _ _ => "IOError"
  | OSError _ _ => "OSError"
  | KeyError _ => "KeyError"
  | ValueError _ => "ValueError"
  | TypeError _ => "TypeError"
  | RuntimeError _ => "RuntimeError"
  | AssertionError _ => "AssertionError"
  | ZeroDivisionError => "ZeroDivisionError"
  | CalledProcessError _ _ => "CalledProcessError"
  | IndexError _ => "IndexError"
  | MonitoringError _ => "MonitoringError"
  | OtherException cls _ => cls
  end.

Definition NL : string := String "010"%char "".
Definition DQ : string := String (ascii_of_nat 34) "".

(** [s.split(sep)] for a one-character separator: never the empty list. *)
Fixpoint split (sep : ascii) (s : string) : list string :=
  match s with
  | EmptyString => [EmptyString]
  | String c s' =>
      if decide (c = sep) then EmptyString :: split sep s'
      else match split sep s' with
           | w :: ws => String c w :: ws
           | [] => [String c EmptyString]
           end
  end.

(** [s.split(sep, 1)]: [None] stands for the one-element list that Python
    returns when [sep] does not occur. *)
Fixpoint split1 (sep : ascii) (s : string) : option (string * string) :=
  match s with
  | EmptyString => None
  | String c s' =>
      if decide (c = sep) then Some (EmptyString, s')
      else match split1 sep s' with
           | Some (a, b) => Some (String c a, b)
           | None => None
           end
  end.

(** [sep.join(l)] *)
Fixpoint join (sep : string) (l : list string) : string :=
  match l with
  | [] => ""
  | [x] => x
  | x :: l' => x +:+ sep +:+ join sep l'
  end.

(** [s.splitlines()]: lines without their terminators, which for a byte
    string are newline, carriage return, and the two together. *)
Fixpoint splitlines (s : string) : list string :=
  match s with
  | EmptyString => []
  | String "013"%char (String "010"%char s') => EmptyString :: splitlines s'
  | String c s' =>
      if decide (c = "010"%char ∨ c = "013"%char)
      then EmptyString :: splitlines s'
      else match splitlines s' with
           | w :: ws => String c w :: ws
           | [] => [String c EmptyString]
           end
  end.

(** [f.readlines()]: every line keeps its newline. *)
Fixpoint readlines (s : string) : list string :=
  match s with
  | EmptyString => []
  | String c s' =>
      if decide (c = "010"%char) then String c EmptyString :: readlines s'
      else match readlines s' with
           | w :: ws => String c w :: ws
           | [] => [String c EmptyString]
           end
  end.

(** [s.lstrip(chars)], [s.rstrip(chars)], [s.strip()]; [p] says which
    characters go.  With no argument Python strips white space. *)
Fixpoint lstrip_by (p : ascii → bool) (s : string) : string :=
  match s with
  | EmptyString => EmptyString
  | String c s' => if p c then lstrip_by p s' else s
  end.

Fixpoint rstrip_by (p : ascii → bool) (s : string) : string :=
  match s with
  | EmptyString => EmptyString
  | String c s' =>
      match rstrip_by p s' with
      | EmptyString => if p c then EmptyString else String c EmptyString
      | r => String c r
      end
  end.

Definition lstrip : string → string := lstrip_by Ascii.is_space.
Definition rstrip : string → string := rstrip_by Ascii.is_space.
Definition strip (s : string) : string := lstrip (rstrip s).
Definition rstrip_slash : string → string :=
  rstrip_by (λ c, bool_decide (c = "/"%char)).

(** [s.endswith(suffix)] *)
Definition endswith (s suffix : string) : bool :=
  bool_decide (String.length suffix ≤ String.length s)
  && bool_decide (String.substring (String.length s - String.length suffix)
                            (String.length suffix) s = suffix).

(** [s[:-n]] for [n > 0] *)
Definition drop_last (n : nat) (s : string) : string :=
  String.substring 0 (String.length s - n) s.

(** Truth value of a string, and of an optional argument. *)
Definition truthy (s : string) : bool := negb (bool_decide (s = "")).
Definition truthy_opt (o : option string) : bool :=
  match o with Some s => truthy s | None => false end.

(** [int(s)] on a string: optional white space around an optional sign and
    at least one decimal digit. *)
Fixpoint digits_value (acc : Z) (s : string) : option Z :=
  match s with
  | EmptyString => Some acc
  | String c s' =>
      match Ascii.is_nat c with
      | Some d => digits_value (10 * acc + Z.of_nat d) s'
      | None => None
      end
  end.

Definition int_of_string (s : string) : result Z :=
  let bad := Raise (ValueError "invalid literal for int() with base 10") in
  let unsigned (t : string) :=
    match t with
    | EmptyString => None
    | _ => digits_value 0 t
    end in
  match strip s with
  | String "-"%char t => match unsigned t with Some z => Ok (- z)%Z | None => bad end
  | String "+"%char t => match unsigned t with Some z => Ok z | None => bad end
  | t => match unsigned t with Some z => Ok z | None => bad end
  end.

(** [fmt % args] with the conversions the program uses: [%s] and [%.0f]
    take the next argument (already rendered as text), [%%] is a percent
    sign.  Too few or too many arguments raise [TypeError], as in Python. *)
Fixpoint pyformat (fmt : string) (args : list string) : result string :=
  let take (rest : string) :=
    match args with
    | a :: args' =>
        match pyformat rest args' with
        | Ok s => Ok (a +:+ s)
        | Raise e => Raise e
        end
    | [] => Raise (TypeError "not enough arguments for format string")
    end in
  match fmt with
  | EmptyString =>
      match args with
      | [] => Ok EmptyString
      | _ :: _ =>
          Raise (TypeError
                   "not all arguments converted during string formatting")
      end
  | String "%"%char (String "s"%char rest) => take rest
  | String "%"%char
      (String "."%char (String "0"%char (String "f"%char rest))) => take rest
  | String "%"%char (String "%"%char rest) =>
      match pyformat rest args with
      | Ok s => Ok (String "%"%char s)
      | Raise e => Raise e
      end
  | String c rest =>
      match pyformat rest args with
      | Ok s => Ok (String c s)
      | Raise e => Raise e
      end
  end.

(** [sorted] on strings and on [(key, value)] items: Python compares byte
    strings, and tuples of them, lexicographically. *)
Definition sorted_strings : list string → list string := merge_sort String.le.

Definition item_le (p q : string * string) : Prop :=
  if decide (p.1 = q.1) then String.le p.2 q.2 else String.le p.1 q.1.

Global Instance item_le_dec : RelDecision item_le.
Proof. intros p q. unfold item_le. destruct (decide (p.1 = q.1)); apply _. Defined.

Definition sorted_items : list (string * string) → list (string * string) :=
  merge_sort item_le.

(** *** What the properties say about strings *)

Fixpoint contains (c : ascii) (s : string) : bool :=
  match s with
  | EmptyString => false
  | String c' s' => bool_decide (c' = c) || contains c s'
  end.

(** A key and a value that survive one write and one read: the line
    [k=v] is cut at newlines, stripped of white space at both ends and
    split at its first [=]. *)
Definition key_ok (k : string) : Prop :=
  contains "=" k = false ∧ contains "010" k = false ∧ lstrip k = k.

Definition value_ok (v : string) : Prop :=
  contains "010" v = false ∧ rstrip v = v.

Definition item_ok (kv : string * string) : Prop :=
  key_ok kv.1 ∧ value_ok kv.2.

Global Instance exn_eq_dec : EqDecision exn.
Proof. solve_decision. Defined.
Global Instance result_eq_dec `{EqDecision A} : EqDecision (result A).
Proof. solve_decision. Defined.
Global Instance key_ok_dec k : Decision (key_ok k).
Proof. unfold key_ok. apply _. Defined.
Global Instance value_ok_dec v : Decision (value_ok v).
Proof. unfold value_ok. apply _. Defined.

End Py.
Export Py.

(** ** The world the program runs in *)

(** Lock directories are flat: the program only ever keeps [deploy.prop]
    in them.  The file system is therefore a set of directories and a map
    from (directory, entry name) to file content; [os.path.join(d, name)]
    is the pair [(d, name)]. *)
Record FS : Type := mkFS {
  dirs : gset string;
  files : gmap (string * string) string;
}.

Inductive level : Type := DEBUG | INFO | WARNING | ERROR | CRITICAL.

(** Calls that leave the process.  Each one is answered by the oracle
    [ext_step] below with a return code and a text. *)
Inductive ext_call : Type :=
| Subprocess (cmd : list string)
| UrlOpen (url : string)
| ReadFile (path : string)
| DatedCurrentGitVersion (git_revision : string)
| GetPredeployMonitoringData (monitoring_time : option Z)
| Prime (version : string) (num_instances_to_prime : Z)
| SetDefault (version email stdin : string)
| Monitor (version : string) (monitoring_time : option Z)
    (pre_monitoring_data hipchat_room : string)
| SetDefaultMain (version email stdin hipchat_room : string).

Inductive fs_call : Type :=
| Mkdir (path : string)
| Rename (old new : string)
| Rmtree (path : string)
| WriteFile (dir name content : string).

(** What an observer of one run sees, in order. *)
Inductive event : Type :=
| EvLog (lvl : level) (msg : string)
| EvHipchat (room sender msg : string) (color : option string) (html : bool)
| EvExt (call : ext_call)
| EvFs (call : fs_call)
| EvSleep (secs : Z).

(** The collaborators: the state they keep (the git repository, the
    network, the hosting platform) and how they answer. *)
Class Collaborators : Type := {
  E : Type;
  ext_step : ext_call → E → E * result (Z * string);
  (** [json.load(r)["users"]] as (email, mention_name) pairs, and
      [json.load(r)["version_id"]] *)
  json_users : string → result (list (string * string));
  json_version_id : string → result string;
  urlencode : list (string * string) → string;
  list_with_links : string → string;
  abspath : string → string;
  hipchat_deploy_token : string;
  (** [str(why)], [repr] of a list and of a dict, and
      ['%.0f' % (waited_sec / 60.0)] *)
  exn_str : exn → string;
  repr_list : list string → string;
  repr_dict : gmap string string → string;
  fmt_minutes : Z → string;
  (** a failure of [os.mkdir] other than "file exists", if any *)
  mkdir_fault : string → FS → option Z;
  (** what the other processes do to the file system while this one
      sleeps until the given time *)
  other_procs : Z → FS → FS;
}.

Section Monad.
Context `{C : Collaborators}.

Record World : Type := mkWorld {
  fs : FS;
  now : Z;
  props : gmap string string;
  ext : E;
  trace : list event;
}.

Definition M (A : Type) : Type := World → World * result A.

Definition ret {A} (a : A) : M A := λ w, (w, Ok a).
Definition raise {A} (e : exn) : M A := λ w, (w, Raise e).
Definition bind {A B} (m : M A) (k : A → M B) : M B :=
  λ w, match m w with
       | (w', Ok a) => k a w'
       | (w', Raise e) => (w', Raise e)
       end.
(** [try: m  except Exception, why: h why] *)
Definition try_except {A} (m : M A) (h : exn → M A) : M A :=
  λ w, match m w with
       | (w', Ok a) => (w', Ok a)
       | (w', Raise e) => h e w'
       end.
(** [try: m  except Exception, why: h why  else: k] *)
Definition try_except_else {A B} (m : M A) (h : exn → M B) (k : A → M B)
  : M B :=
  λ w, match m w with
       | (w', Ok a) => k a w'
       | (w', Raise e) => h e w'
       end.
Definition lift {A} (r : result A) : M A := λ w, (w, r).

(** The value of a run that returned, and whether it did. *)
Definition returned {A} (dflt : A) (r : result A) : A :=
  match r with Ok a => a | Raise _ => dflt end.
Definition is_ok {A} (r : result A) : bool :=
  match r with Ok _ => true | Raise _ => false end.
(** A primitive step, given by what it does to the world. *)
Definition step {A} (f : World → World * result A) : M A := f.

#[global] Instance M_ret : MRet M := @ret.
#[global] Instance M_bind : MBind M := λ A B k m, bind m k.

Definition set_fs (f : FS) (w : World) : World :=
  mkWorld f (now w) (props w) (ext w) (trace w).
Definition set_now (t : Z) (w : World) : World :=
  mkWorld (fs w) t (props w) (ext w) (trace w).
Definition set_props (d : gmap string string) (w : World) : World :=
  mkWorld (fs w) (now w) d (ext w) (trace w).
Definition set_ext (e : E) (w : World) : World :=
  mkWorld (fs w) (now w) (props w) e (trace w).
Definition log_event (ev : event) (w : World) : World :=
  mkWorld (fs w) (now w) (props w) (ext w) (trace w ++ [ev]).

Definition emit (ev : event) : M unit := λ w, (log_event ev w, Ok ()).
Definition get_props : M (gmap string string) := λ w, (w, Ok (props w)).
Definition put_props (d : gmap string string) : M unit :=
  λ w, (set_props d w, Ok ()).

(** One call to a collaborator. *)
Definition call (c : ext_call) : M (Z * string) :=
  λ w, let '(e', r) := ext_step c (ext w) in
       (set_ext e' (log_event (EvExt c) w), r).

End Monad.

Notation "'let*' x := m 'in' k" := (bind m (λ x, k))
  (at level 10, x pattern, m at level 100, k at level 200,
   only parsing).

Section Pipeline.
Context `{C : Collaborators}.

(** [d[k]] *)
Definition getitem (d : gmap string string) (k : string) : M string :=
  match d !! k with
  | Some v => ret v
  | None => raise (KeyError k)
  end.
(** [d.get(k, default)] *)
Definition get_default (d : gmap string string) (k dflt : string) : string :=
  default dflt (d !! k).
(** [d.setdefault(k, v)] and [d.update(new)] *)
Definition setdefault (k v : string) (d : gmap string string)
  : gmap string string :=
  match d !! k with
  | Some _ => d
  | None => <[k := v]> d
  end.
Definition dict_update (d new : gmap string string) : gmap string string :=
  new ∪ d.

Definition fmt (f : string) (args : list string) : M string :=
  lift (pyformat f args).

(** [logging.info] and friends; [logging.exception] logs at ERROR. *)
Definition logging (lvl : level) (msg : string) : M unit :=
  emit (EvLog lvl msg).

(** [int(time.time())] and [time.sleep(secs)] *)
Definition time_time : M Z := λ w, (w, Ok (now w)).
Definition time_sleep (secs : Z) : M unit :=
  λ w, let t := (now w + secs)%Z in
       (log_event (EvSleep secs) (set_fs (other_procs t (fs w)) (set_now t w)),
        Ok ()).

(** *** File-system calls *)

Definition os_mkdir (path : string) : M unit :=
  emit (EvFs (Mkdir path));;
  step (λ w,
       if decide (path ∈ dirs (fs w))
       then (w, Raise (OSError (Some EEXIST) "File exists"))
       else match mkdir_fault path (fs w) with
            | Some errno => (w, Raise (OSError (Some errno) "mkdir failed"))
            | None =>
                (set_fs (mkFS ({[path]} ∪ dirs (fs w)) (files (fs w))) w,
                 Ok ())
            end).

Definition os_path_exists_dir (path : string) : M bool :=
  λ w, (w, Ok (bool_decide (path ∈ dirs (fs w)))).

Definition os_path_exists_file (dir name : string) : M bool :=
  λ w, (w, Ok (bool_decide (is_Some (files (fs w) !! (dir, name))))).

Definition dir_entries (f : FS) (dir : string)
  : gmap (string * string) string :=
  filter (λ kv, kv.1.1 = dir) (files f).

Definition os_rename (old new : string) : M unit :=
  emit (EvFs (Rename old new));;
  step (λ w,
       if decide (old ∈ dirs (fs w)) then
         if decide (new ∈ dirs (fs w) ∧ dir_entries (fs w) new ≠ ∅)
         then (w, Raise (OSError (Some ENOTEMPTY) "Directory not empty"))
         else
           let moved :=
             list_to_map
               ((λ kv : string * string * string,
                   ((if decide (kv.1.1 = old) then new else kv.1.1, kv.1.2),
                    kv.2))
                  <$> map_to_list (files (fs w))) in
           (set_fs (mkFS ({[new]} ∪ dirs (fs w) ∖ {[old]}) moved) w, Ok ())
       else (w, Raise (OSError (Some ENOENT) "No such file or directory"))).

Definition shutil_rmtree (path : string) : M unit :=
  emit (EvFs (Rmtree path));;
  step (λ w,
       if decide (path ∈ dirs (fs w)) then
         (set_fs (mkFS (dirs (fs w) ∖ {[path]})
                       (filter (λ kv, kv.1.1 ≠ path) (files (fs w)))) w,
          Ok ())
       else (w, Raise (OSError (Some ENOENT) "No such file or directory"))).

(** [open(os.path.join(dir, name)).read()] *)
Definition read_file (dir name : string) : M string :=
  λ w, match files (fs w) !! (dir, name) with
       | Some content => (w, Ok content)
       | None => (w, Raise (IOError (Some ENOENT) "No such file or directory"))
       end.

(** [open(os.path.join(dir, name), 'w')] followed by the writes. *)
Definition write_file (dir name content : string) : M unit :=
  emit (EvFs (WriteFile dir name content));;
  step (λ w,
       if decide (dir ∈ dirs (fs w)) then
         (set_fs (mkFS (dirs (fs w)) (<[(dir, name) := content]> (files (fs w))))
                 w,
          Ok ())
       else (w, Raise (IOError (Some ENOENT) "No such file or directory"))).

(** ** The program, function by function *)

(** Used for testing.  Does not set-default, does not tag versions as bad. *)
Definition _DRY_RUN : bool := false.

Definition when (b : bool) (m : M unit) : M unit := if b then m else ret ().

(** [_alert(props, text, severity=logging.INFO, color=None, html=False,
    prefix_with_username=True)].  The alert goes to the logs first and then
    to the chat room named in [props]. *)
Definition _alert (props : gmap string string) (text : string)
    (severity : level) (color : option string)
    (html prefix_with_username : bool) : M unit :=
  let* text := (if prefix_with_username
          then let* name := getitem props "DEPLOYER_HIPCHAT_NAME" in
               fmt "%s %s" [name; text]
          else ret text) in
  logging severity text;;
  let* room := getitem props "HIPCHAT_ROOM" in
  let* sender := getitem props "HIPCHAT_SENDER" in
  emit (EvHipchat room sender text color html).

(** [_safe_urlopen]: [retries] is how many more failures are logged and
    retried; the source stops at the third failure. *)
Fixpoint _safe_urlopen_loop (retries : nat) (url : string) : M string :=
  try_except (let* r := call (UrlOpen url) in ret r.2)
    (λ why,
       match retries with
       | O => raise why
       | S n =>
           let* msg := fmt "url-fetch of %s %s failed, retrying..."
                     [repr_list [url]; repr_dict ∅] in
           logging WARNING msg;;
           _safe_urlopen_loop n url
       end).

Definition _safe_urlopen (url : string) : M string := _safe_urlopen_loop 2 url.

(** The dict comprehension [{user['email']: '@%s' % user['mention_name']}] *)
Definition mention_names (users : list (string * string)) : gmap string string :=
  foldl (λ m u, <[u.1 := "@" +:+ u.2]> m) ∅ users.

Definition _email_to_hipchat_name (email : option string) : M string :=
  match email with
  | None => ret "<b>Unknown user:</b>"
  | Some email =>
      let* email_to_mention_name :=
        try_except
          (logging INFO "Fetching email->hipchat mapping from hipchat";;
           let* url := fmt "https://api.hipchat.com/v1/users/list?auth_token=%s"
                     [hipchat_deploy_token] in
           let* r := _safe_urlopen url in
           let* users := lift (json_users r) in
           ret (mention_names users))
          (λ why,
             let* msg := fmt "Fetching email->hipchat mapping failed; will guess. (%s: %s)"
                       [class_name why; exn_str why] in
             logging WARNING msg;;
             ret ∅) in
      let* guess := fmt "@%s" [hd "" (split "@" email)] in
      ret (get_default email_to_mention_name email guess)
  end.

(** Return True if command succeeded, False else.  May raise on failure. *)
Definition _run_command (cmd : list string) (failure_ok : bool) : M bool :=
  let* msg := fmt "Running command: %s" [repr_list cmd] in
  logging INFO msg;;
  let* r := call (Subprocess cmd) in
  if failure_ok then ret (bool_decide (r.1 = 0%Z))
  else if decide (r.1 = 0%Z) then ret true
       else raise (CalledProcessError r.1 cmd).

Definition _pipe_command (cmd : list string) : M string :=
  let* msg := fmt "Running pipe-command: %s" [repr_list cmd] in
  logging INFO msg;;
  let* r := call (Subprocess cmd) in
  if decide (r.1 = 0%Z) then
    let retval := rstrip r.2 in
    let* msg := fmt ">>> %s" [retval] in
    logging INFO msg;;
    ret retval
  else raise (CalledProcessError r.1 cmd).

(** [with _password_on_stdin(pw_filename): body]: the collaborator that
    runs in [body] reads the password from stdin, so it is handed over. *)
Definition _password_on_stdin {A} (pw_filename : string)
    (body : string → M A) : M A :=
  let* r := call (ReadFile pw_filename) in
  body (strip r.2).

(** Return a URL that points to the set-default job. *)
Definition _set_default_url (props : gmap string string)
    (extra_params : list (string * string)) : M string :=
  let* url := getitem props "JENKINS_URL" in
  let* token := getitem props "TOKEN" in
  let* version := getitem props "VERSION_NAME" in
  fmt "%s/job/deploy-set-default/parambuild?TOKEN=%s&VERSION_NAME=%s&%s"
      [rstrip_slash url; token; version; urlencode extra_params].

(** Return a URL that points to the deploy-finish job. *)
Definition _finish_url (props : gmap string string)
    (extra_params : list (string * string)) : M string :=
  let* url := getitem props "JENKINS_URL" in
  let* token := getitem props "TOKEN" in
  fmt "%s/job/deploy-finish/parambuild?TOKEN=%s&%s"
      [rstrip_slash url; token; urlencode extra_params].

Definition _gae_version (git_revision : string) : M string :=
  let* remote := fmt "origin/%s" [git_revision] in
  let* is_branch := _run_command ["git"; "ls-remote"; "--exit-code"; "."; remote] true in
  let* git_revision :=
    (if is_branch then
       let* refspec := fmt "+refs/heads/%s:refs/remotes/origin/%s"
                     [git_revision; git_revision] in
       _run_command ["git"; "fetch"; "origin"; refspec] false;;
       fmt "origin/%s" [git_revision]
     else ret git_revision) in
  let* r := call (DatedCurrentGitVersion git_revision) in
  ret r.2.

(** The current default appengine version-name, according to appengine. *)
Definition _current_gae_version : M string :=
  let* r := _safe_urlopen "http://www.khanacademy.org/api/internal/dev/version" in
  let* version_id := lift (json_version_id r) in
  ret (hd "" (split "." version_id)).

(** The arguments of [_create_properties], in order. *)
Record create_args : Type := mkArgs {
  arg_lockdir : string;
  arg_deployer_email : string;
  arg_git_revision : string;
  arg_auto_deploy : bool;
  arg_rollback_to : string;
  arg_jenkins_url : string;
  arg_hipchat_room : string;
  arg_hipchat_sender : string;
  arg_deploy_email : string;
  arg_deploy_pw_file : string;
  arg_token : string;
}.

(** [str(auto_deploy).lower()] *)
Definition str_lower_bool (b : bool) : string := if b then "true" else "false".

(** Return a dict of property-name to property value. *)
Definition _create_properties (a : create_args) : M (gmap string string) :=
  let retval : gmap string string :=
    <["TOKEN" := arg_token a]>
    (<["DEPLOY_PW_FILE" := arg_deploy_pw_file a]>
    (<["DEPLOY_EMAIL" := arg_deploy_email a]>
    (<["HIPCHAT_SENDER" := arg_hipchat_sender a]>
    (<["HIPCHAT_ROOM" := arg_hipchat_room a]>
    (<["JENKINS_URL" := arg_jenkins_url a]>
    (<["ROLLBACK_TO" := arg_rollback_to a]>
    (<["AUTO_DEPLOY" := str_lower_bool (arg_auto_deploy a)]>
    (<["GIT_REVISION" := arg_git_revision a]>
    (<["DEPLOYER_EMAIL" := arg_deployer_email a]>
    (<["LOCKDIR" := arg_lockdir a]> ∅)))))))))) in
  (* Set some useful properties that we can derive from the above. *)
  let* git_revision := getitem retval "GIT_REVISION" in
  let retval := <["GIT_SHA1" := git_revision]> retval in
  let* git_sha1 := getitem retval "GIT_SHA1" in
  let* version_name := _gae_version git_sha1 in
  let retval := <["VERSION_NAME" := version_name]> retval in
  let* deployer_email := getitem retval "DEPLOYER_EMAIL" in
  let retval :=
    <["DEPLOYER_USERNAME" := hd "" (split "@" deployer_email)]> retval in
  let* hipchat_name := _email_to_hipchat_name (Some deployer_email) in
  let retval := <["DEPLOYER_HIPCHAT_NAME" := hipchat_name]> retval in
  (* These hold state about the deploy as it's going along. *)
  let retval := <["LAST_ERROR" := ""]> retval in
  (* A comma-separated list of choices taken from the 'action' argparse arg. *)
  let retval :=
    <["POSSIBLE_NEXT_STEPS" := "acquire-lock,finish-with-unlock,relock"]>
      retval in
  let* msg := fmt "Setting deploy-properties: %s" [repr_dict retval] in
  logging INFO msg;;
  ret retval.

(** The loop of [_read_properties]: [(k, v) = l.strip().split('=', 1)]
    and [retval[k] = v] for every line. *)
Definition parse_line (retval : result (gmap string string)) (l : string)
  : result (gmap string string) :=
  match retval with
  | Raise e => Raise e
  | Ok d =>
      match split1 "=" (strip l) with
      | Some (k, v) => Ok (<[k := v]> d)
      | None => Raise (ValueError "need more than 1 value to unpack")
      end
  end.

Definition parse_props (content : string) : result (gmap string string) :=
  foldl parse_line (Ok ∅) (readlines content).

(** Read the properties from lockdir/deploy.prop into a dict. *)
Definition _read_properties (lockdir : string) : M (gmap string string) :=
  let* content := read_file lockdir "deploy.prop" in
  let* retval := lift (parse_props content) in
  (* Do some sanity checking. *)
  let* recorded := getitem retval "LOCKDIR" in
  if decide (recorded = lockdir) then
    let* msg := fmt "Read properties from %s: %s" [lockdir; repr_dict retval] in
    logging INFO msg;;
    ret retval
  else raise (AssertionError (repr_list [recorded; lockdir])).

(** The text that [_write_properties] prints: one [k=v] line per item of
    [sorted(props.iteritems())]. *)
Definition prop_line (kv : string * string) : string :=
  kv.1 +:+ "=" +:+ kv.2 +:+ NL.

Definition serialize_props (props : gmap string string) : string :=
  foldr (λ kv rest, prop_line kv +:+ rest) "" (sorted_items (map_to_list props)).

(** Write the given properties dict into lockdir/deploy.prop. *)
Definition _write_properties (props : gmap string string) : M unit :=
  let* lockdir := getitem props "LOCKDIR" in
  let* msg := fmt "Wrote properties to %s: %s" [lockdir; repr_dict props] in
  logging INFO msg;;
  let* lockdir := getitem props "LOCKDIR" in
  write_file lockdir "deploy.prop" (serialize_props props).

(** The escape hatches that [_update_properties] keeps legal. *)
Definition escape_hatches : gset string :=
  list_to_set ["finish-with-failure"; "finish-with-rollback";
               "finish-with-unlock"; "relock"].

(** [set(s.split(','))] *)
Definition steps_of (s : string) : gset string := list_to_set (split "," s).

(** Update props from the new_values dict, and write the result to disk.
    [props] is the dict the caller holds: it is updated in place. *)
Definition _update_properties (new_values : gmap string string) : M unit :=
  let* new_values :=
    match new_values !! "GIT_SHA1" with
    | Some sha1 =>
        let* version_name := _gae_version sha1 in
        ret (setdefault "VERSION_NAME" version_name new_values)
    | None => ret new_values
    end in
  let new_values :=
    match new_values !! "DEPLOYER_EMAIL" with
    | Some email =>
        setdefault "DEPLOYER_USERNAME" (hd "" (split "@" email)) new_values
    | None => new_values
    end in
  let* new_values :=
    match new_values !! "DEPLOYER_USERNAME" with
    | Some username =>
        let* hipchat_name := _email_to_hipchat_name (Some username) in
        ret (setdefault "DEPLOYER_HIPCHAT_NAME" hipchat_name new_values)
    | None => ret new_values
    end in
  let* new_values :=
    match new_values !! "LOCKDIR" with
    | Some _ =>
        let* t := time_time in
        ret (setdefault "LOCK_ACQUIRE_TIME" (pretty t) new_values)
    | None => ret new_values
    end in
  let new_values :=
    match new_values !! "POSSIBLE_NEXT_STEPS" with
    | Some steps =>
        (* finish-with-failure is always possible; it is called when you
           manually cancel a jenkins job.  finish-with-rollback too, which
           is mostly a synonym.  And finish-with-unlock and relock, which
           are called manually when the script gets messed up, and which
           we never want to block. *)
        let next_steps := steps_of steps ∪ escape_hatches in
        <["POSSIBLE_NEXT_STEPS" :=
            join "," (sorted_strings (elements next_steps))]> new_values
    | None => new_values
    end in
  let* props := get_props in
  put_props (dict_update props new_values);;
  let* props := get_props in
  _write_properties props.

(** *** The lock *)

(** [x in l] for a list of strings *)
Definition mem (x : string) (l : list string) : bool := bool_decide (x ∈ l).

(** The [else:] branch of the loop of [acquire_deploy_lock]: the
    directory was created. *)
Definition lock_acquired (lockdir : string) (jenkins_build_url : option string)
    (done_first_alert : bool) : M unit :=
  (* We don't worry with timezones since the lock is always local to a
     single machine, which has a consistent timezone. *)
  let* t := time_time in
  let* props := get_props in
  put_props (<["LOCK_ACQUIRE_TIME" := pretty t]> props);;
  let* msg := fmt "Lockdir %s acquired." [lockdir] in
  logging INFO msg;;
  let* props := get_props in
  let msg := "" in
  (* tell them they're no longer in line. *)
  let msg := if done_first_alert then msg +:+ "Thank you for waiting! " else msg in
  let* git_revision := getitem props "GIT_REVISION" in
  let* more :=
    fmt ("Starting deploy of branch %s.  I'll post to HipChat when "
         +:+ "both a) tests are done and b) the deploy is finished.")
        [git_revision] in
  let msg := msg +:+ more in
  let* msg :=
    (if truthy_opt jenkins_build_url then
       let* auto_deploy := getitem props "AUTO_DEPLOY" in
       if decide (auto_deploy ≠ "true") then
         let* more :=
           fmt ("  If you wish to cancel before then:" +:+ NL
                +:+ "(failed) abort: %s/stop")
               [rstrip_slash (default "" jenkins_build_url)] in
         ret (msg +:+ more)
       else ret msg
     else ret msg) in
  _alert props msg INFO (Some "green") false true.

(** The rest of one turn of the loop when the directory exists already:
    the alerts, [time.sleep(10)] and [waited_sec += 10] are in
    [acquire_wait]. *)
Definition queue_alert (current_props : gmap string string)
    (notify_sec waited_sec : Z) (done_first_alert : bool) : M bool :=
  let* props := get_props in
  let* jenkins_url := getitem props "JENKINS_URL" in
  let* recover_msg :=
    fmt ("If this is a mistake and you are sure nobody else "
         +:+ "is deploying, fix it by visiting "
         +:+ "%s/job/deploy-finish/build, setting STATUS=unlock "
         +:+ "and clicking 'Build'.")
        [rstrip_slash jenkins_url] in
  if negb done_first_alert then
    let* git_revision := getitem props "GIT_REVISION" in
    let* text :=
      fmt ("You're next in line to deploy! (branch %s.) "
           +:+ "Currently deploying (%.0f minutes in so far): "
           +:+ "%s (branch %s). %s")
          [git_revision;
           fmt_minutes waited_sec;
           get_default current_props "DEPLOYER_USERNAME" "Unknown User";
           get_default current_props "GIT_REVISION" "unknown";
           recover_msg] in
    _alert props text INFO (Some "yellow") false true;;
    ret true
  else if decide (notify_sec = 0%Z) then raise ZeroDivisionError
  else if decide ((waited_sec `mod` notify_sec)%Z = 0%Z) then
    let* text :=
      fmt ("You're still next in line to deploy, after %s (branch %s)."
           +:+ " (Waited %.0f minutes so far). %s")
          [get_default current_props "DEPLOYER_USERNAME" "Unknown User";
           get_default current_props "GIT_REVISION" "unknown";
           fmt_minutes waited_sec;
           recover_msg] in
    _alert props text INFO (Some "yellow") false true;;
    ret done_first_alert
  else ret done_first_alert.

(** [while waited_sec < wait_sec: ...].  The result is [None] when the
    lock was acquired (the function returned from inside the loop) and
    [Some waited_sec] when the loop ended.  Every turn adds 10 to
    [waited_sec], so [fuel] turns are enough when
    [wait_sec - waited_sec <= fuel]; see [acquire_wait_fuel]. *)
Fixpoint acquire_wait (fuel : nat) (lockdir : string)
    (current_props : gmap string string) (jenkins_build_url : option string)
    (wait_sec notify_sec waited_sec : Z) (done_first_alert : bool)
  : M (option Z) :=
  if decide (waited_sec < wait_sec)%Z then
    match fuel with
    | O => ret (Some waited_sec)
    | S fuel' =>
        let* acquired :=
          try_except (os_mkdir lockdir;; ret true)
            (λ why,
               match why with
               | OSError errno _ =>
                   (* file exists *)
                   if decide (errno ≠ Some EEXIST) then raise why else ret false
               | _ => raise why
               end) in
        if acquired : bool then
          lock_acquired lockdir jenkins_build_url done_first_alert;;
          ret None
        else
          let* done_first_alert :=
            queue_alert current_props notify_sec waited_sec done_first_alert in
          time_sleep 10;;     (* how often to busy-wait *)
          acquire_wait fuel' lockdir current_props jenkins_build_url
            wait_sec notify_sec (waited_sec + 10)%Z done_first_alert
    end
  else ret (Some waited_sec).

(** The end of [acquire_deploy_lock], after the loop: figure out where in
    the pipeline the previous job is, suggest a course of action based on
    that, and give up. *)
Definition acquire_timeout (current_props : gmap string string)
    (waited_sec : Z) : M unit :=
  let* pns := getitem current_props "POSSIBLE_NEXT_STEPS" in
  let next_steps := split "," pns in
  let* msg :=
    (if mem "merge-from-master" next_steps || mem "manual-test" next_steps
        || mem "set-default" next_steps then
       (* They haven't set the default yet, so we can just fail. *)
       let* url := _finish_url current_props
                     [("STATUS", "failure"); ("WHY", "aborted")] in
       fmt "(failed) cancel their deploy: %s" [url]
     else if mem "finish-with-success" next_steps then
       let* url1 := _finish_url current_props [("STATUS", "success")] in
       let* rollback_to := getitem current_props "ROLLBACK_TO" in
       let* url2 := _finish_url current_props
                      [("STATUS", "rollback"); ("WHY", "aborted");
                       ("ROLLBACK_TO", rollback_to)] in
       fmt ("(successful) finish their deploy with success: %s" +:+ NL
            +:+ "(failed) abort their deploy and roll back: %s")
           [url1; url2]
     else
       let* url := _finish_url current_props [("STATUS", "unlock")] in
       fmt "(continue) release the lock: %s" [url]) in
  let* props := get_props in
  let* username := getitem current_props "DEPLOYER_USERNAME" in
  let* jenkins_url := getitem current_props "JENKINS_URL" in
  let* text :=
    fmt ("%s has been deploying for over %s minutes. "
         +:+ "Perhaps it's a stray lock?  If you are confident that "
         +:+ "no deploy is currently running (check the dashboard at %s), "
         +:+ "you can:" +:+ NL
         +:+ "%s" +:+ NL
         +:+ "Once you done this, you will need to re-start your own deploy.")
        [username; pretty (waited_sec `div` 60)%Z; jenkins_url; msg] in
  _alert props text ERROR None false true;;
  raise (RuntimeError "Timed out waiting on the current lock-holder.").

(** Acquire the deploy lock (a directory in the jenkins workspace).
    [wait_sec=3600, notify_sec=600] are the defaults of the source. *)
Definition acquire_deploy_lock (jenkins_build_url : option string)
    (wait_sec notify_sec : Z) : M unit :=
  (* Assuming someone is holding the lock, who is it? *)
  let* props := get_props in
  let* lockdir := getitem props "LOCKDIR" in
  let* holder :=
    try_except
      (let* current_props := _read_properties lockdir in
       (* How long has the current lock-holder been holding this lock? *)
       let* t := time_time in
       let* since := getitem current_props "LOCK_ACQUIRE_TIME" in
       let* since := lift (int_of_string since) in
       ret (current_props, (t - since)%Z))
      (λ why,
         match why with
         | IOError _ _ | OSError _ _ => ret (∅, 0%Z)
         | _ => raise why
         end) in
  let current_props : gmap string string := holder.1 in
  let waited_sec : Z := holder.2 in
  let* waited :=
    acquire_wait (Z.to_nat (wait_sec - waited_sec)) lockdir current_props
      jenkins_build_url wait_sec notify_sec waited_sec false in
  match waited with
  | None => ret ()
  | Some waited_sec => acquire_timeout current_props waited_sec
  end.

(** Re-acquire the lock in new_lockdir with the values in old_lockdir. *)
Definition _move_lockdir (old_lockdir new_lockdir : string) : M unit :=
  let* taken := os_path_exists_dir new_lockdir in
  (if taken : bool then
     let* msg := fmt ("Lock already held in " +:+ DQ +:+ "%s" +:+ DQ)
                     [new_lockdir] in
     raise (OSError None msg)
   else ret ());;
  let* msg := fmt "Renaming %s -> %s" [old_lockdir; new_lockdir] in
  logging INFO msg;;
  os_rename old_lockdir new_lockdir;;
  (* Update the LOCKDIR property to point to the new location. *)
  _update_properties {[ "LOCKDIR" := abspath new_lockdir ]}.

(** Raise RuntimeError if the release failed.  [backup_lockfile=True] is
    the default of the source. *)
Definition release_deploy_lock (backup_lockfile : bool) : M unit :=
  (* We move the lockdir to a 'backup' lockdir in case it turns out we
     want to re-acquire this lock with the same parameters. *)
  let* props := get_props in
  let* lockdir := getitem props "LOCKDIR" in
  let old_lockdir := lockdir +:+ ".last" in
  try_except (shutil_rmtree old_lockdir)
    (λ why,
       match why with
       | OSError _ _ => ret ()      (* probably 'dir does not exist' *)
       | _ => raise why
       end);;
  try_except
    (if backup_lockfile then _move_lockdir lockdir old_lockdir
     else shutil_rmtree lockdir)
    (λ why,
       match why with
       | IOError _ _ | OSError _ _ =>
           let* props := get_props in
           let* text :=
             fmt ("Could not release the deploy-lock (%s); it's not being held? "
                  +:+ "(%s)") [lockdir; exn_str why] in
           _alert props text ERROR None false true;;
           let* msg := fmt "Could not release the deploy-lock (%s)"
                           [exn_str why] in
           raise (RuntimeError msg)
       | _ => raise why
       end);;
  let* msg := fmt "Released the deploy lock: %s" [lockdir] in
  logging INFO msg.

(** *** Branch synchronisation *)

(** [[l.split()[1] for l in all_branches]] *)
Fixpoint second_words (lines : list string) : result (list string) :=
  match lines with
  | [] => Ok []
  | l :: lines' =>
      match String.words l with
      | _ :: name :: _ =>
          match second_words lines' with
          | Ok names => Ok (name :: names)
          | Raise e => Raise e
          end
      | _ => Raise (IndexError "list index out of range")
      end
  end.

(** Merge master into the current branch if necessary. *)
Definition merge_from_master (props : gmap string string) : M unit :=
  let* git_revision := getitem props "GIT_REVISION" in
  (if decide (git_revision = "master") then
     raise (ValueError ("You must deploy from a branch, you can't deploy "
                        +:+ "from master"))
   else ret ());;
  (* Make sure our local 'master' matches the remote. *)
  _run_command ["git"; "fetch"; "origin";
                "+refs/heads/master:refs/remotes/origin/master"] false;;
  _run_command ["git"; "checkout"; "master"] false;;
  _run_command ["git"; "reset"; "--hard"; "origin/master"] false;;
  (* Set our local branch to be the same as the origin branch. *)
  let* remote := fmt "origin/%s" [git_revision] in
  let* is_branch :=
    _run_command ["git"; "ls-remote"; "--exit-code"; "."; remote] true in
  (if is_branch : bool then
     let* refspec := fmt "+refs/heads/%s:refs/remotes/origin/%s"
                         [git_revision; git_revision] in
     _run_command ["git"; "fetch"; "origin"; refspec] false;;
     (* The '--' is needed if git_revision is both a branch and directory. *)
     _run_command ["git"; "checkout"; git_revision; "--"] false;;
     let* remote := fmt "origin/%s" [git_revision] in
     _run_command ["git"; "reset"; "--hard"; remote] false;;
     ret ()
   else
     _run_command ["git"; "checkout"; git_revision; "--"] false;;
     ret ());;
  let* head_commit := _pipe_command ["git"; "rev-parse"; "HEAD"] in
  let* master_commit := _pipe_command ["git"; "rev-parse"; "master"] in
  (* Sanity check: HEAD should be at the revision we want to deploy from. *)
  let* revision_commit := _pipe_command ["git"; "rev-parse"; git_revision] in
  (if decide (head_commit ≠ revision_commit) then
     let* msg := fmt "HEAD unexpectedly at %s, not %s"
                     [head_commit; git_revision] in
     raise (RuntimeError msg)
   else ret ());;
  (* If the current commit is a super-set of master, we're done, yay! *)
  let* base := _pipe_command ["git"; "merge-base"; git_revision; master_commit] in
  if decide (base = master_commit) then
    let* msg := fmt "%s is a superset of master, no need to merge"
                    [git_revision] in
    logging INFO msg
  else
    (* Now we need to merge master into our branch.  First, make sure we
       *are* a branch.  git show-ref returns line like 'd41eba92 refs/...' *)
    let* shown := _pipe_command ["git"; "show-ref"] in
    let all_branches := splitlines shown in
    let* all_branch_names := lift (second_words all_branches) in
    let* wanted := fmt "refs/remotes/origin/%s" [git_revision] in
    (if negb (mem wanted all_branch_names) then
       let* msg :=
         fmt ("%s is not a branch name on the remote, like these:"
              +:+ NL +:+ "  %s")
             [join (NL +:+ "  ") (sorted_strings all_branch_names)] in
       raise (ValueError msg)
     else ret ());;
    (* The merge exits with rc > 0 if there were conflicts *)
    let* msg := fmt "Merging master into %s" [git_revision] in
    logging INFO msg;;
    try_except (_run_command ["git"; "merge"; "master"] false;; ret ())
      (λ why,
         match why with
         | CalledProcessError _ _ =>
             _run_command ["git"; "merge"; "--abort"] false;;
             let* msg := fmt ("Merge conflict: must merge master into %s "
                              +:+ "manually.") [git_revision] in
             raise (RuntimeError msg)
         | _ => raise why
         end);;
    (* There's a race condition if someone commits to this branch while
       this script is running, so check for that. *)
    try_except (_run_command ["git"; "push"; "origin"; git_revision] false;; ret ())
      (λ why,
         match why with
         | CalledProcessError _ _ =>
             _run_command ["git"; "reset"; "--hard"; head_commit] false;;
             let* msg := fmt ("Someone committed to %s while we've been "
                              +:+ "deploying!") [git_revision] in
             raise (RuntimeError msg)
         | _ => raise why
         end);;
    let* msg := fmt "Done merging master into %s" [git_revision] in
    logging INFO msg.

(** Tag the github commit that was deployed with the deploy-name. *)
Definition _tag_release (props : gmap string string) : M unit :=
  let* version_name := getitem props "VERSION_NAME" in
  let* tag_name := fmt "gae-%s" [version_name] in
  (* Don't try to re-create the tag if it already exists. *)
  let* existing := _pipe_command ["git"; "tag"; "-l"; tag_name] in
  if negb (truthy existing) then
    let* git_revision := getitem props "GIT_REVISION" in
    let* message := fmt "Deployed to appengine from branch %s" [git_revision] in
    let* sha1 := getitem props "GIT_SHA1" in
    _run_command ["git"; "tag"; "-m"; message; tag_name; sha1] false;;
    ret ()
  else ret ().

(** Tag the currently deployed github commit as having problems. *)
Definition _tag_as_bad_version (props : gmap string string) : M unit :=
  let* version_name := getitem props "VERSION_NAME" in
  let* tag_name := fmt "gae-%s-bad" [version_name] in
  (* Don't try to re-create the tag if it already exists. *)
  let* existing := _pipe_command ["git"; "tag"; "-l"; tag_name] in
  if negb (truthy existing) then
    let* version_name := getitem props "VERSION_NAME" in
    let* message := fmt "Bad version (%s): rolled back" [version_name] in
    let* sha1 := getitem props "GIT_SHA1" in
    _run_command ["git"; "tag"; "-m"; message; tag_name; sha1] false;;
    ret ()
  else ret ().

(** Merge from the current branch into master. *)
Definition merge_to_master (props : gmap string string) : M unit :=
  if _DRY_RUN then ret ()
  else
    let* sha1 := getitem props "GIT_SHA1" in
    let* git_revision := getitem props "GIT_REVISION" in
    let* branch_name := fmt "%s (%s)" [sha1; git_revision] in
    (* Set our local version of master to be the same as the origin master. *)
    _run_command ["git"; "fetch"; "origin";
                  "+refs/heads/master:refs/remotes/origin/master"] false;;
    _run_command ["git"; "checkout"; "master"] false;;
    _run_command ["git"; "reset"; "--hard"; "origin/master"] false;;
    let* head_commit := _pipe_command ["git"; "rev-parse"; "HEAD"] in
    (* The merge exits with rc > 0 if there were conflicts *)
    let* msg := fmt "Merging %s into master" [branch_name] in
    logging INFO msg;;
    try_except
      (let* sha1 := getitem props "GIT_SHA1" in
       _run_command ["git"; "merge"; sha1] false;; ret ())
      (λ why,
         match why with
         | CalledProcessError _ _ =>
             _run_command ["git"; "merge"; "--abort"] true;;
             raise why
         | _ => raise why
         end);;
    (* There's a race condition if someone commits to master while this
       script is running, so check for that. *)
    try_except
      (_run_command ["git"; "push"; "--tags"; "origin"; "master"] false;; ret ())
      (λ why,
         match why with
         | CalledProcessError _ _ =>
             _run_command ["git"; "reset"; "--hard"; head_commit] true;;
             raise why
         | _ => raise why
         end);;
    let* msg := fmt "Done merging %s into master" [branch_name] in
    logging INFO msg.

(** *** Rollback *)

(** The body of the [try:] of [_rollback_deploy]. *)
Definition rollback_steps (props : gmap string string) : M unit :=
  let* version_name := getitem props "VERSION_NAME" in
  let* msg := fmt "Tagging %s as a bad version" [version_name] in
  logging INFO msg;;
  _tag_as_bad_version props;;
  _run_command ["git"; "push"; "--tags"] false;;
  let* rollback_to := getitem props "ROLLBACK_TO" in
  let* msg := fmt "Calling set_default to %s" [rollback_to] in
  logging INFO msg;;
  let* pw_file := getitem props "DEPLOY_PW_FILE" in
  _password_on_stdin pw_file
    (λ stdin,
       let* rollback_to := getitem props "ROLLBACK_TO" in
       let* email := getitem props "DEPLOY_EMAIL" in
       let* room := getitem props "HIPCHAT_ROOM" in
       call (SetDefaultMain rollback_to email stdin room);;
       ret ());;
  (* If the version we rolled back *to* is marked bad, warn about that. *)
  let* rollback_to := getitem props "ROLLBACK_TO" in
  let* tag_name := fmt "%s-bad" [rollback_to] in
  let* existing := _pipe_command ["git"; "tag"; "-l"; tag_name] in
  if truthy existing then
    let* rollback_to := getitem props "ROLLBACK_TO" in
    let* text :=
      fmt ("(poo) WARNING: Rolled back to %s, but that version "
           +:+ "has itself been marked as bad.  You may need to manually "
           +:+ "run set_default.py to roll back to a safe version.  (Run "
           +:+ "'git tag' to see all versions, good and bad.)")
          [rollback_to] in
    _alert props text INFO None false true
  else ret ().

(** Roll back to ROLLBACK_TO and tag the current deploy as bad.

    Returns True if rollback succeeded -- even if we failed to tag the
    version as bad after rolling back from it -- False else. *)
Definition _rollback_deploy (props : gmap string string) : M bool :=
  let* current_gae_version := _current_gae_version in
  let* version_name := getitem props "VERSION_NAME" in
  if decide (current_gae_version ≠ version_name) then
    let* version_name := getitem props "VERSION_NAME" in
    let* rollback_to := getitem props "ROLLBACK_TO" in
    let* msg :=
      fmt ("Skipping rollback: looks like our deploy never "
           +:+ "succeeded. (Us: %s, current: %s, rollback-to: %s)")
          [version_name; current_gae_version; rollback_to] in
    logging INFO msg;;
    ret true
  else
    let* rollback_to := getitem props "ROLLBACK_TO" in
    let* version_name := getitem props "VERSION_NAME" in
    let* text :=
      fmt ("Automatically rolling the default back to %s "
           +:+ "and tagging %s as bad (in git)")
          [rollback_to; version_name] in
    _alert props text INFO None false true;;
    try_except (rollback_steps props;; ret true)
      (λ why,
         logging ERROR "Auto-rollback failed";;
         let* rollback_to := getitem props "ROLLBACK_TO" in
         let* rollback_to' := getitem props "ROLLBACK_TO" in
         let* text :=
           fmt ("(sadpanda) (sadpanda) Auto-rollback failed! "
                +:+ "Roll back to %s manually by running: "
                +:+ "deploy/set_default.py %s")
               [rollback_to; rollback_to'] in
         _alert props text CRITICAL None false true;;
         ret false).

(** *** The stages between the lock and the end *)

(** Send a message to hipchat saying to do pre-set-default manual tests. *)
Definition manual_test (props : gmap string string) : M unit :=
  let* version_name := getitem props "VERSION_NAME" in
  let* hostname := fmt "%s-dot-khan-academy.appspot.com" [version_name] in
  let* git_revision := getitem props "GIT_REVISION" in
  let* auto_deploy := getitem props "AUTO_DEPLOY" in
  let* url1 := _set_default_url props [("AUTO_DEPLOY", auto_deploy)] in
  let* url2 := _finish_url props [("STATUS", "failure"); ("WHY", "aborted")] in
  let* text :=
    fmt ("https://%s/ (branch %s) is uploaded to appengine! "
         +:+ "Do some manual testing on it, then either:" +:+ NL
         +:+ "(successful) set it as default: type 'sun, set default' or "
         +:+ "visit %s" +:+ NL
         +:+ "(failed) abort the deploy: type 'sun, abort' or visit %s")
        [hostname; git_revision; url1; url2] in
  _alert props text INFO (Some "green") false true;;
  time_sleep 1;;  (* to help the two hipchat alerts be ordered properly *)
  (* Suggest some urls to do for manual testing, as both links and a
     commandline tool. *)
  let* version_name := getitem props "VERSION_NAME" in
  let* v2 := getitem props "VERSION_NAME" in
  let* v3 := getitem props "VERSION_NAME" in
  let* text :=
    fmt ("Here are some pages to manually test:<br>%s<br>"
         +:+ "Or open them all at once (cut-and-paste): "
         +:+ "<b>tools/manual_webapp_testing.py %s</b><br>"
         +:+ "Also run end-to-end testing (cut-and-paste): "
         +:+ "<b>tools/end_to_end_webapp_testing.py --version %s</b>")
        [list_with_links version_name; v2; v3] in
  _alert props text INFO None true false.

(** Truth value and text of the optional [monitoring_time]. *)
Definition truthy_time (t : option Z) : bool :=
  match t with Some z => negb (bool_decide (z = 0%Z)) | None => false end.
Definition str_time (t : option Z) : string :=
  match t with Some z => pretty z | None => "None" end.

(** Call set_default.py to make a specified deployed version live.
    [monitoring_time=10, jenkins_build_url=None] are the defaults. *)
Definition set_default (props : gmap string string)
    (monitoring_time : option Z) (jenkins_build_url : option string) : M unit :=
  let* rollback_to := getitem props "ROLLBACK_TO" in
  let* version_name := getitem props "VERSION_NAME" in
  let* msg := fmt "Changing default from %s to %s" [rollback_to; version_name] in
  logging INFO msg;;
  (* I do the deploy steps one at a time so I can intersperse some
     hipchat mesasges. *)
  let unexpected (did_priming : bool) (why : exn) : M unit :=
    logging ERROR "set-default failed";;
    let* auto_deploy := getitem props "AUTO_DEPLOY" in
    if decide (auto_deploy = "true") then
      _alert props "(sadpanda) (sadpanda) set-default failed!" ERROR None
        false true;;
      raise why
    else
      let priming_flag := if did_priming then "--no-priming " else "" in
      let* version_name := getitem props "VERSION_NAME" in
      let* v2 := getitem props "VERSION_NAME" in
      let* url1 := _finish_url props [("STATUS", "success")] in
      let* rollback_to := getitem props "ROLLBACK_TO" in
      let* url2 := _finish_url props
                     [("STATUS", "rollback"); ("WHY", "aborted");
                      ("ROLLBACK_TO", rollback_to)] in
      let* text :=
        fmt ("(sadpanda) (sadpanda) set-default failed!  Either:" +:+ NL
             +:+ "(continue) Set the default to %s manually (by running "
             +:+ "deploy/set_default.py %s%s), then release the deploy lock "
             +:+ "via %s" +:+ NL
             +:+ "(failed) abort and roll back %s")
            [version_name; priming_flag; v2; url1; url2] in
      _alert props text CRITICAL None false true in
  let monitoring_failed (why : exn) : M unit :=
    (* Wait a little to make sure this hipchat message comes after the
       message we emitted above. *)
    time_sleep 10;;
    let* auto_deploy := getitem props "AUTO_DEPLOY" in
    if decide (auto_deploy = "true") then
      let* text := fmt "(sadpanda) %s." [exn_str why] in
      _alert props text WARNING None false true;;
      (* By re-raising, we trigger the deploy-set-default jenkins job to
         clean up by rolling back.  auto-rollback for free! *)
      raise why
    else
      let* url1 := _finish_url props [("STATUS", "success")] in
      let* rollback_to := getitem props "ROLLBACK_TO" in
      let* url2 := _finish_url props
                     [("STATUS", "rollback"); ("WHY", "aborted");
                      ("ROLLBACK_TO", rollback_to)] in
      let* text :=
        fmt ("(sadpanda) %s. "
             +:+ "Make sure everything is ok, then:" +:+ NL
             +:+ "(successful) finish up: type 'sun, finish up' "
             +:+ "or visit %s" +:+ NL
             +:+ "(failed) abort and roll back: type 'sun, abort' "
             +:+ "or visit %s")
            [exn_str why; url1; url2] in
      _alert props text WARNING None false true in
  let handler (did_priming : bool) (why : exn) : M unit :=
    match why with
    | MonitoringError _ => monitoring_failed why
    | _ => unexpected did_priming why
    end in
  let passed (_ : unit) : M unit :=
    (* No need for a hipchat message if the next step is automatic. *)
    let* auto_deploy := getitem props "AUTO_DEPLOY" in
    if decide (auto_deploy ≠ "true") then
      let* version_name := getitem props "VERSION_NAME" in
      let* url1 := _finish_url props [("STATUS", "success")] in
      let* rollback_to := getitem props "ROLLBACK_TO" in
      let* url2 := _finish_url props
                     [("STATUS", "rollback"); ("WHY", "aborted");
                      ("ROLLBACK_TO", rollback_to)] in
      let* text :=
        fmt ("Monitoring passed for the new default (%s)! "
             +:+ "But you should double-check everything "
             +:+ "is ok at https://www.khanacademy.org. "
             +:+ "Then:" +:+ NL
             +:+ "(successful) finish up: type 'sun, finish up' "
             +:+ "or visit %s" +:+ NL
             +:+ "(failed) abort and roll back: type 'sun, abort' "
             +:+ "or visit %s")
            [version_name; url1; url2] in
      _alert props text INFO (Some "green") false true
    else ret () in
  (* The try: block in two parts: did_priming is False up to and
     including the call to prime, and True after it. *)
  try_except_else
    (let* pre := call (GetPredeployMonitoringData monitoring_time) in
     logging INFO "Priming 100 instances";;
     let* version_name := getitem props "VERSION_NAME" in
     call (Prime version_name 100);;
     ret pre.2)
    (handler false)
    (λ pre_monitoring_data,
       try_except_else
         (logging INFO "Setting default";;
          let* pw_file := getitem props "DEPLOY_PW_FILE" in
          _password_on_stdin pw_file
            (λ stdin,
               let* version_name := getitem props "VERSION_NAME" in
               let* email := getitem props "DEPLOY_EMAIL" in
               call (SetDefault version_name email stdin);;
               ret ());;
          (if truthy_time monitoring_time && truthy_opt jenkins_build_url then
             let* auto_deploy := getitem props "AUTO_DEPLOY" in
             if decide (auto_deploy ≠ "true") then
               let* version_name := getitem props "VERSION_NAME" in
               let* text :=
                 fmt ("I've deployed to %s, and will be monitoring "
                      +:+ "logs for %s minutes.  After that, I'll post "
                      +:+ "next steps to HipChat.  If you detect a problem in "
                      +:+ "the meantime you can cancel the deploy (note: this "
                      +:+ "link will only work for the next %s minutes):" +:+ NL
                      +:+ "(failed) abort and rollback: %s/stop")
                     [version_name; str_time monitoring_time;
                      str_time monitoring_time;
                      rstrip_slash (default "" jenkins_build_url)] in
               _alert props text INFO None false true;;
               (* to help the two hipchat alerts be ordered properly *)
               time_sleep 1;;
               let* text :=
                 fmt ("While that's going on, manual-test on the live site!<br>"
                      +:+ "%s<br>" +:+ NL
                      +:+ "Or open them all at once (cut-and-paste): "
                      +:+ "<b>tools/manual_webapp_testing.py %s</b><br>"
                      +:+ "Also run end-to-end testing (cut-and-paste): "
                      +:+ "<b>tools/end_to_end_webapp_testing.py --version %s</b>")
                     [list_with_links "default"; "default"; "default"] in
               _alert props text INFO None true false
             else ret ()
           else ret ());;
          let* version_name := getitem props "VERSION_NAME" in
          let* room := getitem props "HIPCHAT_ROOM" in
          call (Monitor version_name monitoring_time pre_monitoring_data room);;
          ret ())
         (handler true)
         passed).

(** Manually release the deploy lock.  Caller is the 'manual' person. *)
Definition finish_with_unlock (caller : string) : M unit :=
  let* props := get_props in
  let* name := getitem props "DEPLOYER_HIPCHAT_NAME" in
  (if decide (caller = name) then
     (* You are releasing your own lock *)
     _alert props "has manually released the deploy lock." INFO None false true
   else
     let* text := fmt ": %s has manually released the deploy lock." [caller] in
     _alert props text INFO None false true);;
  release_deploy_lock true.

(** Release the deploy lock because the deploy succeeded. *)
Definition finish_with_success : M unit :=
  let* props := get_props in
  (* We don't want to tag the release if the user ran with DEPLOY=no.
     We tell by checking if the current gae version is VERSION_NAME. *)
  let* current := _current_gae_version in
  let* version_name := getitem props "VERSION_NAME" in
  when (bool_decide (current = version_name)) (_tag_release props);;
  try_except (merge_to_master props)
    (λ why,
       let* version_name := getitem props "VERSION_NAME" in
       let* git_revision := getitem props "GIT_REVISION" in
       let* git_revision' := getitem props "GIT_REVISION" in
       let* url := _finish_url props [("STATUS", "unlock")] in
       let* text :=
         fmt ("(sadpanda) Deploy of %s (branch %s) succeeded, "
              +:+ "but we did not successfully merge %s into master. "
              +:+ "Merge and push manually, then release the lock: %s")
             [version_name; git_revision; git_revision'; url] in
       _alert props text ERROR None false true;;
       raise why);;
  let* version_name := getitem props "VERSION_NAME" in
  let* git_revision := getitem props "GIT_REVISION" in
  let* text :=
    fmt ("(gangnamstyle) Deploy of %s (branch %s) succeeded! "
         +:+ "Time for a happy dance!") [version_name; git_revision] in
  _alert props text INFO (Some "green") false true;;
  release_deploy_lock false.

(** Release the deploy lock after a failed deploy, or raise if we can't. *)
Definition finish_with_failure : M unit :=
  let* props := get_props in
  let* last_error := getitem props "LAST_ERROR" in
  let* why :=
    (if truthy last_error then
       let* last_error := getitem props "LAST_ERROR" in
       fmt ": %s" [last_error]
     else ret ". I'm sorry.") in
  let* version_name := getitem props "VERSION_NAME" in
  let* git_revision := getitem props "GIT_REVISION" in
  let* text := fmt "(pokerface) Deploy of %s (branch %s) failed%s"
                   [version_name; git_revision; why] in
  _alert props text ERROR None false true;;
  release_deploy_lock true.

(** Does a rollback and releases the lock if it succeeds. *)
Definition finish_with_rollback : M unit :=
  let* props := get_props in
  let* last_error := getitem props "LAST_ERROR" in
  (if truthy last_error then
     let* version_name := getitem props "VERSION_NAME" in
     let* last_error := getitem props "LAST_ERROR" in
     let* text := fmt "Rolling back %s due to problems with the deploy: %s"
                      [version_name; last_error] in
     _alert props text ERROR None false true
   else ret ());;
  let* rolled_back := _rollback_deploy props in
  (if negb rolled_back then
     let* url := _finish_url props [("STATUS", "unlock")] in
     let* text := fmt ("Once you have manually rolled back, release the deploy "
                       +:+ "lock: %s") [url] in
     _alert props text ERROR None false true;;
     raise (RuntimeError "Failed to roll back to the previous deploy.")
   else ret ());;
  finish_with_failure.

(** Re-acquires the lockdir from a backup lockdir directory. *)
Definition relock : M unit :=
  let* props := get_props in
  let* old_lockdir := getitem props "LOCKDIR" in
  let new_lockdir := drop_last (String.length ".last") old_lockdir in
  (if negb (endswith old_lockdir ".last") then
     let* lockdir := getitem props "LOCKDIR" in
     let* msg := fmt ("Unexpected value for --lockdir: " +:+ DQ +:+ "%s" +:+ DQ
                      +:+ " does not end with " +:+ DQ +:+ ".last" +:+ DQ)
                     [lockdir] in
     logging ERROR msg;;
     let* lockdir := getitem props "LOCKDIR" in
     let* msg := fmt ("lockdir " +:+ DQ +:+ "%s" +:+ DQ +:+ " does not end with "
                      +:+ DQ +:+ ".last" +:+ DQ) [lockdir] in
     raise (ValueError msg)
   else ret ());;
  let* taken := os_path_exists_dir new_lockdir in
  (if taken : bool then
     let* msg := fmt ("Cannot relock %s -- someone else has already "
                      +:+ "acquired the lock since you released it.")
                     [new_lockdir] in
     logging ERROR msg;;
     let* msg := fmt "%s already exists" [new_lockdir] in
     raise (OSError None msg)
   else ret ());;
  _move_lockdir old_lockdir new_lockdir.

(** *** The dispatcher *)

(** The first part of [main]: [props] is created (acquire-lock) or read
    from the lock directory.  The result is [false] where [main] returns
    False because there is no lock to read. *)
Definition main_load (action lockdir : string)
    (acquire_lock_args : option create_args) (caller_email : option string)
  : M bool :=
  if decide (action = "acquire-lock") then
    match acquire_lock_args with
    | Some a =>
        let* props := _create_properties a in
        put_props props;;
        ret true
    | None =>
        raise (TypeError "_create_properties() takes exactly 11 arguments")
    end
  else
    try_except
      (let* props := _read_properties lockdir in
       put_props props;;
       ret true)
      (λ why,
         match why with
         | IOError _ _ =>
             (if decide (action = "relock") then
                let* msg := fmt ("There is no backup lock at %s to "
                                 +:+ "recover from, sorry.") [lockdir] in
                logging ERROR msg
              else
                (* We can't load the real props, so do the best we can. *)
                let* name := _email_to_hipchat_name caller_email in
                let fake_props : gmap string string :=
                  <["TOKEN" := ""]>
                  (<["JENKINS_URL" := "http://jenkins.khanacademy.org/"]>
                  (<["HIPCHAT_SENDER" := "Mr Gorilla"]>
                  (<["HIPCHAT_ROOM" := "1s/0s: deploys"]>
                  (<["DEPLOYER_HIPCHAT_NAME" := name]> ∅)))) in
                let* url := _finish_url fake_props [("STATUS", "relock")] in
                let* text :=
                  fmt ("(sadpanda) Trying to run without the lock. "
                       +:+ "If you think you *should* have the lock, "
                       +:+ "try to re-acquire it: %s. Then run your command again.")
                      [url] in
                _alert fake_props text ERROR None false true);;
             ret false
         | _ => raise why
         end).

(** The [if action == ...: elif ...] chain inside the [try:] of [main]. *)
Definition main_stage (action : string) (monitoring_time : option Z)
    (jenkins_build_url caller_email : option string) : M unit :=
  if decide (action = "acquire-lock") then
    acquire_deploy_lock jenkins_build_url 3600 600;;
    let* props := get_props in
    _write_properties props;;
    _update_properties {[ "POSSIBLE_NEXT_STEPS" := "merge-from-master" ]}
  else if decide (action = "merge-from-master") then
    let* props := get_props in
    merge_from_master props;;
    (* Now we need to update the props file to indicate the new GIT_SHA1
       after merging.  (This also updates VERSION_NAME.) *)
    let* git_revision := getitem props "GIT_REVISION" in
    let* sha1 := _pipe_command ["git"; "rev-parse"; git_revision] in
    (* We can go straight to set-default if the user ran with AUTO_DEPLOY,
       and straight to finish if they ran with DEPLOY=no. *)
    let* auto_deploy := getitem props "AUTO_DEPLOY" in
    let next_steps :=
      if decide (auto_deploy = "true") then "set-default" else "manual-test" in
    (* We don't know if the user ran with DEPLOY=no, so always allow it. *)
    let next_steps := next_steps +:+ ",finish-with-success" in
    _update_properties
      (<["POSSIBLE_NEXT_STEPS" := next_steps]> {[ "GIT_SHA1" := sha1 ]})
  else if decide (action = "manual-test") then
    let* props := get_props in
    manual_test props;;
    _update_properties {[ "POSSIBLE_NEXT_STEPS" := "set-default" ]}
  else if decide (action = "set-default") then
    let* props := get_props in
    set_default props monitoring_time jenkins_build_url;;
    (* If set_default didn't raise an exception, all is happy. *)
    let* auto_deploy := getitem props "AUTO_DEPLOY" in
    if decide (auto_deploy = "true") then finish_with_success
    else _update_properties {[ "POSSIBLE_NEXT_STEPS" := "finish-with-success" ]}
  else if decide (action = "finish-with-unlock") then
    let* caller := _email_to_hipchat_name caller_email in
    finish_with_unlock caller
  else if decide (action = "finish-with-success") then finish_with_success
  else if decide (action = "finish-with-failure") then finish_with_failure
  else if decide (action = "finish-with-rollback") then finish_with_rollback
  else if decide (action = "relock") then
    relock;;
    (* You relock when something went wrong, so any step could
       legitimately go next. *)
    _update_properties {[ "POSSIBLE_NEXT_STEPS" := "<all>" ]}
  else
    let* msg := fmt "Unknown action '%s'" [action] in
    raise (RuntimeError msg).

(** The alert of a caller whose token is not the token of the lock. *)
Definition not_owner_text (lock_token token : string) : string :=
  "You do not own the deploy lock (its token is " +:+ lock_token
  +:+ ", yours is " +:+ token +:+ "); aborting".

(** [token != props['TOKEN']], evaluated when both are there. *)
Definition token_differs (token : option string)
    (props : gmap string string) : bool :=
  negb (bool_decide (token = props !! "TOKEN")).

Definition main (action lockdir : string)
    (acquire_lock_args : option create_args) (token : option string)
    (monitoring_time : option Z)
    (jenkins_build_url caller_email : option string) : M bool :=
  let* loaded := main_load action lockdir acquire_lock_args caller_email in
  if negb loaded then ret false
  else
    let* props := get_props in
    (* If the passed-in token doesn't match the token in props, then we
       are not the owners of this lock, so fail.  This is an optional
       check. *)
    if truthy_opt token && truthy_opt (props !! "TOKEN")
       && token_differs token props then
      let* lock_token := getitem props "TOKEN" in
      let* text :=
        fmt ("You do not own the deploy lock (its token is %s, "
             +:+ "yours is %s); aborting")
            [lock_token; default "" token] in
      (* The username in props probably isn't right -- if we don't match
         prop's token, why would we match its username? -- so don't
         prepend it. *)
      _alert props text ERROR None false false;;
      (* We definitely don't want jenkins to release the lock, since we
         don't own it.  So we have to return True. *)
      ret true
    else
      (* If the step we're taking doesn't match a legal next-step in the
         pipeline, fail. *)
      let* pns := getitem props "POSSIBLE_NEXT_STEPS" in
      if negb (mem action (split "," pns)) && negb (mem "<all>" (split "," pns))
      then
        let* text :=
          fmt ("Expecting you to run %s, but you are running %s. "
               +:+ "Perhaps you double-clicked on a link?  Ignoring.")
              [join " or " (split "," pns); action] in
        _alert props text ERROR None false true;;
        (* We just ignore this action, so we don't release the lock. *)
        ret true
      else
        try_except
          (main_stage action monitoring_time jenkins_build_url caller_email;;
           let* props := get_props in
           let* lockdir := getitem props "LOCKDIR" in
           let* on_disk := os_path_exists_file lockdir "deploy.prop" in
           when on_disk (_update_properties {[ "LAST_ERROR" := "" ]});;
           ret true)
          (λ why,
             logging ERROR action;;
             (* Don't write the properties file if we failed in trying to
                acquire the lock! -- writing the properties file would
                then acquire the lock for us by accident. *)
             when (negb (bool_decide (action = "acquire-lock")))
                  (_update_properties {[ "LAST_ERROR" := exn_str why ]});;
             ret false).

End Pipeline.

(** * The vocabulary of the properties *)

Section Vocabulary.
Context `{C : Collaborators}.

(** The text of a file that has one line per item of [l]. *)
Definition text_of (l : list (string * string)) : string :=
  foldr (λ kv rest, prop_line kv +:+ rest) "" l.

(** The world after an alert went to the logs and to the chat room. *)
Definition alerted (room sender text : string) (severity : level)
    (color : option string) (html : bool) (w : World) : World :=
  log_event (EvHipchat room sender text color html)
    (log_event (EvLog severity text) w).

(** The world with more events in its trace. *)
Definition add_events (evs : list event) (w : World) : World :=
  mkWorld (fs w) (now w) (props w) (ext w) (trace w ++ evs).

(** [quiet P m]: running [m] changes neither the file system nor the
    clock, and every event it adds to the trace satisfies [P]. *)
Definition quiet {A} (P : event → Prop) (m : M A) : Prop :=
  ∀ w, fs (m w).1 = fs w ∧ now (m w).1 = now w
       ∧ ∃ evs, trace (m w).1 = trace w ++ evs ∧ Forall P evs.

(** Running [m] leaves the props dict as it is. *)
Definition keeps_props {A} (m : M A) : Prop := ∀ w, props (m w).1 = props w.

(** Runs that end with an exception. *)
Definition never_returns {A} (m : M A) : Prop := ∀ w, is_ok (m w).2 = false.

(** Events that are neither a file-system call nor a sleep. *)
Definition no_fs_call (ev : event) : Prop :=
  match ev with
  | EvFs _ | EvSleep _ => False
  | _ => True
  end.

(** Log lines and fetches of a URL. *)
Definition lookup_only (ev : event) : Prop :=
  match ev with
  | EvLog _ _ | EvExt (UrlOpen _) => True
  | _ => False
  end.

(** What a waiting caller does: INFO log lines and chat messages, tries
    to create the directory, sleeps. *)
Definition waiting_event (ev : event) : Prop :=
  match ev with
  | EvLog INFO _ | EvHipchat _ _ _ _ _ | EvFs (Mkdir _) | EvSleep _ => True
  | _ => False
  end.

(** The props of a caller have what the alerts of the wait need. *)
Definition caller_ok (d : gmap string string) : Prop :=
  is_Some (d !! "JENKINS_URL") ∧ is_Some (d !! "GIT_REVISION")
  ∧ is_Some (d !! "DEPLOYER_HIPCHAT_NAME") ∧ is_Some (d !! "HIPCHAT_ROOM")
  ∧ is_Some (d !! "HIPCHAT_SENDER").

(** Nobody removes the lock directory while the caller sleeps. *)
Definition lock_stays (lockdir : string) : Prop :=
  ∀ t f, lockdir ∈ dirs f → lockdir ∈ dirs (other_procs t f).

(** The last derivation rule of [_update_properties]. *)
Definition with_escape_hatches (new_values : gmap string string)
  : gmap string string :=
  match new_values !! "POSSIBLE_NEXT_STEPS" with
  | Some steps =>
      <["POSSIBLE_NEXT_STEPS" :=
          join "," (sorted_strings (elements (steps_of steps ∪ escape_hatches)))]>
        new_values
  | None => new_values
  end.

(** The world after [_write_properties] wrote [d] into [lockdir]. *)
Definition written (lockdir : string) (d : gmap string string) (w : World)
  : World :=
  let w1 :=
    log_event (EvFs (WriteFile lockdir "deploy.prop" (serialize_props d)))
      (log_event
         (EvLog INFO ("Wrote properties to " +:+ lockdir +:+ ": "
                      +:+ repr_dict d)) w) in
  set_fs (mkFS (dirs (fs w))
               (<[(lockdir, "deploy.prop") := serialize_props d]>
                  (files (fs w)))) w1.

(** The world after [_read_properties] read [d] from [lockdir]. *)
Definition was_read (lockdir : string) (d : gmap string string) (w : World)
  : World :=
  log_event
    (EvLog INFO ("Read properties from " +:+ lockdir +:+ ": " +:+ repr_dict d))
    w.

(** The texts of [_rollback_deploy]: the log line when there is nothing to
    roll back, the alert before the rollback, the alert after a failure. *)
Definition skipping_text (version live rollback_to : string) : string :=
  "Skipping rollback: looks like our deploy never succeeded. (Us: "
  +:+ version +:+ ", current: " +:+ live +:+ ", rollback-to: "
  +:+ rollback_to +:+ ")".

Definition rolling_back_text (rollback_to version : string) : string :=
  "Automatically rolling the default back to " +:+ rollback_to
  +:+ " and tagging " +:+ version +:+ " as bad (in git)".

Definition rollback_failed_text (rollback_to : string) : string :=
  "(sadpanda) (sadpanda) Auto-rollback failed! Roll back to " +:+ rollback_to
  +:+ " manually by running: deploy/set_default.py " +:+ rollback_to.

(** The URL that [_finish_url] builds. *)
Definition finish_url_text (jenkins_url token : string)
    (extra_params : list (string * string)) : string :=
  rstrip_slash jenkins_url +:+ "/job/deploy-finish/parambuild?TOKEN="
  +:+ token +:+ "&" +:+ urlencode extra_params.



End Vocabulary.

Section MoreVocabulary.
Context `{C : Collaborators}.

(** Runs that end normally, whatever the world. *)
Definition always_returns {A} (m : M A) : Prop := ∀ w, is_ok (m w).2 = true.

(** How many of some events satisfy [p]. *)
Definition count_events (p : event → bool) (evs : list event) : nat :=
  length (List.filter p evs).

Definition is_fetch (url : string) (ev : event) : bool :=
  match ev with
  | EvExt (UrlOpen u) => bool_decide (u = url)
  | _ => false
  end.

Definition is_warning (ev : event) : bool :=
  match ev with
  | EvLog WARNING _ => true
  | _ => false
  end.

(** The warning of [_safe_urlopen] before it tries again. *)
Definition retry_text (url : string) : string :=
  "url-fetch of " +:+ repr_list [url] +:+ " " +:+ repr_dict ∅
  +:+ " failed, retrying...".

End MoreVocabulary.

Section LockVocabulary.
Context `{C : Collaborators}.

(** The file system after [os.rename(old, new)] moved a directory, and
    after [shutil.rmtree(path)] removed one. *)
Definition renamed (old new : string) (f : FS) : FS :=
  mkFS ({[new]} ∪ dirs f ∖ {[old]})
       (list_to_map
          ((λ kv : string * string * string,
              ((if decide (kv.1.1 = old) then new else kv.1.1, kv.1.2), kv.2))
             <$> map_to_list (files f))).

Definition removed (path : string) (f : FS) : FS :=
  mkFS (dirs f ∖ {[path]}) (filter (λ kv, kv.1.1 ≠ path) (files f)).

(** The record after [_update_properties] was given a new LOCKDIR at
    time [t]. *)
Definition moved_record (lockdir : string) (t : Z) (d : gmap string string)
  : gmap string string :=
  <["LOCK_ACQUIRE_TIME" := pretty t]> (<["LOCKDIR" := lockdir]> d).

(** The world after [_move_lockdir] moved the lock from [old] to [new]. *)
Definition lock_moved (old new : string) (w : World) : World :=
  written new (moved_record new (now w) (props w))
    (set_props (moved_record new (now w) (props w))
       (set_fs (renamed old new (fs w))
          (log_event (EvFs (Rename old new))
             (log_event (EvLog INFO ("Renaming " +:+ old +:+ " -> " +:+ new))
                w)))).

(** The backup of a lock directory. *)
Definition backup_of (lockdir : string) : string := lockdir +:+ ".last".

(** The error of a file-system call on a directory that is not there. *)
Definition no_such_dir : exn :=
  OSError (Some ENOENT) "No such file or directory".

(** The texts of [release_deploy_lock] and [relock]. *)
Definition not_released_text (lockdir : string) (why : exn) : string :=
  "Could not release the deploy-lock (" +:+ lockdir
  +:+ "); it's not being held? (" +:+ exn_str why +:+ ")".

Definition not_released_error (why : exn) : exn :=
  RuntimeError ("Could not release the deploy-lock (" +:+ exn_str why +:+ ")").

Definition bad_lockdir_text (lockdir : string) : string :=
  "lockdir " +:+ DQ +:+ lockdir +:+ DQ +:+ " does not end with "
  +:+ DQ +:+ ".last" +:+ DQ.

Definition cannot_relock_text (lockdir : string) : string :=
  "Cannot relock " +:+ lockdir +:+ " -- someone else has already "
  +:+ "acquired the lock since you released it.".

End LockVocabulary.

Section FinishVocabulary.
Context `{C : Collaborators}.

(** The texts of the finish stages. *)
Definition rolling_back_due_text (version last_error : string) : string :=
  "Rolling back " +:+ version +:+ " due to problems with the deploy: "
  +:+ last_error.

Definition manual_rollback_text (jenkins_url token : string) : string :=
  "Once you have manually rolled back, release the deploy lock: "
  +:+ finish_url_text jenkins_url token [("STATUS", "unlock")].

Definition merge_failed_text (version git_revision jenkins_url token : string)
  : string :=
  "(sadpanda) Deploy of " +:+ version +:+ " (branch " +:+ git_revision
  +:+ ") succeeded, but we did not successfully merge " +:+ git_revision
  +:+ " into master. Merge and push manually, then release the lock: "
  +:+ finish_url_text jenkins_url token [("STATUS", "unlock")].

Definition deploy_failed_text (version git_revision last_error : string)
  : string :=
  "(pokerface) Deploy of " +:+ version +:+ " (branch " +:+ git_revision
  +:+ ") failed"
  +:+ (if truthy last_error then ": " +:+ last_error else ". I'm sorry.").

(** The world after [finish_with_rollback] said why it rolls back: it
    says nothing when there is no last error. *)
Definition rollback_announced (room sender name version last_error : string)
    (w : World) : World :=
  if truthy last_error then
    alerted room sender
      (name +:+ " " +:+ rolling_back_due_text version last_error)
      ERROR None false w
  else w.

End FinishVocabulary.

Section DispatchVocabulary.
Context `{C : Collaborators}.

(** The token check of [main] lets the caller through. *)
Definition token_passes (token : option string) (d : gmap string string)
  : Prop :=
  truthy_opt token && truthy_opt (d !! "TOKEN") && token_differs token d
  = false.

(** [action] is a legal next step of a record whose POSSIBLE_NEXT_STEPS
    is [steps]. *)
Definition step_legal (action steps : string) : bool :=
  mem action (split "," steps) || mem "<all>" (split "," steps).

(** The texts of the alerts of [main]. *)
Definition expecting_text (steps action : string) : string :=
  "Expecting you to run " +:+ join " or " (split "," steps)
  +:+ ", but you are running " +:+ action
  +:+ ". Perhaps you double-clicked on a link?  Ignoring.".

Definition no_lock_text : string :=
  "(sadpanda) Trying to run without the lock. "
  +:+ "If you think you *should* have the lock, try to re-acquire it: "
  +:+ finish_url_text "http://jenkins.khanacademy.org/" ""
        [("STATUS", "relock")]
  +:+ ". Then run your command again.".

Definition no_backup_text (lockdir : string) : string :=
  "There is no backup lock at " +:+ lockdir +:+ " to recover from, sorry.".

(** What [_update_properties] stores as POSSIBLE_NEXT_STEPS when it is
    given [steps]. *)
Definition stored_steps (steps : string) : string :=
  join "," (sorted_strings (elements (steps_of steps ∪ escape_hatches))).

(** The alert of a caller that got the lock; [rest] is the hint on how to
    cancel, when there is one. *)
Definition starting_text (git_revision rest : string) : string :=
  "Starting deploy of branch " +:+ git_revision
  +:+ ".  I'll post to HipChat when both a) tests are done and b) the deploy is finished."
  +:+ rest.

(** The error of [(k, v) = l.strip().split('=', 1)] on a line without
    [=]. *)
Definition unpack_error : exn :=
  ValueError "need more than 1 value to unpack".

(** The steps that a stage of [main] passes to [_update_properties] when
    it has succeeded and the lock stays held; [None] for the stages that
    release the lock. *)
Definition next_steps_after (action : string) (auto_deploy : option string)
  : option string :=
  if decide (action = "acquire-lock") then Some "merge-from-master"
  else if decide (action = "merge-from-master") then
    Some ((if decide (auto_deploy = Some "true") then "set-default"
           else "manual-test") +:+ ",finish-with-success")
  else if decide (action = "manual-test") then Some "set-default"
  else if decide (action = "set-default") then
    if decide (auto_deploy = Some "true") then None
    else Some "finish-with-success"
  else if decide (action = "relock") then Some "<all>"
  else None.

End DispatchVocabulary.

(** ** Concrete collaborators and worlds

    Used to run the program on explicit inputs. *)

Module Demo.

(** Collaborators that keep no state and answer from a script. *)
Definition scripted (script : ext_call → result (Z * string)) : Collaborators :=
  {| E := unit;
     ext_step := λ c e, (e, script c);
     json_users := λ _, Ok [];
     json_version_id := λ r, Ok r;
     urlencode := λ l, join "&" ((λ kv, kv.1 +:+ "=" +:+ kv.2) <$> l);
     list_with_links := λ v, v;
     abspath := λ path, path;
     hipchat_deploy_token := "hipchat-token";
     exn_str := λ e,
       match e with
       | ValueError msg | TypeError msg | RuntimeError msg
       | MonitoringError msg => msg
       | _ => class_name e
       end;
     repr_list := λ l, "[" +:+ join ", " l +:+ "]";
     repr_dict := λ d, "{" +:+ join ", " (sorted_strings (elements (dom d))) +:+ "}";
     fmt_minutes := λ z, pretty (z `div` 60)%Z;
     mkdir_fault := λ _ _, None;
     other_procs := λ _ f, f |}.

(** Nothing outside answers: every call fails. *)
Definition offline : Collaborators :=
  scripted (λ _, Raise (IOError None "offline")).

(** The platform says that version [live] is live; git knows no tag and
    no branch. *)
Definition platform (live : string) : Collaborators :=
  scripted (λ c,
    match c with
    | UrlOpen _ => Ok (0%Z, live)
    | Subprocess ("git" :: "ls-remote" :: _) => Ok (2%Z, "")
    | _ => Ok (0%Z, "")
    end).

(** The record of a deploy that holds the lock in [lockdir]. *)
Definition record (lockdir token steps acquired : string) : gmap string string :=
  list_to_map
    [("LOCKDIR", lockdir); ("DEPLOYER_EMAIL", "kim@example.org");
     ("GIT_REVISION", "feature-x"); ("AUTO_DEPLOY", "false");
     ("ROLLBACK_TO", "v1"); ("JENKINS_URL", "http://jenkins/");
     ("HIPCHAT_ROOM", "deploys"); ("HIPCHAT_SENDER", "bot");
     ("DEPLOY_EMAIL", "prod@example.org"); ("DEPLOY_PW_FILE", "/pw");
     ("TOKEN", token); ("GIT_SHA1", "feature-x"); ("VERSION_NAME", "v2");
     ("DEPLOYER_USERNAME", "kim"); ("DEPLOYER_HIPCHAT_NAME", "@kim");
     ("LAST_ERROR", ""); ("POSSIBLE_NEXT_STEPS", steps);
     ("LOCK_ACQUIRE_TIME", acquired)].

(** A file system in which [lockdir] holds [content] as deploy.prop, and
    one in which it holds the given record. *)
Definition locked_with (lockdir content : string) : FS :=
  mkFS {[ lockdir ]} {[ (lockdir, "deploy.prop") := content ]}.
Definition locked (lockdir : string) (r : gmap string string) : FS :=
  locked_with lockdir (serialize_props r).

(** A lock directory without deploy.prop. *)
Definition locked_empty (lockdir : string) : FS := mkFS {[ lockdir ]} ∅.

Definition world `{C : Collaborators} (e : E) (f : FS) (t : Z)
    (d : gmap string string) : World :=
  mkWorld f t d e [].

Definition args (lockdir token : string) : create_args :=
  mkArgs lockdir "kim@example.org" "feature-x" false "v1" "http://jenkins/"
    "deploys" "bot" "prod@example.org" "/pw" token.

(** A lock held with token owner-1, at the step before the manual gate. *)
Definition held_by_owner : gmap string string :=
  record "/lock" "owner-1"
    "manual-test,finish-with-failure,finish-with-rollback,finish-with-unlock,relock"
    "100".

(** The same lock, taken without a token. *)
Definition held_without_token : gmap string string :=
  record "/lock" ""
    "manual-test,finish-with-failure,finish-with-rollback,finish-with-unlock,relock"
    "100".

Definition world_of (r : gmap string string) : World (C := offline) :=
  world (C := offline) () (locked "/lock" r) 1000 ∅.

(** A dispatch of manual-test with the token abc on the lock that was
    taken without a token: the load, and the whole run. *)
Definition tokenless_load : World (C := offline) * result bool :=
  main_load (C := offline) "manual-test" "/lock" None None
    (world_of held_without_token).

Definition tokenless_run : World (C := offline) * result bool :=
  main (C := offline) "manual-test" "/lock" None (Some "abc") None None None
    (world_of held_without_token).

(** A fresh record, as acquire-lock creates it. *)
Definition fresh_run
  : World (C := platform "v1") * result (gmap string string) :=
  _create_properties (C := platform "v1") (args "/lock" "tok")
    (world (C := platform "v1") () (mkFS ∅ ∅) 1000 ∅).

Definition fresh_record : gmap string string := returned ∅ fresh_run.2.

(** The record right after acquire-lock wrote it for the first time. *)
Definition just_acquired : gmap string string :=
  record "/lock" "tok" "acquire-lock,finish-with-unlock,relock" "1000".

Definition just_acquired_world : World (C := offline) :=
  world (C := offline) () (locked "/lock" just_acquired) 1000 just_acquired.

Definition next_step_run : World (C := offline) * result () :=
  _update_properties (C := offline)
    {[ "POSSIBLE_NEXT_STEPS" := "merge-from-master" ]} just_acquired_world.

Definition last_error_run : World (C := offline) * result () :=
  _update_properties (C := offline) {[ "LAST_ERROR" := "" ]}
    just_acquired_world.

(** A record whose last error is a message of two lines, as a Python
    exception can have, and one whose last error ends with a blank. *)
Definition two_line_error : gmap string string :=
  <["LAST_ERROR" := "merge failed:" +:+ NL +:+ "conflict in main.py"]>
    held_by_owner.

Definition trailing_blank : gmap string string :=
  <["LAST_ERROR" := "merge failed: "]> held_by_owner.

Definition two_line_reread
  : World (C := offline) * result (gmap string string) :=
  (_write_properties two_line_error;; _read_properties "/lock")
    (world_of two_line_error).

(** The platform says v2 is live and git refuses to push. *)
Definition push_fails : Collaborators :=
  scripted (λ c,
    match c with
    | UrlOpen _ => Ok (0%Z, "v2")
    | Subprocess ("git" :: "push" :: _) => Ok (1%Z, "")
    | _ => Ok (0%Z, "")
    end).

Definition other_live_world : World (C := platform "v9") :=
  world (C := platform "v9") () (locked "/lock" held_by_owner) 1000
    held_by_owner.

Definition push_fails_world : World (C := push_fails) :=
  world (C := push_fails) () (locked "/lock" held_by_owner) 1000
    held_by_owner.

(** The world in which the steps of the rollback start, and their run. *)
Definition push_fails_start : World (C := push_fails) :=
  alerted "deploys" "bot" ("@kim" +:+ " " +:+ rolling_back_text "v1" "v2")
    INFO None false (_current_gae_version push_fails_world).1.

Definition push_fails_steps : World (C := push_fails) * result () :=
  rollback_steps (C := push_fails) held_by_owner push_fails_start.

Definition offline_rollback : World (C := offline) * result bool :=
  _rollback_deploy (C := offline) held_by_owner (world_of held_by_owner).

(** The props of a second deploy that wants the lock in /lock. *)
Definition newcomer : gmap string string :=
  record "/lock" "newcomer-7" "acquire-lock,finish-with-unlock,relock" "".

(** The lock has been held since time 100 and it is now 10000. *)
Definition late_world : World (C := offline) :=
  world (C := offline) () (locked "/lock" held_by_owner) 10000 newcomer.

(** The lock directory is there but deploy.prop is not: the holder is
    between [os.mkdir] and its first [_write_properties]. *)
Definition unreadable_world : World (C := offline) :=
  world (C := offline) () (locked_empty "/lock") 1000 newcomer.

(** The deploy is of commit abc123, which is not a branch and does not
    contain master (def456). *)
Definition detached : Collaborators :=
  scripted (λ c,
    match c with
    | Subprocess ("git" :: "ls-remote" :: _) => Ok (2%Z, "")
    | Subprocess ["git"; "rev-parse"; "master"] => Ok (0%Z, "def456" +:+ NL)
    | Subprocess ["git"; "rev-parse"; _] => Ok (0%Z, "abc123" +:+ NL)
    | Subprocess ("git" :: "merge-base" :: _) => Ok (0%Z, "000111" +:+ NL)
    | Subprocess ["git"; "show-ref"] =>
        Ok (0%Z, "def456 refs/heads/master" +:+ NL
                 +:+ "def456 refs/remotes/origin/master" +:+ NL
                 +:+ "777888 refs/remotes/origin/feature-x" +:+ NL)
    | _ => Ok (0%Z, "")
    end).

Definition commit_deploy : gmap string string :=
  <["GIT_REVISION" := "abc123"]>
    (record "/lock" "owner-1"
       "merge-from-master,finish-with-failure,finish-with-rollback,finish-with-unlock,relock"
       "100").

Definition detached_world : World (C := detached) :=
  world (C := detached) () (locked "/lock" commit_deploy) 1000 commit_deploy.

Definition detached_merge : World (C := detached) * result () :=
  merge_from_master (C := detached) commit_deploy detached_world.

Definition detached_main : World (C := detached) * result bool :=
  main (C := detached) "merge-from-master" "/lock" None (Some "owner-1") None
    None None detached_world.

(** The owner of the lock in the middle of a deploy: the record is in
    memory and on disk. *)
Definition held_world : World (C := offline) :=
  world (C := offline) () (locked "/lock" held_by_owner) 1000 held_by_owner.

(** The record says /lock, but no directory is there. *)
Definition released_world : World (C := offline) :=
  world (C := offline) () (mkFS ∅ ∅) 1000 held_by_owner.

(** Nobody holds the lock: an empty file system, with and without the
    props of a deploy that wants it. *)
Definition newcomer_world : World (C := offline) :=
  world (C := offline) () (mkFS ∅ ∅) 1000 newcomer.

Definition empty_world : World (C := offline) :=
  world (C := offline) () (mkFS ∅ ∅) 1000 ∅.

Definition fresh_world : World (C := platform "v1") :=
  world (C := platform "v1") () (mkFS ∅ ∅) 1000 ∅.

(** The platform answers with a version that has a minor part. *)
Definition minor_world : World (C := platform "v9.abc") :=
  world (C := platform "v9.abc") () (locked "/lock" held_by_owner) 1000
    held_by_owner.

(** Git knows every tag it is asked for. *)
Definition tagged : Collaborators :=
  scripted (λ c,
    match c with
    | Subprocess ["git"; "tag"; "-l"; tag] => Ok (0%Z, tag +:+ NL)
    | _ => Ok (0%Z, "")
    end).

Definition tagged_world : World (C := tagged) :=
  world (C := tagged) () (locked "/lock" held_by_owner) 1000 held_by_owner.

(** The lock directory holds the record with the two-line error. *)
Definition two_line_world : World (C := offline) :=
  world (C := offline) () (locked "/lock" two_line_error) 1000 ∅.

(** The runs of [finish_with_success] and [finish_with_rollback] when git
    refuses to push. *)
Definition push_fails_tagged : World (C := push_fails) :=
  (_tag_release (C := push_fails) held_by_owner
     (_current_gae_version push_fails_world).1).1.

Definition push_fails_merged : World (C := push_fails) :=
  (merge_to_master (C := push_fails) held_by_owner push_fails_tagged).1.

Definition push_fails_rolled : World (C := push_fails) :=
  (_rollback_deploy (C := push_fails) held_by_owner
     (rollback_announced "deploys" "bot" "@kim" "v2" "" push_fails_world)).1.

End Demo.

(** * Properties *)

(** ** Facts about the Python primitives *)

Module PyFacts.

(** The primitives on small inputs, as Python evaluates them. *)
Example split_steps :
  split "," "acquire-lock,relock" = ["acquire-lock"; "relock"].
Proof. reflexivity. Qed.
Example split_empty : split "," "" = [""].
Proof. reflexivity. Qed.
Example split_trailing : split "," "a," = ["a"; ""].
Proof. reflexivity. Qed.
Example split1_value_with_equals : split1 "=" "WHY=a=b" = Some ("WHY", "a=b").
Proof. reflexivity. Qed.
Example split1_no_equals : split1 "=" "conflict" = None.
Proof. reflexivity. Qed.
Example join_steps : join "," ["a"; "b"; "c"] = "a,b,c".
Proof. reflexivity. Qed.
Example strip_line : strip ("  TOKEN=abc " +:+ NL) = "TOKEN=abc".
Proof. reflexivity. Qed.
Example readlines_two : readlines ("a=1" +:+ NL +:+ "b=2") = ["a=1" +:+ NL; "b=2"].
Proof. reflexivity. Qed.
Example splitlines_two : splitlines ("x y" +:+ NL +:+ "z" +:+ NL) = ["x y"; "z"].
Proof. reflexivity. Qed.
Example int_of_padded : int_of_string " 1400000000 " = Ok 1400000000%Z.
Proof. reflexivity. Qed.
Example int_of_text :
  int_of_string "soon"
  = Raise (ValueError "invalid literal for int() with base 10").
Proof. reflexivity. Qed.
Example pyformat_two : pyformat "%s/job?TOKEN=%s" ["url"; "t"] = Ok "url/job?TOKEN=t".
Proof. reflexivity. Qed.
Example pyformat_too_few :
  pyformat "%s is not %s" ["x"]
  = Raise (TypeError "not enough arguments for format string").
Proof. reflexivity. Qed.
Example pyformat_too_many :
  pyformat "%s" ["x"; "y"]
  = Raise (TypeError "not all arguments converted during string formatting").
Proof. reflexivity. Qed.
Example drop_last_suffix : drop_last 5 "/ws/lock.last" = "/ws/lock".
Proof. reflexivity. Qed.
Example sorted_strings_bytes :
  sorted_strings ["relock"; "DEPLOY_"; "DEPLOYER"; "acquire-lock"]
  = ["DEPLOYER"; "DEPLOY_"; "acquire-lock"; "relock"].
Proof. reflexivity. Qed.

Lemma contains_app c s t :
  contains c (s +:+ t) = contains c s || contains c t.
Proof.
  induction s as [|c' s IH]; simpl; [done|].
  rewrite IH. by rewrite orb_assoc.
Qed.

Lemma split_nonempty sep s : split sep s ≠ [].
Proof.
  destruct s as [|c s]; simpl; [done|].
  case_decide; [done|]. by destruct (split sep s).
Qed.

Lemma split_free sep s : contains sep s = false → split sep s = [s].
Proof.
  induction s as [|c s IH]; simpl; [done|].
  intros [Hc Hs]%orb_false_elim.
  apply bool_decide_eq_false in Hc.
  rewrite decide_False by done. by rewrite IH.
Qed.

(** No piece of [s.split(sep)] contains the separator. *)
Lemma split_pieces_free sep s x : x ∈ split sep s → contains sep x = false.
Proof.
  revert x. induction s as [|c s IH]; simpl; intros x.
  - by intros ->%list_elem_of_singleton.
  - case_decide as Hc.
    + intros [->|Hx]%elem_of_cons; [done|by apply IH].
    + destruct (split sep s) as [|w ws] eqn:Hs.
      * intros ->%list_elem_of_singleton. simpl.
        by rewrite bool_decide_eq_false_2.
      * intros [->|Hx]%elem_of_cons.
        -- simpl. rewrite bool_decide_eq_false_2 by done.
           apply IH. by left.
        -- apply IH. by right.
Qed.

Lemma split_app_sep sep s t :
  contains sep s = false →
  split sep (s +:+ String sep t) = s :: split sep t.
Proof.
  induction s as [|c s IH]; simpl.
  - intros _. by rewrite decide_True.
  - intros [Hc Hs]%orb_false_elim. apply bool_decide_eq_false in Hc.
    rewrite decide_False by done. by rewrite IH.
Qed.

(** [sep.join(l).split(sep)] gives [l] back when no item contains [sep]. *)
Lemma split_join sep l :
  l ≠ [] → Forall (λ x, contains sep x = false) l →
  split sep (join (String sep "") l) = l.
Proof.
  induction l as [|x l IH]; [done|]. intros _ Hl.
  apply Forall_cons in Hl as [Hx Hl].
  destruct l as [|y l]; simpl.
  - by apply split_free.
  - change (String sep "" +:+ ?t) with (String sep t).
    rewrite split_app_sep by done. f_equal. by apply IH.
Qed.

Lemma sorted_strings_perm l : sorted_strings l ≡ₚ l.
Proof. apply merge_sort_Permutation. Qed.

Lemma escape_hatches_free x : x ∈ escape_hatches → contains "," x = false.
Proof.
  unfold escape_hatches. rewrite elem_of_list_to_set.
  rewrite !elem_of_cons, elem_of_nil. intros [->|[->|[->|[->|[]]]]]; done.
Qed.

(** What [_update_properties] stores for POSSIBLE_NEXT_STEPS reads back as
    the union of the given steps and the escape hatches. *)
Lemma steps_of_stored (steps : string) :
  steps_of (join "," (sorted_strings
                        (elements (steps_of steps ∪ escape_hatches))))
  = steps_of steps ∪ escape_hatches.
Proof.
  set (S := steps_of steps ∪ escape_hatches).
  unfold steps_of at 1.
  rewrite split_join.
  - apply set_eq. intros x.
    rewrite elem_of_list_to_set, sorted_strings_perm. apply elem_of_elements.
  - intros Hnil.
    assert ("relock" ∈ sorted_strings (elements S)) as Hin.
    { rewrite sorted_strings_perm. apply elem_of_elements.
      apply elem_of_union_r. unfold escape_hatches.
      rewrite elem_of_list_to_set. set_solver. }
    rewrite Hnil in Hin. by apply elem_of_nil in Hin.
  - apply Forall_forall. intros x.
    rewrite sorted_strings_perm. intros [Hx|Hx]%elem_of_elements%elem_of_union.
    + apply (split_pieces_free _ steps). by apply elem_of_list_to_set in Hx.
    + by apply escape_hatches_free.
Qed.

(** *** Lines, stripping and [split('=', 1)] *)

Lemma app_assoc (a b c : string) : (a +:+ b) +:+ c = a +:+ b +:+ c.
Proof.
  induction a as [|x a IH]; [done|].
  change (String x ((a +:+ b) +:+ c) = String x (a +:+ b +:+ c)).
  by rewrite IH.
Qed.

Lemma app_nil_r (a : string) : a +:+ "" = a.
Proof.
  induction a as [|x a IH]; [done|].
  change (String x (a +:+ "") = String x a). by rewrite IH.
Qed.

Lemma app_eq_nil (a b : string) : a +:+ b = "" → b = "".
Proof. by destruct a. Qed.

Lemma readlines_line l rest :
  contains "010" l = false →
  readlines (l +:+ NL +:+ rest) = (l +:+ NL) :: readlines rest.
Proof.
  unfold NL. induction l as [|c l IH]; simpl.
  - done.
  - intros [Hc Hl]%orb_false_elim. apply bool_decide_eq_false in Hc.
    rewrite decide_False by done. by rewrite IH.
Qed.

Lemma rstrip_by_snoc p s c :
  p c = true → rstrip_by p (s +:+ String c "") = rstrip_by p s.
Proof.
  intros Hc. induction s as [|c' s IH]; simpl.
  - by rewrite Hc.
  - by rewrite IH.
Qed.

Lemma rstrip_by_app_keep p a b :
  rstrip_by p b ≠ "" → rstrip_by p (a +:+ b) = a +:+ rstrip_by p b.
Proof.
  intros Hb. induction a as [|c a IH]; simpl; [reflexivity|].
  rewrite IH. destruct (a +:+ rstrip_by p b) eqn:Hab.
  - by apply app_eq_nil in Hab.
  - change (String c a +:+ rstrip_by p b)
      with (String c (a +:+ rstrip_by p b)). by rewrite Hab.
Qed.

Lemma lstrip_by_length p s :
  String.length (lstrip_by p s) ≤ String.length s.
Proof.
  induction s as [|c s IH]; simpl; [done|].
  destruct (p c); simpl; lia.
Qed.

Lemma lstrip_by_app_keep p a b :
  a ≠ "" → lstrip_by p a = a → lstrip_by p (a +:+ b) = a +:+ b.
Proof.
  destruct a as [|c a]; [done|]. intros _. simpl.
  destruct (p c) eqn:Hc; [|done].
  intros Heq. pose proof (lstrip_by_length p a) as Hlen.
  rewrite Heq in Hlen. simpl in Hlen. lia.
Qed.

Lemma split1_app sep k v :
  contains sep k = false → split1 sep (k +:+ String sep v) = Some (k, v).
Proof.
  induction k as [|c k IH]; simpl.
  - intros _. by rewrite decide_True.
  - intros [Hc Hk]%orb_false_elim. apply bool_decide_eq_false in Hc.
    rewrite decide_False by done. by rewrite IH.
Qed.

Lemma strip_prop_line k v :
  key_ok k → value_ok v → strip (prop_line (k, v)) = k +:+ "=" +:+ v.
Proof.
  intros (_ & _ & Hk) (_ & Hv). unfold strip, prop_line, rstrip, lstrip in *.
  simpl fst; simpl snd.
  assert (rstrip_by Ascii.is_space (String "=" v) = String "=" v) as Heq.
  { simpl. rewrite Hv. by destruct v. }
  replace (k +:+ "=" +:+ v +:+ NL) with ((k +:+ "=" +:+ v) +:+ NL)
    by (by rewrite !app_assoc).
  change ("=" +:+ v) with (String "=" v).
  unfold NL. rewrite rstrip_by_snoc by done.
  rewrite rstrip_by_app_keep by (by rewrite Heq).
  rewrite Heq. destruct (decide (k = "")) as [->|Hne]; [reflexivity|].
  by apply lstrip_by_app_keep.
Qed.

Lemma parse_line_prop_line d kv :
  item_ok kv →
  parse_line (Ok d) (prop_line kv) = Ok (<[kv.1 := kv.2]> d).
Proof.
  destruct kv as [k v]. intros [Hk Hv]. unfold parse_line.
  rewrite strip_prop_line by done.
  change ("=" +:+ v) with (String "=" v).
  rewrite split1_app by apply Hk. done.
Qed.

Lemma readlines_text_of l :
  Forall item_ok l → readlines (text_of l) = prop_line <$> l.
Proof.
  induction 1 as [|[k v] l [(_ & Hk & _) (Hv & _)] _ IH]; simpl; [done|].
  unfold prop_line at 1. simpl fst; simpl snd.
  replace ((k +:+ "=" +:+ v +:+ NL) +:+ text_of l)
    with ((k +:+ "=" +:+ v) +:+ NL +:+ text_of l)
    by (by rewrite !app_assoc).
  rewrite readlines_line.
  - rewrite IH. unfold prop_line at 2. simpl. by rewrite !app_assoc.
  - rewrite !contains_app. simpl in *. by rewrite Hk, Hv.
Qed.

Lemma foldl_parse_line d l :
  Forall item_ok l →
  foldl parse_line (Ok d) (prop_line <$> l)
  = Ok (foldl (λ m kv, <[kv.1 := kv.2]> m) d l).
Proof.
  intros Hl. revert d.
  induction Hl as [|kv l Hkv _ IH]; intros d; [done|].
  rewrite fmap_cons. cbn [foldl].
  rewrite parse_line_prop_line by done. apply IH.
Qed.

Lemma foldl_insert_items (d : gmap string string) l :
  NoDup l.*1 →
  foldl (λ m kv, <[kv.1 := kv.2]> m) d l = list_to_map l ∪ d.
Proof.
  revert d. induction l as [|[k v] l IH]; intros d; simpl.
  - intros _. by rewrite (left_id_L ∅ (∪)).
  - intros [Hk Hl]%NoDup_cons. rewrite IH by done.
    rewrite <-insert_union_l. symmetry. apply insert_union_r.
    by apply not_elem_of_list_to_map_1.
Qed.

Lemma sorted_items_perm l : sorted_items l ≡ₚ l.
Proof. apply merge_sort_Permutation. Qed.

(** Reading back what was written gives the dict that was written. *)
Lemma parse_serialize (R : gmap string string) :
  map_Forall (λ k v, key_ok k ∧ value_ok v) R →
  parse_props (serialize_props R) = Ok R.
Proof.
  intros HR. unfold parse_props, serialize_props.
  set (l := sorted_items (map_to_list R)).
  assert (l ≡ₚ map_to_list R) as Hperm by apply sorted_items_perm.
  assert (Forall item_ok l) as Hl.
  { apply Forall_forall. intros [k v] Hin. rewrite Hperm in Hin.
    apply elem_of_map_to_list in Hin. by apply HR in Hin. }
  fold (text_of l). rewrite readlines_text_of, foldl_parse_line by done.
  f_equal.
  assert (NoDup l.*1) as Hnd.
  { rewrite Hperm. apply NoDup_fst_map_to_list. }
  rewrite foldl_insert_items by done.
  rewrite (right_id_L ∅ (∪)).
  rewrite (list_to_map_proper l (map_to_list R)) by done.
  apply list_to_map_to_list.
Qed.

End PyFacts.

(** ** Running the monad *)

(** Evaluates [pyformat] on a given format. *)
Ltac fmt_eval :=
  simpl pyformat; rewrite ?PyFacts.app_nil_r; try reflexivity.

Section Running.
Context `{C : Collaborators}.

Lemma run_bind_ok {A B} (m : M A) (k : A → M B) w w' a :
  m w = (w', Ok a) → bind m k w = k a w'.
Proof. unfold bind. by intros ->. Qed.

Lemma run_bind_raise {A B} (m : M A) (k : A → M B) w w' e :
  m w = (w', Raise e) → bind m k w = (w', Raise e).
Proof. unfold bind. by intros ->. Qed.

Lemma run_seq_ok {A B} (m : M A) (k : M B) w w' a :
  m w = (w', Ok a) → (m;; k) w = k w'.
Proof. apply (run_bind_ok m (λ _, k)). Qed.

Lemma run_seq_raise {A B} (m : M A) (k : M B) w w' e :
  m w = (w', Raise e) → (m;; k) w = (w', Raise e).
Proof. apply (run_bind_raise m (λ _, k)). Qed.

Lemma run_try_ok {A} (m : M A) (h : exn → M A) w w' a :
  m w = (w', Ok a) → try_except m h w = (w', Ok a).
Proof. unfold try_except. by intros ->. Qed.

Lemma run_try_raise {A} (m : M A) (h : exn → M A) w w' e :
  m w = (w', Raise e) → try_except m h w = h e w'.
Proof. unfold try_except. by intros ->. Qed.

Lemma run_result {A} (x : World * result A) (r : result A) :
  x.2 = r → x = (x.1, r).
Proof. destruct x as [w r']. simpl. by intros ->. Qed.

Lemma run_ok {A} (x : World * result A) (dflt : A) :
  is_ok x.2 = true → x = (x.1, Ok (returned dflt x.2)).
Proof. by destruct x as [w [a|e]]. Qed.

Lemma bind_ret_l {A B} (a : A) (k : A → M B) : bind (ret a) k = k a.
Proof. reflexivity. Qed.

Lemma bind_raise_l {A B} (e : exn) (k : A → M B) : bind (raise e) k = raise e.
Proof. reflexivity. Qed.

Lemma seq_ret_l {A B} (a : A) (k : M B) : (ret a;; k) = k.
Proof. reflexivity. Qed.

Lemma seq_raise_l {A B} (e : exn) (k : M B) : (raise (A:=A) e;; k) = raise e.
Proof. reflexivity. Qed.

Lemma getitem_Some d k v : d !! k = Some v → getitem d k = ret v.
Proof. unfold getitem. by intros ->. Qed.

Lemma getitem_None d k : d !! k = None → getitem d k = raise (KeyError k).
Proof. unfold getitem. by intros ->. Qed.

Lemma fmt_Ok f args s : pyformat f args = Ok s → fmt f args = ret s.
Proof. unfold fmt, lift. by intros ->. Qed.

Lemma fmt_Raise f args e : pyformat f args = Raise e → fmt f args = raise e.
Proof. unfold fmt, lift. by intros ->. Qed.

Lemma truthy_ne s : s ≠ "" → truthy s = true.
Proof. intros. unfold truthy. by rewrite bool_decide_eq_false_2. Qed.

Lemma run_alert_plain props text severity color html room sender w :
  props !! "HIPCHAT_ROOM" = Some room →
  props !! "HIPCHAT_SENDER" = Some sender →
  _alert props text severity color html false w
  = (alerted room sender text severity color html w, Ok ()).
Proof.
  intros Hroom Hsender. unfold _alert.
  rewrite bind_ret_l, (getitem_Some _ _ _ Hroom), (getitem_Some _ _ _ Hsender).
  reflexivity.
Qed.

Lemma run_alert props text severity color html name room sender w :
  props !! "DEPLOYER_HIPCHAT_NAME" = Some name →
  props !! "HIPCHAT_ROOM" = Some room →
  props !! "HIPCHAT_SENDER" = Some sender →
  _alert props text severity color html true w
  = (alerted room sender (name +:+ " " +:+ text) severity color html w, Ok ()).
Proof.
  intros Hname Hroom Hsender. unfold _alert.
  rewrite (getitem_Some _ _ _ Hname), bind_ret_l.
  rewrite (fmt_Ok _ _ (name +:+ " " +:+ text)) by fmt_eval.
  rewrite bind_ret_l, (getitem_Some _ _ _ Hroom), (getitem_Some _ _ _ Hsender).
  reflexivity.
Qed.

End Running.

(** ** Steps that leave the file system and the clock alone *)

Section Quiet.
Context `{C : Collaborators}.

Lemma quiet_pure {A} P (r : result A) : quiet P (λ w, (w, r)).
Proof.
  intros w. simpl. repeat split. exists []. by rewrite app_nil_r.
Qed.

Lemma quiet_ret {A} P (a : A) : quiet P (ret a).
Proof. apply quiet_pure. Qed.

Lemma quiet_raise {A} P e : quiet P (raise (A:=A) e).
Proof. apply quiet_pure. Qed.

Lemma quiet_lift {A} P (r : result A) : quiet P (lift r).
Proof. apply quiet_pure. Qed.

Lemma quiet_fmt P f args : quiet P (fmt f args).
Proof. apply quiet_pure. Qed.

Lemma quiet_getitem P d k : quiet P (getitem d k).
Proof. unfold getitem. destruct (d !! k); apply quiet_pure. Qed.

Lemma quiet_get_props P : quiet P get_props.
Proof. intros w. simpl. repeat split. exists []. by rewrite app_nil_r. Qed.

Lemma quiet_time_time P : quiet P time_time.
Proof. intros w. simpl. repeat split. exists []. by rewrite app_nil_r. Qed.

Lemma quiet_put_props P d : quiet P (put_props d).
Proof. intros w. simpl. repeat split. exists []. by rewrite app_nil_r. Qed.

Lemma quiet_read_file P dir name : quiet P (read_file dir name).
Proof.
  intros w. unfold read_file.
  destruct (files (fs w) !! (dir, name)); simpl; repeat split;
    exists []; by rewrite app_nil_r.
Qed.

Lemma quiet_emit P ev : P ev → quiet P (emit ev).
Proof.
  intros Hev w. simpl. repeat split. exists [ev]. split; [done|].
  by apply Forall_singleton.
Qed.

Lemma quiet_logging P lvl msg : P (EvLog lvl msg) → quiet P (logging lvl msg).
Proof. apply quiet_emit. Qed.

Lemma quiet_call P c : P (EvExt c) → quiet P (call c).
Proof.
  intros Hc w. unfold call. destruct (ext_step c (ext w)) as [e' r]. simpl.
  repeat split. exists [EvExt c]. split; [done|]. by apply Forall_singleton.
Qed.

Lemma quiet_bind {A B} P (m : M A) (k : A → M B) :
  quiet P m → (∀ a, quiet P (k a)) → quiet P (bind m k).
Proof.
  intros Hm Hk w. unfold bind.
  destruct (Hm w) as (Hfs & Hnow & evs & Htr & Hevs).
  destruct (m w) as [w1 [a|e]]; simpl in *.
  - destruct (Hk a w1) as (Hfs' & Hnow' & evs' & Htr' & Hevs').
    rewrite Hfs', Hnow', Htr', Hfs, Hnow, Htr. repeat split.
    exists (evs ++ evs'). rewrite app_assoc. split; [done|].
    by apply Forall_app.
  - repeat split; [done..|]. by exists evs.
Qed.

Lemma quiet_seq {A B} P (m : M A) (k : M B) :
  quiet P m → quiet P k → quiet P (m;; k).
Proof. intros Hm Hk. by apply (quiet_bind P m (λ _, k)). Qed.

Lemma quiet_try_except {A} P (m : M A) (h : exn → M A) :
  quiet P m → (∀ e, quiet P (h e)) → quiet P (try_except m h).
Proof.
  intros Hm Hh w. unfold try_except.
  destruct (Hm w) as (Hfs & Hnow & evs & Htr & Hevs).
  destruct (m w) as [w1 [a|e]]; simpl in *.
  - repeat split; [done..|]. by exists evs.
  - destruct (Hh e w1) as (Hfs' & Hnow' & evs' & Htr' & Hevs').
    rewrite Hfs', Hnow', Htr', Hfs, Hnow, Htr. repeat split.
    exists (evs ++ evs'). rewrite app_assoc. split; [done|].
    by apply Forall_app.
Qed.

Lemma quiet_weaken {A} (P Q : event → Prop) (m : M A) :
  (∀ ev, P ev → Q ev) → quiet P m → quiet Q m.
Proof.
  intros HPQ Hm w. destruct (Hm w) as (Hfs & Hnow & evs & Htr & Hevs).
  repeat split; [done..|]. exists evs. split; [done|].
  by eapply Forall_impl.
Qed.

End Quiet.

Create HintDb quiet.

(** Breaks a [quiet] goal down along the structure of the program. *)
Ltac quiet_go :=
  repeat first
    [ solve [auto 1 with quiet nocore]
    | apply quiet_ret | apply quiet_raise | apply quiet_lift | apply quiet_fmt
    | apply quiet_getitem | apply quiet_get_props | apply quiet_put_props
    | apply quiet_time_time | apply quiet_read_file
    | apply quiet_logging | apply quiet_emit | apply quiet_call
    | apply quiet_seq | (apply quiet_bind; [|intros ?])
    | (apply quiet_try_except; [|intros ?])
    | progress unfold when
    | match goal with
      | |- quiet _ (if ?b then _ else _) => destruct b
      | |- quiet _ (match ?x with _ => _ end) => destruct x
      | |- quiet _ (let '(_, _) := ?x in _) => destruct x
      end
    | done ].

Section QuietProgram.
Context `{C : Collaborators}.

Lemma lookup_only_no_fs_call ev : lookup_only ev → no_fs_call ev.
Proof. by destruct ev as [| |[]| |]. Qed.

Lemma quiet_lookup_only {A} (m : M A) : quiet lookup_only m → quiet no_fs_call m.
Proof. apply quiet_weaken, lookup_only_no_fs_call. Qed.

Lemma quiet_safe_urlopen_loop n url : quiet lookup_only (_safe_urlopen_loop n url).
Proof. induction n as [|n IH]; simpl; quiet_go. Qed.
#[local] Hint Resolve quiet_safe_urlopen_loop : quiet.

Lemma quiet_safe_urlopen url : quiet lookup_only (_safe_urlopen url).
Proof. apply quiet_safe_urlopen_loop. Qed.
#[local] Hint Resolve quiet_safe_urlopen : quiet.

Lemma quiet_current_gae_version : quiet lookup_only _current_gae_version.
Proof. unfold _current_gae_version. quiet_go. Qed.
#[local] Hint Resolve quiet_lookup_only : quiet.
#[local] Hint Resolve quiet_current_gae_version : quiet.

Lemma quiet_alert props text severity color html prefix :
  quiet no_fs_call (_alert props text severity color html prefix).
Proof. unfold _alert. quiet_go. Qed.
#[local] Hint Resolve quiet_alert : quiet.

Lemma quiet_email_to_hipchat_name email :
  quiet no_fs_call (_email_to_hipchat_name email).
Proof.
  unfold _email_to_hipchat_name. quiet_go.
Qed.
#[local] Hint Resolve quiet_email_to_hipchat_name : quiet.

Lemma quiet_run_command cmd failure_ok :
  quiet no_fs_call (_run_command cmd failure_ok).
Proof. unfold _run_command. quiet_go. Qed.
#[local] Hint Resolve quiet_run_command : quiet.

Lemma quiet_gae_version git_revision : quiet no_fs_call (_gae_version git_revision).
Proof. unfold _gae_version. quiet_go. Qed.
#[local] Hint Resolve quiet_gae_version : quiet.

Lemma quiet_finish_url props extra : quiet no_fs_call (_finish_url props extra).
Proof. unfold _finish_url. quiet_go. Qed.
#[local] Hint Resolve quiet_finish_url : quiet.

Lemma quiet_create_properties a : quiet no_fs_call (_create_properties a).
Proof.
  unfold _create_properties. quiet_go.
Qed.
#[local] Hint Resolve quiet_create_properties : quiet.

Lemma quiet_read_properties lockdir : quiet no_fs_call (_read_properties lockdir).
Proof. unfold _read_properties. quiet_go. Qed.
#[local] Hint Resolve quiet_read_properties : quiet.

(** Loading the record makes no file-system call. *)
Lemma quiet_main_load action lockdir acquire_lock_args caller_email :
  quiet no_fs_call (main_load action lockdir acquire_lock_args caller_email).
Proof.
  unfold main_load. quiet_go.
Qed.

End QuietProgram.

(** ** The dispatcher and the ownership token *)

Section Dispatch.
Context `{C : Collaborators}.

Lemma fmt_not_owner lock_token token :
  fmt ("You do not own the deploy lock (its token is %s, "
       +:+ "yours is %s); aborting") [lock_token; token]
  = ret (not_owner_text lock_token token).
Proof. apply fmt_Ok. unfold not_owner_text. fmt_eval. Qed.

(** What [main] does once the record is loaded and the supplied token is
    not the one of the record. *)
Lemma main_rejects_token action lockdir args t lock_token mt jbu ce w w1
    room sender :
  main_load action lockdir args ce w = (w1, Ok true) →
  t ≠ "" → lock_token ≠ "" → t ≠ lock_token →
  props w1 !! "TOKEN" = Some lock_token →
  props w1 !! "HIPCHAT_ROOM" = Some room →
  props w1 !! "HIPCHAT_SENDER" = Some sender →
  main action lockdir args (Some t) mt jbu ce w
  = (alerted room sender (not_owner_text lock_token t) ERROR None false w1,
     Ok true).
Proof.
  intros Hload Ht Hlock Hne Htoken Hroom Hsender. unfold main.
  rewrite (run_bind_ok _ _ _ _ _ Hload). cbn [negb].
  unfold get_props at 1. unfold bind at 1.
  unfold token_differs. rewrite Htoken. cbn [truthy_opt].
  rewrite !truthy_ne by done.
  rewrite bool_decide_eq_false_2 by congruence. cbn [negb andb].
  rewrite (getitem_Some _ _ _ Htoken), bind_ret_l. cbn [default].
  rewrite fmt_not_owner, bind_ret_l.
  erewrite run_seq_ok by (by apply run_alert_plain).
  reflexivity.
Qed.

(** C3 (token isolation).  When the record is loaded, the supplied token
    and the token of the record are both non-empty and they differ, [main]
    returns True; the file system is the one it started with, so nothing
    was written; after the events of the load the trace only gains the
    alert, whose text is not prefixed with the recorded user name; and the
    props and the collaborators are as the load left them, so no stage
    handler ran. *)
Theorem token_isolation action lockdir args t lock_token mt jbu ce w w1
    room sender :
  main_load action lockdir args ce w = (w1, Ok true) →
  t ≠ "" → lock_token ≠ "" → t ≠ lock_token →
  props w1 !! "TOKEN" = Some lock_token →
  props w1 !! "HIPCHAT_ROOM" = Some room →
  props w1 !! "HIPCHAT_SENDER" = Some sender →
  ∃ w' evs,
    main action lockdir args (Some t) mt jbu ce w = (w', Ok true)
    ∧ fs w' = fs w
    ∧ props w' = props w1 ∧ ext w' = ext w1 ∧ now w' = now w
    ∧ Forall no_fs_call evs
    ∧ trace w' =
        trace w ++ evs
        ++ [EvLog ERROR (not_owner_text lock_token t);
            EvHipchat room sender (not_owner_text lock_token t) None false].
Proof.
  intros Hload Ht Hlock Hne Htoken Hroom Hsender.
  destruct (quiet_main_load action lockdir args ce w)
    as (Hfs & Hnow & evs & Htrace & Hevs).
  rewrite Hload in Hfs, Hnow, Htrace. simpl in Hfs, Hnow, Htrace.
  eexists _, evs. split; [by eapply main_rejects_token|].
  simpl. rewrite Htrace, <-!(assoc_L (++)). done.
Qed.

(** C4, as the code has it.  A non-empty supplied token that differs from
    the stored TOKEN stops the dispatch only when the stored TOKEN is
    non-empty: then [main] returns True and leaves the file system, the
    props and the collaborators as the load left them.  When the stored
    TOKEN is empty or missing the check is skipped: [main] goes on exactly
    as if no token had been supplied. *)
Theorem token_check_is_guarded action lockdir args t mt jbu ce w w1 :
  main_load action lockdir args ce w = (w1, Ok true) →
  t ≠ "" →
  props w1 !! "TOKEN" ≠ Some t →
  (∀ lock_token room sender,
     props w1 !! "TOKEN" = Some lock_token → lock_token ≠ "" →
     props w1 !! "HIPCHAT_ROOM" = Some room →
     props w1 !! "HIPCHAT_SENDER" = Some sender →
     ∃ w', main action lockdir args (Some t) mt jbu ce w = (w', Ok true)
           ∧ fs w' = fs w1 ∧ props w' = props w1 ∧ ext w' = ext w1
           ∧ now w' = now w1)
  ∧ (truthy_opt (props w1 !! "TOKEN") = false →
     main action lockdir args (Some t) mt jbu ce w
     = main action lockdir args None mt jbu ce w).
Proof.
  intros Hload Ht Hne. split.
  - intros lock_token room sender Htoken Hlock Hroom Hsender.
    eexists. split.
    + eapply main_rejects_token; eauto. congruence.
    + done.
  - intros Hempty. unfold main.
    rewrite !(run_bind_ok _ _ _ _ _ Hload). cbn [negb].
    unfold get_props at 1 3. unfold bind at 1 3.
    rewrite Hempty. cbn [truthy_opt]. by rewrite andb_false_r.
Qed.

End Dispatch.

(** ** Steps that leave the props dict alone *)

Section KeepsProps.
Context `{C : Collaborators}.

Lemma keeps_pure {A} (r : result A) : keeps_props (λ w, (w, r)).
Proof. done. Qed.
Lemma keeps_ret {A} (a : A) : keeps_props (ret a).
Proof. done. Qed.
Lemma keeps_raise {A} e : keeps_props (raise (A:=A) e).
Proof. done. Qed.
Lemma keeps_lift {A} (r : result A) : keeps_props (lift r).
Proof. done. Qed.
Lemma keeps_fmt f args : keeps_props (fmt f args).
Proof. done. Qed.
Lemma keeps_getitem d k : keeps_props (getitem d k).
Proof. unfold getitem. by destruct (d !! k). Qed.
Lemma keeps_get_props : keeps_props get_props.
Proof. done. Qed.
Lemma keeps_time_time : keeps_props time_time.
Proof. done. Qed.
Lemma keeps_time_sleep secs : keeps_props (time_sleep secs).
Proof. done. Qed.
Lemma keeps_emit ev : keeps_props (emit ev).
Proof. done. Qed.
Lemma keeps_logging lvl msg : keeps_props (logging lvl msg).
Proof. done. Qed.
Lemma keeps_read_file dir name : keeps_props (read_file dir name).
Proof. intros w. unfold read_file. by destruct (files (fs w) !! (dir, name)). Qed.
Lemma keeps_call c : keeps_props (call c).
Proof. intros w. unfold call. by destruct (ext_step c (ext w)). Qed.

Lemma keeps_bind {A B} (m : M A) (k : A → M B) :
  keeps_props m → (∀ a, keeps_props (k a)) → keeps_props (bind m k).
Proof.
  intros Hm Hk w. unfold bind. specialize (Hm w).
  destruct (m w) as [w1 [a|e]]; simpl in *; [|done].
  by rewrite Hk.
Qed.

Lemma keeps_seq {A B} (m : M A) (k : M B) :
  keeps_props m → keeps_props k → keeps_props (m;; k).
Proof. intros Hm Hk. by apply (keeps_bind m (λ _, k)). Qed.

Lemma keeps_try_except {A} (m : M A) (h : exn → M A) :
  keeps_props m → (∀ e, keeps_props (h e)) → keeps_props (try_except m h).
Proof.
  intros Hm Hh w. unfold try_except. specialize (Hm w).
  destruct (m w) as [w1 [a|e]]; simpl in *; [done|].
  by rewrite Hh.
Qed.

End KeepsProps.

Create HintDb keeps.

(** Breaks a [keeps_props] goal down along the structure of the program. *)
Ltac keeps_go :=
  repeat first
    [ solve [auto 1 with keeps nocore]
    | apply keeps_ret | apply keeps_raise | apply keeps_lift | apply keeps_fmt
    | apply keeps_getitem | apply keeps_get_props
    | apply keeps_time_time | apply keeps_time_sleep | apply keeps_read_file
    | apply keeps_logging | apply keeps_emit | apply keeps_call
    | apply keeps_seq | (apply keeps_bind; [|intros ?])
    | (apply keeps_try_except; [|intros ?])
    | progress unfold when
    | match goal with
      | |- keeps_props (if ?b then _ else _) => destruct b
      | |- keeps_props (match ?x with _ => _ end) => destruct x
      end
    | done ].

Section KeepsProgram.
Context `{C : Collaborators}.

Lemma keeps_alert d text severity color html prefix :
  keeps_props (_alert d text severity color html prefix).
Proof. unfold _alert. keeps_go. Qed.
#[local] Hint Resolve keeps_alert : keeps.

Lemma keeps_safe_urlopen_loop n url : keeps_props (_safe_urlopen_loop n url).
Proof. induction n as [|n IH]; simpl; keeps_go. Qed.
#[local] Hint Resolve keeps_safe_urlopen_loop : keeps.

Lemma keeps_safe_urlopen url : keeps_props (_safe_urlopen url).
Proof. apply keeps_safe_urlopen_loop. Qed.
#[local] Hint Resolve keeps_safe_urlopen : keeps.

Lemma keeps_email_to_hipchat_name email :
  keeps_props (_email_to_hipchat_name email).
Proof. unfold _email_to_hipchat_name. keeps_go. Qed.

Lemma keeps_run_command cmd failure_ok : keeps_props (_run_command cmd failure_ok).
Proof. unfold _run_command. keeps_go. Qed.
#[local] Hint Resolve keeps_run_command : keeps.

Lemma keeps_gae_version git_revision : keeps_props (_gae_version git_revision).
Proof. unfold _gae_version. keeps_go. Qed.

Lemma keeps_read_properties lockdir : keeps_props (_read_properties lockdir).
Proof. unfold _read_properties. keeps_go. Qed.

Lemma keeps_finish_url d extra : keeps_props (_finish_url d extra).
Proof. unfold _finish_url. keeps_go. Qed.

End KeepsProgram.

(** ** The seed of a fresh record *)

Section Create.
Context `{C : Collaborators}.

Lemma seed_steps :
  steps_of "acquire-lock,finish-with-unlock,relock"
  = ({[ "acquire-lock"; "finish-with-unlock"; "relock" ]} : gset string).
Proof. vm_compute. reflexivity. Qed.

(** C1.  Whatever the arguments, the record that [_create_properties]
    returns has POSSIBLE_NEXT_STEPS = acquire-lock, finish-with-unlock,
    relock: finish-with-failure and finish-with-rollback are not in it. *)
Theorem create_seeds_three_steps a w w' d :
  _create_properties a w = (w', Ok d) →
  ∃ steps,
    d !! "POSSIBLE_NEXT_STEPS" = Some steps
    ∧ steps_of steps
      = ({[ "acquire-lock"; "finish-with-unlock"; "relock" ]} : gset string)
    ∧ ("finish-with-failure" ∉ steps_of steps)
    ∧ ("finish-with-rollback" ∉ steps_of steps).
Proof.
  intros Hrun. exists "acquire-lock,finish-with-unlock,relock".
  rewrite seed_steps.
  split; [|split; [done|split; apply (bool_decide_unpack _); by vm_compute]].
  revert Hrun. unfold _create_properties. cbv zeta.
  rewrite (getitem_Some _ _ (arg_git_revision a)) by (by simplify_map_eq).
  rewrite bind_ret_l.
  rewrite (getitem_Some _ _ (arg_git_revision a)) by (by simplify_map_eq).
  rewrite bind_ret_l.
  unfold bind at 1.
  destruct (_gae_version _ w) as [w1 [v|e]]; [|done].
  rewrite (getitem_Some _ _ (arg_deployer_email a)) by (by simplify_map_eq).
  rewrite bind_ret_l.
  unfold bind at 1.
  destruct (_email_to_hipchat_name _ w1) as [w2 [n|e]]; [|done].
  unfold bind, fmt, lift. destruct (pyformat _ _); [|done].
  intros [= _ <-]. apply lookup_insert_eq.
Qed.

End Create.

Section Update.
Context `{C : Collaborators}.

Lemma setdefault_lookup_ne k k' v (d : gmap string string) :
  k ≠ k' → setdefault k v d !! k' = d !! k'.
Proof.
  intros Hne. unfold setdefault. destruct (d !! k); [done|].
  by rewrite lookup_insert_ne.
Qed.

Lemma keeps_write_file dir name content :
  keeps_props (write_file dir name content).
Proof.
  unfold write_file. apply keeps_seq; [apply keeps_emit|].
  intros w. unfold step. by destruct (decide _).
Qed.

#[local] Hint Resolve keeps_write_file : keeps.

Lemma keeps_write_properties d : keeps_props (_write_properties d).
Proof. unfold _write_properties. keeps_go. Qed.

Lemma update_outcome new_values w w' r :
  _update_properties new_values w = (w', r) →
  (props w' = props w ∧ is_ok r = false)
  ∨ ∃ derived,
      derived !! "POSSIBLE_NEXT_STEPS" = new_values !! "POSSIBLE_NEXT_STEPS"
      ∧ props w' = dict_update (props w) (with_escape_hatches derived).
Proof.
  unfold _update_properties. intros H.
  (* rule 1 *)
  unfold bind at 1 in H.
  match type of H with
  | context [match ?x with pair _ _ => _ end] =>
      destruct x as [w1 [nv1|e]] eqn:H1
  end; cycle 1.
  { left. injection H as <- <-. split; [|done].
    destruct (new_values !! "GIT_SHA1"); [|done].
    pose proof (keeps_gae_version s w) as Hk.
    unfold bind in H1. destruct (_gae_version s w) as [w2 [v|e2]]; simpl in *.
    - done.
    - by injection H1 as <- _. }
  assert (props w1 = props w ∧
          nv1 !! "POSSIBLE_NEXT_STEPS" = new_values !! "POSSIBLE_NEXT_STEPS")
    as [Hp1 Hs1].
  { destruct (new_values !! "GIT_SHA1").
    - pose proof (keeps_gae_version s w) as Hk.
      unfold bind in H1. destruct (_gae_version s w) as [w2 [v|e2]];
        simpl in *; [|done].
      injection H1 as <- <-. split; [done|].
      by apply setdefault_lookup_ne.
    - by injection H1 as <- <-. }
  clear H1. cbv zeta in H.
  (* rule 2 *)
  set (nv2 := match nv1 !! "DEPLOYER_EMAIL" with
              | Some email => _ | None => nv1 end) in H.
  assert (nv2 !! "POSSIBLE_NEXT_STEPS" = new_values !! "POSSIBLE_NEXT_STEPS")
    as Hs2.
  { rewrite <-Hs1. subst nv2. destruct (nv1 !! "DEPLOYER_EMAIL"); [|done].
    by apply setdefault_lookup_ne. }
  clearbody nv2. clear Hs1.
  (* rule 3 *)
  unfold bind at 1 in H.
  match type of H with
  | context [match ?x with pair _ _ => _ end] =>
      destruct x as [w3 [nv3|e]] eqn:H3
  end; cycle 1.
  { left. injection H as <- <-. split; [|done]. rewrite <-Hp1.
    destruct (nv2 !! "DEPLOYER_USERNAME"); [|done].
    pose proof (keeps_email_to_hipchat_name (Some s) w1) as Hk.
    unfold bind in H3.
    destruct (_email_to_hipchat_name (Some s) w1) as [w2 [v|e2]]; simpl in *.
    - done.
    - by injection H3 as <- _. }
  assert (props w3 = props w ∧
          nv3 !! "POSSIBLE_NEXT_STEPS" = new_values !! "POSSIBLE_NEXT_STEPS")
    as [Hp3 Hs3].
  { rewrite <-Hp1, <-Hs2. destruct (nv2 !! "DEPLOYER_USERNAME").
    - pose proof (keeps_email_to_hipchat_name (Some s) w1) as Hk.
      unfold bind in H3.
      destruct (_email_to_hipchat_name (Some s) w1) as [w2 [v|e2]];
        simpl in *; [|done].
      injection H3 as <- <-. split; [done|].
      by apply setdefault_lookup_ne.
    - by injection H3 as <- <-. }
  clear H3 Hp1 Hs2.
  (* rule 4 *)
  unfold bind at 1 in H.
  match type of H with
  | context [match ?x with pair _ _ => _ end] =>
      destruct x as [w4 [nv4|e]] eqn:H4
  end; cycle 1.
  { destruct (nv3 !! "LOCKDIR"); discriminate H4. }
  assert (w4 = w3 ∧
          nv4 !! "POSSIBLE_NEXT_STEPS" = new_values !! "POSSIBLE_NEXT_STEPS")
    as [-> Hs4].
  { rewrite <-Hs3. destruct (nv3 !! "LOCKDIR").
    - injection H4 as <- <-. split; [done|]. by apply setdefault_lookup_ne.
    - by injection H4 as <- <-. }
  clear H4 Hs3.
  (* rule 5, the update and the write *)
  right. exists nv4. split; [done|].
  fold (with_escape_hatches nv4) in H.
  unfold get_props at 1, bind at 1 in H.
  rewrite (run_seq_ok _ _ _ (set_props _ w3) ()) in H by reflexivity.
  unfold get_props at 1, bind at 1 in H.
  pose proof (keeps_write_properties
                (props (set_props (dict_update (props w3)
                                     (with_escape_hatches nv4)) w3))
                (set_props (dict_update (props w3)
                              (with_escape_hatches nv4)) w3)) as Hk.
  rewrite H in Hk. simpl in Hk. by rewrite Hk, Hp3.
Qed.

(** C2, as the code has it.  When the change-set has POSSIBLE_NEXT_STEPS
    and [_update_properties] returns, the legal next steps of the record
    are the given ones together with the four escape hatches.  When the
    change-set does not have that key the field is left as it was,
    whatever it was. *)
Theorem update_adds_escape_hatches new_values w :
  (∀ steps w',
     new_values !! "POSSIBLE_NEXT_STEPS" = Some steps →
     _update_properties new_values w = (w', Ok ()) →
     ∃ stored,
       props w' !! "POSSIBLE_NEXT_STEPS" = Some stored
       ∧ steps_of stored = steps_of steps ∪ escape_hatches
       ∧ escape_hatches ⊆ steps_of stored)
  ∧ (new_values !! "POSSIBLE_NEXT_STEPS" = None →
     props (_update_properties new_values w).1 !! "POSSIBLE_NEXT_STEPS"
     = props w !! "POSSIBLE_NEXT_STEPS").
Proof.
  split.
  - intros steps w' Hsteps Hrun.
    apply update_outcome in Hrun as [[_ ?]|(derived & Hd & ->)]; [done|].
    rewrite Hsteps in Hd. unfold with_escape_hatches, dict_update.
    rewrite Hd. eexists. split.
    + apply lookup_union_Some_l. apply lookup_insert_eq.
    + rewrite PyFacts.steps_of_stored. split; [done|].
      apply union_subseteq_r.
  - intros Hnone.
    destruct (_update_properties new_values w) as [w' r] eqn:Hrun.
    apply update_outcome in Hrun as [[Hp _]|(derived & Hd & Hp)];
      simpl; rewrite Hp; [done|].
    rewrite Hnone in Hd. unfold with_escape_hatches, dict_update.
    rewrite Hd. by apply lookup_union_r.
Qed.

End Update.

(** ** Writing the record and reading it back *)

Section RoundTrip.
Context `{C : Collaborators}.

Lemma run_write_properties d lockdir w :
  d !! "LOCKDIR" = Some lockdir → lockdir ∈ dirs (fs w) →
  _write_properties d w = (written lockdir d w, Ok ()).
Proof.
  intros Hd Hdir. unfold _write_properties.
  rewrite (getitem_Some _ _ _ Hd), !bind_ret_l.
  rewrite (fmt_Ok _ _ ("Wrote properties to " +:+ lockdir +:+ ": "
                       +:+ repr_dict d)) by fmt_eval.
  rewrite bind_ret_l.
  erewrite run_seq_ok by reflexivity.
  unfold write_file. erewrite run_seq_ok by reflexivity.
  unfold step. simpl. by rewrite decide_True.
Qed.

Lemma run_read_properties d lockdir content w :
  files (fs w) !! (lockdir, "deploy.prop") = Some content →
  parse_props content = Ok d →
  d !! "LOCKDIR" = Some lockdir →
  _read_properties lockdir w = (was_read lockdir d w, Ok d).
Proof.
  intros Hfile Hparse Hd. unfold _read_properties.
  erewrite run_bind_ok by (unfold read_file; by rewrite Hfile).
  rewrite Hparse. change (lift (Ok d)) with (ret d). rewrite bind_ret_l.
  rewrite (getitem_Some _ _ _ Hd), bind_ret_l.
  rewrite decide_True by done.
  rewrite (fmt_Ok _ _ ("Read properties from " +:+ lockdir +:+ ": "
                       +:+ repr_dict d)) by fmt_eval.
  rewrite bind_ret_l. reflexivity.
Qed.

(** C9, as the code has it.  For a record whose keys have no [=], no
    newline and no leading white space, and whose values have no newline
    and no trailing white space, writing it, reading it back and writing
    what was read gives the same mapping and the same file. *)
Theorem write_read_write d lockdir w :
  d !! "LOCKDIR" = Some lockdir →
  lockdir ∈ dirs (fs w) →
  map_Forall (λ k v, key_ok k ∧ value_ok v) d →
  ∃ w1 w2 w3,
    _write_properties d w = (w1, Ok ())
    ∧ files (fs w1) !! (lockdir, "deploy.prop") = Some (serialize_props d)
    ∧ _read_properties lockdir w1 = (w2, Ok d)
    ∧ _write_properties d w2 = (w3, Ok ())
    ∧ fs w3 = fs w1.
Proof.
  intros Hd Hdir Hok.
  exists (written lockdir d w), (was_read lockdir d (written lockdir d w)),
    (written lockdir d (was_read lockdir d (written lockdir d w))).
  assert (files (fs (written lockdir d w)) !! (lockdir, "deploy.prop")
          = Some (serialize_props d)) as Hfile.
  { simpl. apply lookup_insert_eq. }
  split; [by apply run_write_properties|].
  split; [done|].
  split.
  { eapply run_read_properties; [done| |done]. by apply PyFacts.parse_serialize. }
  split; [by apply run_write_properties|].
  simpl. by rewrite insert_insert_eq.
Qed.

End RoundTrip.

(** ** Waiting for the lock *)

Section Acquire.
Context `{C : Collaborators}.

Lemma run_get_props {A} (k : gmap string string → M A) w :
  bind get_props k w = k (props w) w.
Proof. reflexivity. Qed.

Lemma run_finish_url d extra jenkins_url token :
  d !! "JENKINS_URL" = Some jenkins_url →
  d !! "TOKEN" = Some token →
  _finish_url d extra = ret (finish_url_text jenkins_url token extra).
Proof.
  intros Hurl Htoken. unfold _finish_url.
  rewrite (getitem_Some _ _ _ Hurl), (getitem_Some _ _ _ Htoken), !bind_ret_l.
  apply fmt_Ok. unfold finish_url_text. fmt_eval.
Qed.


Lemma never_returns_raise {A} e : never_returns (raise (A:=A) e).
Proof. done. Qed.

Lemma never_returns_bind {A B} (m : M A) (k : A → M B) :
  (∀ a, never_returns (k a)) → never_returns (bind m k).
Proof.
  intros Hk w. unfold bind. destruct (m w) as [w1 [a|e]]; [apply Hk|done].
Qed.

Lemma never_returns_seq {A B} (m : M A) (k : M B) :
  never_returns k → never_returns (m;; k).
Proof. intros Hk. by apply (never_returns_bind m (λ _, k)). Qed.

Lemma acquire_timeout_never_returns current_props waited_sec :
  never_returns (acquire_timeout current_props waited_sec).
Proof.
  unfold acquire_timeout.
  repeat (apply never_returns_bind; intros ?).
  apply never_returns_raise.
Qed.

Lemma quiet_acquire_timeout current_props waited_sec :
  quiet no_fs_call (acquire_timeout current_props waited_sec).
Proof.
  unfold acquire_timeout. quiet_go;
    first [apply quiet_finish_url | apply quiet_alert].
Qed.

Lemma acquire_wait_done fuel lockdir current_props jbu wait_sec notify_sec
    waited_sec done_first_alert :
  (wait_sec ≤ waited_sec)%Z →
  acquire_wait fuel lockdir current_props jbu wait_sec notify_sec waited_sec
    done_first_alert
  = ret (Some waited_sec).
Proof.
  intros Hle. destruct fuel; simpl; by rewrite decide_False by lia.
Qed.

(** C10.  When the record of the holder can be read and its
    LOCK_ACQUIRE_TIME is at least [wait_sec] seconds before now,
    [acquire_deploy_lock] goes from reading the record straight to the
    end of the function: the loop body is never run, so the run makes no
    file-system call (no [os.mkdir]) and does not sleep, and it ends with
    an exception. *)
Theorem acquire_gives_up_at_once jbu wait_sec notify_sec w lockdir content
    holder since t0 :
  props w !! "LOCKDIR" = Some lockdir →
  files (fs w) !! (lockdir, "deploy.prop") = Some content →
  parse_props content = Ok holder →
  holder !! "LOCKDIR" = Some lockdir →
  holder !! "LOCK_ACQUIRE_TIME" = Some since →
  int_of_string since = Ok t0 →
  (wait_sec ≤ now w - t0)%Z →
  acquire_deploy_lock jbu wait_sec notify_sec w
  = acquire_timeout holder (now w - t0) (was_read lockdir holder w)
  ∧ is_ok (acquire_deploy_lock jbu wait_sec notify_sec w).2 = false
  ∧ fs (acquire_deploy_lock jbu wait_sec notify_sec w).1 = fs w
  ∧ now (acquire_deploy_lock jbu wait_sec notify_sec w).1 = now w
  ∧ ∃ evs,
      trace (acquire_deploy_lock jbu wait_sec notify_sec w).1 = trace w ++ evs
      ∧ Forall no_fs_call evs.
Proof.
  intros Hlockdir Hfile Hparse Hholder Hsince Hint Hold.
  assert (acquire_deploy_lock jbu wait_sec notify_sec w
          = acquire_timeout holder (now w - t0) (was_read lockdir holder w))
    as Hrun.
  { unfold acquire_deploy_lock.
    rewrite run_get_props, (getitem_Some _ _ _ Hlockdir), bind_ret_l.
    erewrite run_bind_ok; cycle 1.
    { apply run_try_ok.
      erewrite run_bind_ok by (by eapply run_read_properties).
      unfold time_time at 1. unfold bind at 1.
      rewrite (getitem_Some _ _ _ Hsince), bind_ret_l, Hint.
      reflexivity. }
    cbv zeta. simpl fst. simpl snd.
    rewrite acquire_wait_done by done. by rewrite bind_ret_l. }
  rewrite Hrun. split; [done|].
  split; [apply acquire_timeout_never_returns|].
  destruct (quiet_acquire_timeout holder (now w - t0) (was_read lockdir holder w))
    as (Hfs & Hnow & evs & Htrace & Hevs).
  split; [done|]. split; [done|].
  exists (EvLog INFO ("Read properties from " +:+ lockdir +:+ ": "
                      +:+ repr_dict holder) :: evs).
  split; [by rewrite Htrace; simpl; rewrite <-(assoc_L (++))|].
  by apply Forall_cons.
Qed.

End Acquire.

Section AcquireLoop.
Context `{C : Collaborators}.

Lemma alerted_add_events room sender text severity color html w :
  alerted room sender text severity color html w
  = add_events [EvLog severity text; EvHipchat room sender text color html] w.
Proof. unfold alerted, add_events, log_event. simpl. by rewrite <-(assoc_L (++)). Qed.

Lemma add_events_nil w : add_events [] w = w.
Proof. destruct w. unfold add_events. simpl. by rewrite app_nil_r. Qed.

Lemma run_mkdir_exists lockdir w :
  lockdir ∈ dirs (fs w) →
  os_mkdir lockdir w
  = (log_event (EvFs (Mkdir lockdir)) w,
     Raise (OSError (Some EEXIST) "File exists")).
Proof.
  intros Hdir. unfold os_mkdir. erewrite run_seq_ok by reflexivity.
  unfold step. simpl. by rewrite decide_True.
Qed.

Lemma run_queue_alert current_props notify_sec waited_sec done_first_alert w :
  caller_ok (props w) → notify_sec ≠ 0%Z →
  ∃ evs,
    queue_alert current_props notify_sec waited_sec done_first_alert w
    = (add_events evs w, Ok true)
    ∧ Forall waiting_event evs.
Proof.
  intros ([url Hurl] & [rev Hrev] & [name Hname] & [room Hroom]
          & [sender Hsender]) Hnotify.
  unfold queue_alert.
  rewrite run_get_props, (getitem_Some _ _ _ Hurl), bind_ret_l.
  erewrite fmt_Ok by fmt_eval. rewrite bind_ret_l.
  destruct done_first_alert; cbn [negb].
  - rewrite decide_False by done.
    destruct (decide (_ = 0%Z)).
    + erewrite fmt_Ok by fmt_eval. rewrite bind_ret_l.
      erewrite run_seq_ok by (by apply run_alert).
      rewrite alerted_add_events. eexists. split; [reflexivity|].
      by repeat constructor.
    + exists []. rewrite add_events_nil. by split.
  - rewrite (getitem_Some _ _ _ Hrev), bind_ret_l.
    erewrite fmt_Ok by fmt_eval. rewrite bind_ret_l.
    erewrite run_seq_ok by (by apply run_alert).
    rewrite alerted_add_events. eexists. split; [reflexivity|].
    by repeat constructor.
Qed.

(** The loop when the directory stays: it ends after the wait is over,
    having done nothing but wait. *)
Lemma acquire_wait_held lockdir current_props jbu wait_sec notify_sec :
  lock_stays lockdir → notify_sec ≠ 0%Z →
  ∀ fuel waited_sec done_first_alert w,
    (wait_sec - waited_sec ≤ Z.of_nat fuel)%Z →
    lockdir ∈ dirs (fs w) → caller_ok (props w) →
    ∃ w' waited evs,
      acquire_wait fuel lockdir current_props jbu wait_sec notify_sec
        waited_sec done_first_alert w
      = (w', Ok (Some waited))
      ∧ (wait_sec ≤ waited)%Z ∧ (waited_sec ≤ waited)%Z
      ∧ (waited < wait_sec + 10 ∨ waited = waited_sec)%Z
      ∧ props w' = props w ∧ ext w' = ext w ∧ lockdir ∈ dirs (fs w')
      ∧ trace w' = trace w ++ evs ∧ Forall waiting_event evs.
Proof.
  intros Hstays Hnotify fuel.
  induction fuel as [|fuel IH]; intros waited_sec done_first_alert w Hfuel
    Hdir Hok.
  - rewrite acquire_wait_done by lia.
    exists w, waited_sec, []. rewrite app_nil_r.
    repeat split; first [done | lia | by right].
  - destruct (decide (wait_sec ≤ waited_sec)%Z) as [Hle|Hlt].
    { rewrite acquire_wait_done by lia.
      exists w, waited_sec, []. rewrite app_nil_r.
      repeat split; first [done | lia | by right]. }
    cbn [acquire_wait]. rewrite decide_True by lia.
    erewrite run_bind_ok; cycle 1.
    { erewrite run_try_raise
        by (erewrite run_seq_raise by (by apply run_mkdir_exists); reflexivity).
      lazy beta iota. rewrite decide_False by (by intros []). reflexivity. }
    destruct (run_queue_alert current_props notify_sec waited_sec
                done_first_alert (log_event (EvFs (Mkdir lockdir)) w))
      as (evs1 & Hq & Hevs1); [done..|].
    rewrite (run_bind_ok _ _ _ _ _ Hq).
    erewrite run_seq_ok by reflexivity.
    edestruct (IH (waited_sec + 10)%Z true) as
      (w' & waited & evs2 & Hrun & Hw1 & Hw2 & Hw3 & Hprops & Hext & Hdir'
       & Htrace & Hevs2); cycle 3.
    { exists w', waited, (EvFs (Mkdir lockdir) :: evs1 ++ EvSleep 10 :: evs2).
      split; [exact Hrun|].
      split; [done|]. split; [lia|]. split; [left; lia|].
      split; [by rewrite Hprops|]. split; [by rewrite Hext|].
      split; [done|]. split.
      - rewrite Htrace. simpl. by rewrite <-!app_assoc.
      - apply Forall_cons. split; [done|]. apply Forall_app. split; [done|].
        by apply Forall_cons. }
    + lia.
    + simpl. by apply Hstays.
    + done.
Qed.

End AcquireLoop.

Section AcquireOutcome.
Context `{C : Collaborators}.


Lemma run_read_properties_missing lockdir w :
  files (fs w) !! (lockdir, "deploy.prop") = None →
  _read_properties lockdir w
  = (w, Raise (IOError (Some ENOENT) "No such file or directory")).
Proof.
  intros Hfile. unfold _read_properties.
  apply run_bind_raise. unfold read_file. by rewrite Hfile.
Qed.

(** C5, where the code departs from it.  The lock directory is there and
    stays, but the record in it cannot be read (there is no deploy.prop).
    The caller waits as it should, with no elapsed wait and an unknown
    holder; then, instead of the stuck-lock alert and the timeout error,
    it raises KeyError: the end of the function indexes the empty dict
    that stands for the unread record.  No ERROR line was logged. *)
Theorem acquire_unreadable_holder_keyerror jbu wait_sec notify_sec w lockdir :
  props w !! "LOCKDIR" = Some lockdir →
  lockdir ∈ dirs (fs w) →
  files (fs w) !! (lockdir, "deploy.prop") = None →
  caller_ok (props w) → lock_stays lockdir → notify_sec ≠ 0%Z →
  ∃ w' evs,
    acquire_deploy_lock jbu wait_sec notify_sec w
    = (w', Raise (KeyError "POSSIBLE_NEXT_STEPS"))
    ∧ trace w' = trace w ++ evs
    ∧ Forall waiting_event evs.
Proof.
  intros Hlockdir Hdir Hfile Hok Hstays Hnotify.
  unfold acquire_deploy_lock.
  rewrite run_get_props, (getitem_Some _ _ _ Hlockdir), bind_ret_l.
  erewrite run_bind_ok; cycle 1.
  { erewrite run_try_raise; cycle 1.
    { apply run_bind_raise. by apply run_read_properties_missing. }
    reflexivity. }
  cbv zeta. simpl fst. simpl snd.
  destruct (acquire_wait_held lockdir ∅ jbu wait_sec notify_sec Hstays
              Hnotify (Z.to_nat (wait_sec - 0)) 0%Z false w)
    as (w1 & waited & evs & Hrun & _ & _ & _ & _ & _ & _ & Htrace & Hevs);
    [lia|done|done|].
  rewrite (run_bind_ok _ _ _ _ _ Hrun).
  unfold acquire_timeout.
  rewrite (getitem_None _ _ (lookup_empty _)), bind_raise_l.
  by exists w1, evs.
Qed.

End AcquireOutcome.

(** ** Rollback *)

Section Rollback.
Context `{C : Collaborators}.

(** What [_rollback_deploy] does when the platform says that another
    version is live. *)
Lemma run_rollback_skips props w w1 live version rollback_to :
  _current_gae_version w = (w1, Ok live) →
  props !! "VERSION_NAME" = Some version →
  props !! "ROLLBACK_TO" = Some rollback_to →
  live ≠ version →
  _rollback_deploy props w
  = (log_event (EvLog INFO (skipping_text version live rollback_to)) w1,
     Ok true).
Proof.
  intros Hlive Hversion Hrollback Hne. unfold _rollback_deploy.
  rewrite (run_bind_ok _ _ _ _ _ Hlive).
  rewrite (getitem_Some _ _ _ Hversion), (getitem_Some _ _ _ Hrollback).
  rewrite bind_ret_l, decide_True by done.
  rewrite !bind_ret_l.
  rewrite (fmt_Ok _ _ (skipping_text version live rollback_to))
    by (unfold skipping_text; fmt_eval).
  rewrite bind_ret_l. reflexivity.
Qed.

(** C7.  When the platform answers that the live version is not the
    version of this deploy, [_rollback_deploy] returns True, and all it
    did was to fetch the live version and to write log lines: no git tag,
    no push and no call of the deploy executor is among its events, and
    the file system is untouched. *)
Theorem rollback_skips_when_not_live props w w1 live version rollback_to :
  _current_gae_version w = (w1, Ok live) →
  props !! "VERSION_NAME" = Some version →
  props !! "ROLLBACK_TO" = Some rollback_to →
  live ≠ version →
  ∃ w' evs,
    _rollback_deploy props w = (w', Ok true)
    ∧ trace w' = trace w ++ evs
    ∧ Forall lookup_only evs
    ∧ last evs = Some (EvLog INFO (skipping_text version live rollback_to))
    ∧ fs w' = fs w ∧ ext w' = ext w1.
Proof.
  intros Hlive Hversion Hrollback Hne.
  destruct (quiet_current_gae_version w) as (Hfs & _ & evs & Htrace & Hevs).
  rewrite Hlive in Hfs, Htrace. simpl in Hfs, Htrace.
  exists (log_event (EvLog INFO (skipping_text version live rollback_to)) w1),
    (evs ++ [EvLog INFO (skipping_text version live rollback_to)]).
  split; [by apply run_rollback_skips|].
  simpl. rewrite Htrace, (assoc_L (++)).
  repeat split; [|by rewrite last_snoc|done].
  apply Forall_app. split; [done|]. by apply Forall_singleton.
Qed.

(** What [_rollback_deploy] does when the platform says that the version
    of this deploy is live. *)
Lemma run_rollback_live props w w1 version rollback_to name room sender :
  _current_gae_version w = (w1, Ok version) →
  props !! "VERSION_NAME" = Some version →
  props !! "ROLLBACK_TO" = Some rollback_to →
  props !! "DEPLOYER_HIPCHAT_NAME" = Some name →
  props !! "HIPCHAT_ROOM" = Some room →
  props !! "HIPCHAT_SENDER" = Some sender →
  let w2 := alerted room sender
              (name +:+ " " +:+ rolling_back_text rollback_to version)
              INFO None false w1 in
  _rollback_deploy props w
  = match rollback_steps props w2 with
    | (w3, Ok _) => (w3, Ok true)
    | (w3, Raise e) =>
        (alerted room sender
           (name +:+ " " +:+ rollback_failed_text rollback_to)
           CRITICAL None false
           (log_event (EvLog ERROR "Auto-rollback failed") w3),
         Ok false)
    end.
Proof.
  intros Hlive Hversion Hrollback Hname Hroom Hsender w2.
  unfold _rollback_deploy.
  rewrite (run_bind_ok _ _ _ _ _ Hlive).
  rewrite (getitem_Some _ _ _ Hversion), (getitem_Some _ _ _ Hrollback).
  rewrite bind_ret_l, decide_False by (by intros []).
  rewrite !bind_ret_l.
  rewrite (fmt_Ok _ _ (rolling_back_text rollback_to version))
    by (unfold rolling_back_text; fmt_eval).
  rewrite bind_ret_l.
  erewrite run_seq_ok by (by apply run_alert). fold w2.
  unfold try_except.
  destruct (rollback_steps props w2) as [w3 [[]|e]] eqn:Hsteps.
  - erewrite run_seq_ok by done. reflexivity.
  - erewrite run_seq_raise by done.
    erewrite run_seq_ok by reflexivity.
    rewrite ?bind_ret_l.
    rewrite (fmt_Ok _ _ (rollback_failed_text rollback_to))
      by (unfold rollback_failed_text; fmt_eval).
    rewrite bind_ret_l.
    erewrite run_seq_ok by (by apply run_alert). reflexivity.
Qed.

(** C8, where the code departs from it.  The re-read of the live version
    is the first step of the rollback sequence, and it is before the
    [try:] of [_rollback_deploy]: for every record, when that read fails
    the exception leaves [_rollback_deploy] as it was raised.  No boolean
    is returned, and all the function did was to fetch the URL and to
    write the log lines of the retries: no alert, critical or other, is
    sent, and the file system is untouched. *)
Theorem rollback_raises_when_version_read_fails props w w1 e :
  _current_gae_version w = (w1, Raise e) →
  _rollback_deploy props w = (w1, Raise e)
  ∧ fs w1 = fs w
  ∧ ∃ evs, trace w1 = trace w ++ evs ∧ Forall lookup_only evs.
Proof.
  intros Hlive.
  destruct (quiet_current_gae_version w) as (Hfs & _ & evs & Htrace & Hevs).
  rewrite Hlive in Hfs, Htrace. simpl in Hfs, Htrace.
  split; [|split; [exact Hfs|by exists evs]].
  unfold _rollback_deploy. by apply run_bind_raise.
Qed.

(** X28.  The part of the rollback that is inside the [try:].  Once the
    platform has answered which version is live, and for a record that
    has the fields the alerts read, [_rollback_deploy] returns a boolean
    and does not raise; a failure of any step inside its [try:] (tagging
    the bad version, pushing the tags, switching back to the rollback
    target, checking the bad tag of the target) is logged, reported by a
    critical alert that gives the manual command, and turned into
    False. *)
Theorem rollback_absorbs_failures props w w1 live version rollback_to name
    room sender :
  _current_gae_version w = (w1, Ok live) →
  props !! "VERSION_NAME" = Some version →
  props !! "ROLLBACK_TO" = Some rollback_to →
  props !! "DEPLOYER_HIPCHAT_NAME" = Some name →
  props !! "HIPCHAT_ROOM" = Some room →
  props !! "HIPCHAT_SENDER" = Some sender →
  (∃ w' b, _rollback_deploy props w = (w', Ok b))
  ∧ (∀ w3 e,
       live = version →
       rollback_steps props
         (alerted room sender
            (name +:+ " " +:+ rolling_back_text rollback_to version)
            INFO None false w1) = (w3, Raise e) →
       _rollback_deploy props w
       = (alerted room sender
            (name +:+ " " +:+ rollback_failed_text rollback_to)
            CRITICAL None false
            (log_event (EvLog ERROR "Auto-rollback failed") w3),
          Ok false)).
Proof.
  intros Hlive Hversion Hrollback Hname Hroom Hsender. split.
  - destruct (decide (live = version)) as [->|Hne].
    + rewrite (run_rollback_live props w w1 version rollback_to name room sender)
        by done.
      destruct (rollback_steps props _) as [w3 [[]|e]]; eauto.
    + erewrite run_rollback_skips by done. eauto.
  - intros w3 e -> Hsteps.
    rewrite (run_rollback_live props w w1 version rollback_to name room sender)
      by done.
    by rewrite Hsteps.
Qed.

End Rollback.

(** ** Synchronising with master *)

Section MergeFromMaster.
Context `{C : Collaborators}.

(** The message of the error for a revision that is not a branch has two
    conversions and is given one argument: building it raises TypeError,
    whatever the branches are. *)
Lemma not_a_branch_message_raises (branches : string) :
  fmt ("%s is not a branch name on the remote, like these:" +:+ NL +:+ "  %s")
      [branches]
  = raise (TypeError "not enough arguments for format string").
Proof. by apply fmt_Raise. Qed.

End MergeFromMaster.

(** ** Taking a run apart *)

Section Inversion.
Context `{C : Collaborators}.

Lemma bind_inv {A B} (m : M A) (k : A → M B) w w' r :
  bind m k w = (w', r) →
  (∃ e, m w = (w', Raise e) ∧ r = Raise e)
  ∨ (∃ w1 a, m w = (w1, Ok a) ∧ k a w1 = (w', r)).
Proof.
  unfold bind. destruct (m w) as [w1 [a|e]].
  - intros H. right. by exists w1, a.
  - intros [= <- <-]. left. by exists e.
Qed.

Lemma bind_ok_inv {A B} (m : M A) (k : A → M B) w w' b :
  bind m k w = (w', Ok b) →
  ∃ w1 a, m w = (w1, Ok a) ∧ k a w1 = (w', Ok b).
Proof.
  intros [(e & _ & [=])|H]%bind_inv. exact H.
Qed.

Lemma seq_ok_inv {A B} (m : M A) (k : M B) w w' b :
  (m;; k) w = (w', Ok b) → ∃ w1 a, m w = (w1, Ok a) ∧ k w1 = (w', Ok b).
Proof. apply (bind_ok_inv m (λ _, k)). Qed.

Lemma run_seq_then {A B} (m : M A) (k : M B) w w' a r :
  m w = (w', Ok a) → k w' = r → (m;; k) w = r.
Proof. intros Hm <-. by apply run_seq_ok with a. Qed.

Lemma run_bind_then {A B} (m : M A) (k : A → M B) w w' a r :
  m w = (w', Ok a) → k a w' = r → bind m k w = r.
Proof. intros Hm <-. by apply run_bind_ok. Qed.


Lemma run_call c w e' r :
  ext_step c (ext w) = (e', r) →
  call c w = (set_ext e' (log_event (EvExt c) w), r).
Proof. unfold call. by intros ->. Qed.

Lemma count_events_app p evs evs' :
  count_events p (evs ++ evs') = (count_events p evs + count_events p evs')%nat.
Proof. unfold count_events. by rewrite List.filter_app, length_app. Qed.

End Inversion.

(** ** Fetching a URL *)

Section SafeUrlopen.
Context `{C : Collaborators}.

Lemma fmt_retry url :
  fmt "url-fetch of %s %s failed, retrying..." [repr_list [url]; repr_dict ∅]
  = ret (retry_text url).
Proof. apply fmt_Ok. unfold retry_text. fmt_eval. Qed.

Lemma safe_urlopen_loop_ok n url w s rc text :
  ext_step (UrlOpen url) (ext w) = (s, Ok (rc, text)) →
  _safe_urlopen_loop n url w
  = (set_ext s (log_event (EvExt (UrlOpen url)) w), Ok text).
Proof.
  intros Hstep. destruct n; cbn [_safe_urlopen_loop];
    (erewrite run_try_ok; [reflexivity|]);
    by erewrite run_bind_ok by (by apply run_call).
Qed.

Lemma safe_urlopen_loop_last url w s e :
  ext_step (UrlOpen url) (ext w) = (s, Raise e) →
  _safe_urlopen_loop 0 url w
  = (set_ext s (log_event (EvExt (UrlOpen url)) w), Raise e).
Proof.
  intros Hstep. cbn [_safe_urlopen_loop].
  by erewrite run_try_raise by (apply run_bind_raise; by apply run_call).
Qed.

Lemma safe_urlopen_loop_retry n url w s e :
  ext_step (UrlOpen url) (ext w) = (s, Raise e) →
  _safe_urlopen_loop (S n) url w
  = _safe_urlopen_loop n url
      (log_event (EvLog WARNING (retry_text url))
         (set_ext s (log_event (EvExt (UrlOpen url)) w))).
Proof.
  intros Hstep. cbn [_safe_urlopen_loop].
  erewrite run_try_raise by (apply run_bind_raise; by apply run_call).
  rewrite fmt_retry, bind_ret_l.
  by erewrite run_seq_ok by reflexivity.
Qed.

(** X1.  [_safe_urlopen] gives up at the third failure in a row: it has
    then fetched the URL three times, logged two warnings in between, and
    the error it raises is the one of the third attempt. *)
Theorem safe_urlopen_gives_up_after_three url w s1 e1 s2 e2 s3 e3 :
  ext_step (UrlOpen url) (ext w) = (s1, Raise e1) →
  ext_step (UrlOpen url) s1 = (s2, Raise e2) →
  ext_step (UrlOpen url) s2 = (s3, Raise e3) →
  _safe_urlopen url w
  = (set_ext s3
       (add_events [EvExt (UrlOpen url); EvLog WARNING (retry_text url);
                    EvExt (UrlOpen url); EvLog WARNING (retry_text url);
                    EvExt (UrlOpen url)] w),
     Raise e3).
Proof.
  intros H1 H2 H3. unfold _safe_urlopen.
  rewrite (safe_urlopen_loop_retry _ _ _ _ _ H1).
  rewrite (safe_urlopen_loop_retry _ _ _ s2 e2) by exact H2.
  rewrite (safe_urlopen_loop_last _ _ s3 e3) by exact H3.
  f_equal. unfold set_ext, log_event, add_events. simpl.
  by rewrite <-!(assoc_L (++)).
Qed.

Lemma safe_urlopen_loop_count n url w :
  ∃ evs k,
    trace (_safe_urlopen_loop n url w).1 = trace w ++ evs
    ∧ (1 ≤ k ≤ S n)%nat
    ∧ count_events (is_fetch url) evs = k
    ∧ count_events is_warning evs = (k - 1)%nat
    ∧ length evs = (2 * k - 1)%nat
    ∧ (is_ok (_safe_urlopen_loop n url w).2 = false → k = S n).
Proof.
  revert w. induction n as [|n IH]; intros w.
  - destruct (ext_step (UrlOpen url) (ext w)) as [s [[rc text]|e]] eqn:Hstep.
    + rewrite (safe_urlopen_loop_ok _ _ _ _ _ _ Hstep).
      exists [EvExt (UrlOpen url)], 1%nat. simpl.
      unfold count_events. simpl. rewrite bool_decide_eq_true_2 by done.
      repeat split; first [done | lia].
    + rewrite (safe_urlopen_loop_last _ _ _ _ Hstep).
      exists [EvExt (UrlOpen url)], 1%nat. simpl.
      unfold count_events. simpl. rewrite bool_decide_eq_true_2 by done.
      repeat split; first [done | lia].
  - destruct (ext_step (UrlOpen url) (ext w)) as [s [[rc text]|e]] eqn:Hstep.
    + rewrite (safe_urlopen_loop_ok _ _ _ _ _ _ Hstep).
      exists [EvExt (UrlOpen url)], 1%nat. simpl.
      unfold count_events. simpl. rewrite bool_decide_eq_true_2 by done.
      repeat split; first [done | lia].
    + rewrite (safe_urlopen_loop_retry _ _ _ _ _ Hstep).
      destruct (IH (log_event (EvLog WARNING (retry_text url))
                      (set_ext s (log_event (EvExt (UrlOpen url)) w))))
        as (evs & k & Htrace & Hk & Hfetch & Hwarn & Hlen & Hfail).
      exists (EvExt (UrlOpen url) :: EvLog WARNING (retry_text url) :: evs),
        (S k).
      split.
      { rewrite Htrace. simpl. by rewrite <-!(assoc_L (++)). }
      split; [lia|].
      change (EvExt (UrlOpen url) :: EvLog WARNING (retry_text url) :: evs)
        with ([EvExt (UrlOpen url); EvLog WARNING (retry_text url)] ++ evs).
      rewrite !count_events_app, Hfetch, Hwarn, length_app, Hlen.
      unfold count_events. simpl. rewrite bool_decide_eq_true_2 by done.
      simpl. repeat split; first [lia | intros Hf; apply Hfail in Hf; lia].
Qed.

(** X2.  Every run of [_safe_urlopen] fetches the URL at least once and at
    most three times, logs one warning between two fetches and nothing
    else; and it only fails after the third fetch. *)
Theorem safe_urlopen_fetches_at_most_thrice url w :
  ∃ evs k,
    trace (_safe_urlopen url w).1 = trace w ++ evs
    ∧ (1 ≤ k ≤ 3)%nat
    ∧ count_events (is_fetch url) evs = k
    ∧ count_events is_warning evs = (k - 1)%nat
    ∧ length evs = (2 * k - 1)%nat
    ∧ (is_ok (_safe_urlopen url w).2 = false → k = 3%nat).
Proof.
  destruct (safe_urlopen_loop_count 2 url w)
    as (evs & k & Htrace & Hk & Hfetch & Hwarn & Hlen & Hfail).
  exists evs, k. unfold _safe_urlopen.
  split; [exact Htrace|]. split; [lia|]. split; [exact Hfetch|].
  split; [exact Hwarn|]. split; [exact Hlen|]. exact Hfail.
Qed.

End SafeUrlopen.

(** ** Steps that always return *)

Section Returns.
Context `{C : Collaborators}.

Lemma returns_ret {A} (a : A) : always_returns (ret a).
Proof. done. Qed.

Lemma returns_fmt f args s : pyformat f args = Ok s → always_returns (fmt f args).
Proof. intros H w. unfold fmt, lift. by rewrite H. Qed.

Lemma returns_getitem d k v : d !! k = Some v → always_returns (getitem d k).
Proof. intros H w. unfold getitem. by rewrite H. Qed.

Lemma returns_emit ev : always_returns (emit ev).
Proof. done. Qed.

Lemma returns_logging lvl msg : always_returns (logging lvl msg).
Proof. done. Qed.

Lemma returns_get_props : always_returns get_props.
Proof. done. Qed.

Lemma returns_time_sleep secs : always_returns (time_sleep secs).
Proof. done. Qed.

Lemma returns_bind {A B} (m : M A) (k : A → M B) :
  always_returns m → (∀ a, always_returns (k a)) → always_returns (bind m k).
Proof.
  intros Hm Hk w. unfold bind. specialize (Hm w).
  destruct (m w) as [w1 [a|e]]; [apply Hk|done].
Qed.

Lemma returns_seq {A B} (m : M A) (k : M B) :
  always_returns m → always_returns k → always_returns (m;; k).
Proof. intros Hm Hk. by apply (returns_bind m (λ _, k)). Qed.

(** A [try:] whose handlers return returns, whatever its body does. *)
Lemma returns_try_except {A} (m : M A) (h : exn → M A) :
  (∀ e, always_returns (h e)) → always_returns (try_except m h).
Proof.
  intros Hh w. unfold try_except. destruct (m w) as [w1 [a|e]]; [done|apply Hh].
Qed.

Lemma returns_try_except_else {A B} (m : M A) (h : exn → M B) (k : A → M B) :
  (∀ e, always_returns (h e)) → (∀ a, always_returns (k a)) →
  always_returns (try_except_else m h k).
Proof.
  intros Hh Hk w. unfold try_except_else.
  destruct (m w) as [w1 [a|e]]; [apply Hk|apply Hh].
Qed.

Lemma returns_run {A} (m : M A) w :
  always_returns m → ∃ w' a, m w = (w', Ok a).
Proof.
  intros Hm. specialize (Hm w). destruct (m w) as [w' [a|e]]; [|done].
  by exists w', a.
Qed.

Lemma returns_alert d text severity color html prefix :
  is_Some (d !! "DEPLOYER_HIPCHAT_NAME") → is_Some (d !! "HIPCHAT_ROOM") →
  is_Some (d !! "HIPCHAT_SENDER") →
  always_returns (_alert d text severity color html prefix).
Proof.
  intros [name Hname] [room Hroom] [sender Hsender] w.
  destruct prefix.
  - by rewrite (run_alert _ _ _ _ _ _ _ _ _ Hname Hroom Hsender).
  - by rewrite (run_alert_plain _ _ _ _ _ _ _ _ Hroom Hsender).
Qed.

Lemma returns_finish_url d extra :
  is_Some (d !! "JENKINS_URL") → is_Some (d !! "TOKEN") →
  always_returns (_finish_url d extra).
Proof.
  intros [url Hurl] [token Htoken] w.
  by rewrite (run_finish_url _ _ _ _ Hurl Htoken).
Qed.

Lemma returns_email_to_hipchat_name email :
  always_returns (_email_to_hipchat_name email).
Proof.
  destruct email as [address|]; [|done].
  unfold _email_to_hipchat_name.
  apply returns_bind.
  - apply returns_try_except. intros e.
    apply returns_bind; [by eapply returns_fmt; fmt_eval|]. intros msg.
    apply returns_seq; [apply returns_logging|apply returns_ret].
  - intros d. apply returns_bind; [by eapply returns_fmt; fmt_eval|].
    intros guess. apply returns_ret.
Qed.

End Returns.

(** ** Names, URLs and the output of commands *)

Section Names.
Context `{C : Collaborators}.



(** X4.  [_current_gae_version] gives the major part of the version id
    that the site reports: what it returns has no dot, and for an id
    [major.minor] it is [major]. *)
Theorem current_gae_version_is_major w :
  (∀ w' v, _current_gae_version w = (w', Ok v) → contains "." v = false)
  ∧ (∀ w1 r major minor,
       _safe_urlopen "http://www.khanacademy.org/api/internal/dev/version" w
       = (w1, Ok r) →
       json_version_id r = Ok (major +:+ "." +:+ minor) →
       contains "." major = false →
       _current_gae_version w = (w1, Ok major)).
Proof.
  split.
  - intros w' v Hrun. unfold _current_gae_version in Hrun.
    apply bind_ok_inv in Hrun as (w1 & r & _ & Hrun).
    apply bind_ok_inv in Hrun as (w2 & version_id & _ & Hrun).
    injection Hrun as _ <-.
    apply (PyFacts.split_pieces_free _ version_id).
    pose proof (PyFacts.split_nonempty "." version_id) as Hne.
    destruct (split "." version_id); [done|]. by left.
  - intros w1 r major minor Hfetch Hjson Hmajor.
    unfold _current_gae_version.
    rewrite (run_bind_ok _ _ _ _ _ Hfetch), Hjson.
    change (lift (Ok ?x)) with (ret x). rewrite bind_ret_l.
    change ("." +:+ minor) with (String "." minor).
    by rewrite PyFacts.split_app_sep.
Qed.

Lemma rstrip_by_idemp p s : rstrip_by p (rstrip_by p s) = rstrip_by p s.
Proof.
  induction s as [|c s IH]; simpl; [done|].
  destruct (rstrip_by p s) as [|a r] eqn:Hr.
  - destruct (p c) eqn:Hc; simpl; [done|]. by rewrite Hc.
  - simpl in *. by rewrite IH.
Qed.

Lemma finish_url_insert d url extra :
  _finish_url (<["JENKINS_URL" := url]> d) extra
  = let* token := getitem d "TOKEN" in
    fmt "%s/job/deploy-finish/parambuild?TOKEN=%s&%s"
      [rstrip_slash url; token; urlencode extra].
Proof.
  unfold _finish_url.
  rewrite (getitem_Some _ _ url) by apply lookup_insert_eq.
  rewrite bind_ret_l. unfold getitem. by rewrite lookup_insert_ne.
Qed.

Lemma set_default_url_insert d url extra :
  _set_default_url (<["JENKINS_URL" := url]> d) extra
  = let* token := getitem d "TOKEN" in
    let* version := getitem d "VERSION_NAME" in
    fmt "%s/job/deploy-set-default/parambuild?TOKEN=%s&VERSION_NAME=%s&%s"
      [rstrip_slash url; token; version; urlencode extra].
Proof.
  unfold _set_default_url.
  rewrite (getitem_Some _ _ url) by apply lookup_insert_eq.
  rewrite bind_ret_l. unfold getitem. by rewrite !lookup_insert_ne.
Qed.

(** X5.  The links that [_finish_url] and [_set_default_url] build do not
    depend on the slashes at the end of JENKINS_URL: with one more slash,
    and with all of them removed, the result is the same. *)
Theorem job_urls_ignore_trailing_slashes d url extra :
  _finish_url (<["JENKINS_URL" := url +:+ "/"]> d) extra
  = _finish_url (<["JENKINS_URL" := url]> d) extra
  ∧ _finish_url (<["JENKINS_URL" := rstrip_slash url]> d) extra
    = _finish_url (<["JENKINS_URL" := url]> d) extra
  ∧ _set_default_url (<["JENKINS_URL" := url +:+ "/"]> d) extra
    = _set_default_url (<["JENKINS_URL" := url]> d) extra
  ∧ _set_default_url (<["JENKINS_URL" := rstrip_slash url]> d) extra
    = _set_default_url (<["JENKINS_URL" := url]> d) extra.
Proof.
  rewrite !finish_url_insert, !set_default_url_insert.
  unfold rstrip_slash.
  rewrite PyFacts.rstrip_by_snoc by done.
  by rewrite rstrip_by_idemp.
Qed.

(** X6.  What [_pipe_command] returns has no white space at its end, and
    a command that exits with a code other than 0 makes it raise
    CalledProcessError with that code and that command. *)
Theorem pipe_command_output_is_stripped cmd w :
  (∀ w' out, _pipe_command cmd w = (w', Ok out) → rstrip out = out)
  ∧ (∀ s rc text,
       ext_step (Subprocess cmd) (ext w) = (s, Ok (rc, text)) → rc ≠ 0%Z →
       (_pipe_command cmd w).2 = Raise (CalledProcessError rc cmd)).
Proof.
  split.
  - intros w' out Hrun. unfold _pipe_command in Hrun.
    apply bind_ok_inv in Hrun as (w1 & msg & _ & Hrun).
    apply seq_ok_inv in Hrun as (w2 & [] & _ & Hrun).
    apply bind_ok_inv in Hrun as (w3 & [rc text] & _ & Hrun).
    simpl in Hrun. destruct (decide (rc = 0%Z)); [|done].
    apply bind_ok_inv in Hrun as (w4 & msg' & _ & Hrun).
    apply seq_ok_inv in Hrun as (w5 & [] & _ & Hrun).
    injection Hrun as _ <-. apply rstrip_by_idemp.
  - intros s rc text Hstep Hrc. unfold _pipe_command.
    erewrite fmt_Ok by fmt_eval. rewrite bind_ret_l.
    erewrite run_seq_ok by reflexivity.
    erewrite run_bind_ok by (by apply run_call).
    simpl. by rewrite decide_False.
Qed.

End Names.

(** ** Moving, releasing and taking back the lock directory *)

(** Membership in the directories after some were added and removed. *)
Ltac dirs_go :=
  rewrite ?elem_of_union, ?elem_of_difference, ?elem_of_singleton;
  intuition congruence.

Section Suffix.

Lemma string_length_app (a b : string) :
  String.length (a +:+ b) = (String.length a + String.length b)%nat.
Proof.
  induction a as [|c a IH]; [done|].
  change (S (String.length (a +:+ b)) = S (String.length a + String.length b)).
  by rewrite IH.
Qed.

Lemma substring_all (s : string) : String.substring 0 (String.length s) s = s.
Proof. induction s as [|c s IH]; simpl; [done|]. by rewrite IH. Qed.

Lemma substring_prefix (a b : string) :
  String.substring 0 (String.length a) (a +:+ b) = a.
Proof.
  induction a as [|c a IH]; simpl.
  - by destruct b.
  - change (String c a +:+ b) with (String c (a +:+ b)). by rewrite IH.
Qed.

Lemma substring_suffix (a b : string) :
  String.substring (String.length a) (String.length b) (a +:+ b) = b.
Proof.
  induction a as [|c a IH]; simpl.
  - apply substring_all.
  - change (String c a +:+ b) with (String c (a +:+ b)). exact IH.
Qed.

(** [(a + b)[:-len(b)]] is [a], and [(a + b).endswith(b)] holds. *)
Lemma drop_last_app (a b : string) : drop_last (String.length b) (a +:+ b) = a.
Proof.
  unfold drop_last. rewrite string_length_app.
  replace (String.length a + String.length b - String.length b)%nat
    with (String.length a) by lia.
  apply substring_prefix.
Qed.

Lemma endswith_app (a b : string) : endswith (a +:+ b) b = true.
Proof.
  unfold endswith. rewrite string_length_app.
  rewrite bool_decide_eq_true_2 by lia.
  replace (String.length a + String.length b - String.length b)%nat
    with (String.length a) by lia.
  rewrite substring_suffix. by rewrite bool_decide_eq_true_2.
Qed.

Lemma backup_ne (lockdir : string) : backup_of lockdir ≠ lockdir.
Proof.
  unfold backup_of. intros Heq.
  apply (f_equal String.length) in Heq. rewrite string_length_app in Heq.
  simpl in Heq. lia.
Qed.

End Suffix.

Section LockDir.
Context `{C : Collaborators}.

Lemma run_rmtree path w :
  path ∈ dirs (fs w) →
  shutil_rmtree path w
  = (set_fs (removed path (fs w)) (log_event (EvFs (Rmtree path)) w), Ok ()).
Proof.
  intros Hdir. unfold shutil_rmtree. erewrite run_seq_ok by reflexivity.
  unfold step. simpl. by rewrite decide_True.
Qed.

Lemma run_rmtree_missing path w :
  path ∉ dirs (fs w) →
  shutil_rmtree path w = (log_event (EvFs (Rmtree path)) w, Raise no_such_dir).
Proof.
  intros Hdir. unfold shutil_rmtree. erewrite run_seq_ok by reflexivity.
  unfold step. simpl. by rewrite decide_False.
Qed.

Lemma run_rename old new w :
  old ∈ dirs (fs w) → new ∉ dirs (fs w) →
  os_rename old new w
  = (set_fs (renamed old new (fs w)) (log_event (EvFs (Rename old new)) w),
     Ok ()).
Proof.
  intros Hold Hnew. unfold os_rename. erewrite run_seq_ok by reflexivity.
  unfold step. simpl. rewrite decide_True by done.
  by rewrite decide_False by (by intros [? _]).
Qed.

Lemma run_rename_missing old new w :
  old ∉ dirs (fs w) →
  os_rename old new w
  = (log_event (EvFs (Rename old new)) w, Raise no_such_dir).
Proof.
  intros Hold. unfold os_rename. erewrite run_seq_ok by reflexivity.
  unfold step. simpl. by rewrite decide_False.
Qed.

(** No file is left under the old name of a directory that was moved. *)
Lemma renamed_old old new f name :
  old ≠ new → files (renamed old new f) !! (old, name) = None.
Proof.
  intros Hne. unfold renamed. simpl.
  apply not_elem_of_list_to_map_1. intros Hin.
  apply list_elem_of_fmap in Hin as ([k v] & Hk & Hin). simpl in Hk.
  apply list_elem_of_fmap in Hin as ([[d n] v'] & [= -> ->] & _).
  simpl in Hk. destruct (decide (d = old)); injection Hk as Hk _; congruence.
Qed.

Lemma removed_gone path f name : files (removed path f) !! (path, name) = None.
Proof.
  unfold removed. simpl. apply map_lookup_filter_None. right.
  intros v _. simpl. by intros [].
Qed.

Lemma moved_record_update new t (d : gmap string string) :
  dict_update d (<["LOCK_ACQUIRE_TIME" := pretty t]> {[ "LOCKDIR" := new ]})
  = moved_record new t d.
Proof.
  unfold dict_update, moved_record.
  by rewrite <-insert_union_l, <-insert_union_singleton_l.
Qed.

(** [_update_properties(props, {'LOCKDIR': new})]: the record gets the new
    LOCKDIR and, with it, the current time as LOCK_ACQUIRE_TIME. *)
Lemma run_update_lockdir new w :
  new ∈ dirs (fs w) →
  _update_properties {[ "LOCKDIR" := new ]} w
  = (written new (moved_record new (now w) (props w))
       (set_props (moved_record new (now w) (props w)) w),
     Ok ()).
Proof.
  intros Hdir. unfold _update_properties.
  rewrite (lookup_singleton_ne "LOCKDIR" "GIT_SHA1") by done.
  rewrite bind_ret_l. cbv zeta.
  rewrite (lookup_singleton_ne "LOCKDIR" "DEPLOYER_EMAIL") by done.
  rewrite (lookup_singleton_ne "LOCKDIR" "DEPLOYER_USERNAME") by done.
  rewrite bind_ret_l.
  rewrite lookup_singleton_eq.
  erewrite run_bind_ok by reflexivity.
  unfold setdefault.
  rewrite (lookup_singleton_ne "LOCKDIR" "LOCK_ACQUIRE_TIME") by done.
  rewrite lookup_insert_ne by done.
  rewrite (lookup_singleton_ne "LOCKDIR" "POSSIBLE_NEXT_STEPS") by done.
  rewrite run_get_props.
  erewrite run_seq_ok by reflexivity.
  rewrite run_get_props. simpl props.
  rewrite moved_record_update.
  apply run_write_properties; [|done].
  unfold moved_record. rewrite lookup_insert_ne by done.
  apply lookup_insert_eq.
Qed.

Lemma fmt_renaming old new :
  fmt "Renaming %s -> %s" [old; new]
  = ret ("Renaming " +:+ old +:+ " -> " +:+ new).
Proof. apply fmt_Ok. fmt_eval. Qed.

Lemma run_move_lockdir old new w :
  old ∈ dirs (fs w) → new ∉ dirs (fs w) → abspath new = new →
  _move_lockdir old new w = (lock_moved old new w, Ok ()).
Proof.
  intros Hold Hnew Habs. unfold _move_lockdir.
  erewrite run_bind_ok by reflexivity.
  rewrite bool_decide_eq_false_2 by done.
  rewrite seq_ret_l, fmt_renaming, bind_ret_l.
  erewrite run_seq_ok by reflexivity.
  erewrite run_seq_ok by (by apply run_rename).
  rewrite Habs. rewrite run_update_lockdir; [reflexivity|].
  simpl. dirs_go.
Qed.

Lemma run_move_lockdir_taken old new w :
  new ∈ dirs (fs w) →
  _move_lockdir old new w
  = (w, Raise (OSError None ("Lock already held in " +:+ DQ +:+ new +:+ DQ))).
Proof.
  intros Hnew. unfold _move_lockdir.
  erewrite run_bind_ok by reflexivity.
  rewrite bool_decide_eq_true_2 by done.
  erewrite fmt_Ok by (unfold DQ; fmt_eval).
  rewrite bind_ret_l. reflexivity.
Qed.

Lemma run_move_lockdir_missing old new w :
  old ∉ dirs (fs w) → new ∉ dirs (fs w) →
  _move_lockdir old new w
  = (log_event (EvFs (Rename old new))
       (log_event (EvLog INFO ("Renaming " +:+ old +:+ " -> " +:+ new)) w),
     Raise no_such_dir).
Proof.
  intros Hold Hnew. unfold _move_lockdir.
  erewrite run_bind_ok by reflexivity.
  rewrite bool_decide_eq_false_2 by done.
  rewrite seq_ret_l, fmt_renaming, bind_ret_l.
  erewrite run_seq_ok by reflexivity.
  by erewrite run_seq_raise by (by apply run_rename_missing).
Qed.

(** X7.  [_move_lockdir] takes the lock over to [new] only when nobody
    holds it there.  When [new] exists it raises OSError and has done
    nothing.  When it does not, the directory is renamed and the record
    is written again in it: LOCKDIR is [new], LOCK_ACQUIRE_TIME is the
    current time (the time of the original acquisition is lost), every
    other property is as it was, and no file is left under [old]. *)
Theorem move_lockdir_takes_over old new w :
  (new ∈ dirs (fs w) →
   ∃ msg, _move_lockdir old new w = (w, Raise (OSError None msg)))
  ∧ (old ∈ dirs (fs w) → new ∉ dirs (fs w) → abspath new = new →
     ∃ w',
       _move_lockdir old new w = (w', Ok ())
       ∧ dirs (fs w') = {[new]} ∪ dirs (fs w) ∖ {[old]}
       ∧ props w' !! "LOCKDIR" = Some new
       ∧ props w' !! "LOCK_ACQUIRE_TIME" = Some (pretty (now w))
       ∧ (∀ k, k ≠ "LOCKDIR" → k ≠ "LOCK_ACQUIRE_TIME" →
               props w' !! k = props w !! k)
       ∧ files (fs w') !! (new, "deploy.prop")
         = Some (serialize_props (props w'))
       ∧ (∀ name, files (fs w') !! (old, name) = None)).
Proof.
  split.
  - intros Hnew. eexists. by apply run_move_lockdir_taken.
  - intros Hold Hnew Habs. exists (lock_moved old new w).
    split; [by apply run_move_lockdir|].
    assert (old ≠ new) as Hne by (by intros ->).
    unfold lock_moved, moved_record. simpl.
    split; [done|]. split.
    { rewrite lookup_insert_ne by done. apply lookup_insert_eq. }
    split; [apply lookup_insert_eq|]. split.
    { intros k Hk1 Hk2. by rewrite !lookup_insert_ne. }
    split; [apply lookup_insert_eq|].
    intros name. rewrite lookup_insert_ne by congruence.
    by apply renamed_old.
Qed.

End LockDir.

Section Release.
Context `{C : Collaborators}.

(** The first step of [release_deploy_lock]: the old backup goes, whether
    there was one or not. *)
Lemma run_drop_backup b w :
  ∃ w1,
    try_except (shutil_rmtree b)
      (λ why, match why with
              | OSError _ _ => ret ()
              | _ => raise why
              end) w = (w1, Ok ())
    ∧ dirs (fs w1) = dirs (fs w) ∖ {[b]}
    ∧ props w1 = props w ∧ now w1 = now w ∧ ext w1 = ext w
    ∧ trace w1 = trace w ++ [EvFs (Rmtree b)].
Proof.
  destruct (decide (b ∈ dirs (fs w))) as [Hb|Hb].
  - eexists. split.
    { apply run_try_ok. by apply run_rmtree. }
    done.
  - eexists. split.
    { erewrite run_try_raise by (by apply run_rmtree_missing). reflexivity. }
    simpl. split; [|done].
    apply set_eq. intros x. dirs_go.
Qed.

Lemma fmt_released lockdir :
  fmt "Released the deploy lock: %s" [lockdir]
  = ret ("Released the deploy lock: " +:+ lockdir).
Proof. apply fmt_Ok. fmt_eval. Qed.

(** What [release_deploy_lock] does, with a backup, to a lock that is
    held. *)
Lemma run_release_with_backup lockdir w :
  props w !! "LOCKDIR" = Some lockdir →
  lockdir ∈ dirs (fs w) →
  abspath (backup_of lockdir) = backup_of lockdir →
  ∃ w1,
    release_deploy_lock true w
    = (log_event (EvLog INFO ("Released the deploy lock: " +:+ lockdir))
         (lock_moved lockdir (backup_of lockdir) w1),
       Ok ())
    ∧ dirs (fs w1) = dirs (fs w) ∖ {[backup_of lockdir]}
    ∧ props w1 = props w ∧ now w1 = now w
    ∧ trace w1 = trace w ++ [EvFs (Rmtree (backup_of lockdir))].
Proof.
  intros Hlockdir Hdir Habs.
  pose proof (backup_ne lockdir) as Hne.
  destruct (run_drop_backup (backup_of lockdir) w)
    as (w1 & Hdrop & Hdirs & Hprops & Hnow & _ & Htrace).
  assert (lockdir ∈ dirs (fs w1)) as Hdir1 by (rewrite Hdirs; dirs_go).
  assert (backup_of lockdir ∉ dirs (fs w1)) as Hb1 by (rewrite Hdirs; dirs_go).
  exists w1. split; [|done].
  unfold release_deploy_lock.
  rewrite run_get_props, (getitem_Some _ _ _ Hlockdir), bind_ret_l.
  cbv zeta. fold (backup_of lockdir).
  erewrite run_seq_ok by exact Hdrop.
  erewrite run_seq_ok by (apply run_try_ok; by apply run_move_lockdir).
  rewrite fmt_released, bind_ret_l. reflexivity.
Qed.

(** X8.  [release_deploy_lock] with a backup frees the lock and keeps the
    record: the lock directory is gone, so a later stage finds no record
    to read there, and the backup directory holds the record, with
    LOCKDIR set to the backup. *)
Theorem release_keeps_a_backup lockdir w :
  props w !! "LOCKDIR" = Some lockdir →
  lockdir ∈ dirs (fs w) →
  abspath (backup_of lockdir) = backup_of lockdir →
  ∃ w',
    release_deploy_lock true w = (w', Ok ())
    ∧ (lockdir ∉ dirs (fs w')) ∧ backup_of lockdir ∈ dirs (fs w')
    ∧ props w' = moved_record (backup_of lockdir) (now w) (props w)
    ∧ files (fs w') !! (backup_of lockdir, "deploy.prop")
      = Some (serialize_props (props w'))
    ∧ (_read_properties lockdir w').2
      = Raise (IOError (Some ENOENT) "No such file or directory").
Proof.
  intros Hlockdir Hdir Habs.
  pose proof (backup_ne lockdir) as Hne.
  destruct (run_release_with_backup lockdir w Hlockdir Hdir Habs)
    as (w1 & Hrun & Hdirs & Hprops & Hnow & _).
  eexists. split; [exact Hrun|].
  unfold lock_moved. simpl. rewrite Hdirs, Hprops, Hnow.
  split; [dirs_go|]. split; [dirs_go|]. split; [done|].
  split; [apply lookup_insert_eq|].
  rewrite run_read_properties_missing; [done|].
  simpl. rewrite lookup_insert_ne by congruence.
  apply renamed_old. congruence.
Qed.

(** X9.  [release_deploy_lock] without a backup, as a successful deploy
    ends: the lock directory and its files are removed, the backup of an
    earlier release is removed too, and the props are left as they are. *)
Theorem release_without_backup_removes_the_lock lockdir w :
  props w !! "LOCKDIR" = Some lockdir →
  lockdir ∈ dirs (fs w) →
  ∃ w',
    release_deploy_lock false w = (w', Ok ())
    ∧ (lockdir ∉ dirs (fs w')) ∧ (backup_of lockdir ∉ dirs (fs w'))
    ∧ (∀ name, files (fs w') !! (lockdir, name) = None)
    ∧ props w' = props w.
Proof.
  intros Hlockdir Hdir.
  pose proof (backup_ne lockdir) as Hne.
  destruct (run_drop_backup (backup_of lockdir) w)
    as (w1 & Hdrop & Hdirs & Hprops & _ & _ & _).
  assert (lockdir ∈ dirs (fs w1)) as Hdir1 by (rewrite Hdirs; dirs_go).
  eexists. split.
  { unfold release_deploy_lock.
    rewrite run_get_props, (getitem_Some _ _ _ Hlockdir), bind_ret_l.
    cbv zeta. fold (backup_of lockdir).
    erewrite run_seq_ok by exact Hdrop.
    erewrite run_seq_ok by (apply run_try_ok; by apply run_rmtree).
    rewrite fmt_released, bind_ret_l. reflexivity. }
  simpl. rewrite Hdirs.
  split; [dirs_go|]. split; [dirs_go|].
  split; [intros name; apply removed_gone|done].
Qed.

Lemma fmt_not_released lockdir why :
  fmt ("Could not release the deploy-lock (%s); it's not being held? "
       +:+ "(%s)") [lockdir; exn_str why]
  = ret (not_released_text lockdir why).
Proof. apply fmt_Ok. unfold not_released_text. fmt_eval. Qed.

Lemma fmt_not_released_error why :
  fmt "Could not release the deploy-lock (%s)" [exn_str why]
  = ret ("Could not release the deploy-lock (" +:+ exn_str why +:+ ")").
Proof. apply fmt_Ok. fmt_eval. Qed.

(** X10.  Releasing a lock that is not held (its directory is not there)
    fails with RuntimeError, with or without a backup; the failure is
    reported by an alert at severity ERROR, and the props are left as
    they are. *)
Theorem release_of_a_free_lock_fails lockdir backup_lockfile w name room sender :
  props w !! "LOCKDIR" = Some lockdir →
  lockdir ∉ dirs (fs w) →
  props w !! "DEPLOYER_HIPCHAT_NAME" = Some name →
  props w !! "HIPCHAT_ROOM" = Some room →
  props w !! "HIPCHAT_SENDER" = Some sender →
  ∃ w' evs,
    release_deploy_lock backup_lockfile w
    = (w', Raise (not_released_error no_such_dir))
    ∧ props w' = props w ∧ (lockdir ∉ dirs (fs w'))
    ∧ trace w' =
        trace w ++ evs
        ++ [EvLog ERROR (name +:+ " " +:+ not_released_text lockdir no_such_dir);
            EvHipchat room sender
              (name +:+ " " +:+ not_released_text lockdir no_such_dir)
              None false].
Proof.
  intros Hlockdir Hdir Hname Hroom Hsender.
  destruct (run_drop_backup (backup_of lockdir) w)
    as (w1 & Hdrop & Hdirs & Hprops & _ & _ & Htrace).
  assert (lockdir ∉ dirs (fs w1)) as Hdir1 by (rewrite Hdirs; dirs_go).
  assert (backup_of lockdir ∉ dirs (fs w1)) as Hb1 by (rewrite Hdirs; dirs_go).
  destruct backup_lockfile.
  - eexists _, [EvFs (Rmtree (backup_of lockdir));
                EvLog INFO ("Renaming " +:+ lockdir +:+ " -> "
                            +:+ backup_of lockdir);
                EvFs (Rename lockdir (backup_of lockdir))].
    split.
    { unfold release_deploy_lock.
      rewrite run_get_props, (getitem_Some _ _ _ Hlockdir), bind_ret_l.
      cbv zeta. fold (backup_of lockdir).
      erewrite run_seq_ok by exact Hdrop.
      erewrite run_seq_raise; [reflexivity|].
      erewrite run_try_raise by (by apply run_move_lockdir_missing).
      unfold no_such_dir at 1. lazy beta iota. fold no_such_dir.
      rewrite run_get_props, fmt_not_released, bind_ret_l.
      erewrite run_seq_ok
        by (apply run_alert; simpl; rewrite Hprops; eassumption).
      rewrite fmt_not_released_error, bind_ret_l. reflexivity. }
    simpl. rewrite Htrace. split; [done|]. split; [done|].
    by rewrite <-!(assoc_L (++)).
  - eexists _, [EvFs (Rmtree (backup_of lockdir)); EvFs (Rmtree lockdir)].
    split.
    { unfold release_deploy_lock.
      rewrite run_get_props, (getitem_Some _ _ _ Hlockdir), bind_ret_l.
      cbv zeta. fold (backup_of lockdir).
      erewrite run_seq_ok by exact Hdrop.
      erewrite run_seq_raise; [reflexivity|].
      erewrite run_try_raise by (by apply run_rmtree_missing).
      unfold no_such_dir at 1. lazy beta iota. fold no_such_dir.
      rewrite run_get_props, fmt_not_released, bind_ret_l.
      erewrite run_seq_ok
        by (apply run_alert; simpl; rewrite Hprops; eassumption).
      rewrite fmt_not_released_error, bind_ret_l. reflexivity. }
    simpl. rewrite Htrace. split; [done|]. split; [done|].
    by rewrite <-!(assoc_L (++)).
Qed.

End Release.

Section Relock.
Context `{C : Collaborators}.

Lemma fmt_bad_lockdir lockdir :
  fmt ("lockdir " +:+ DQ +:+ "%s" +:+ DQ +:+ " does not end with "
       +:+ DQ +:+ ".last" +:+ DQ) [lockdir]
  = ret (bad_lockdir_text lockdir).
Proof. apply fmt_Ok. unfold bad_lockdir_text, DQ. fmt_eval. Qed.

Lemma fmt_unexpected_lockdir lockdir :
  fmt ("Unexpected value for --lockdir: " +:+ DQ +:+ "%s" +:+ DQ
       +:+ " does not end with " +:+ DQ +:+ ".last" +:+ DQ) [lockdir]
  = ret ("Unexpected value for --lockdir: " +:+ DQ +:+ lockdir +:+ DQ
         +:+ " does not end with " +:+ DQ +:+ ".last" +:+ DQ).
Proof. apply fmt_Ok. unfold DQ. fmt_eval. Qed.

Lemma fmt_cannot_relock lockdir :
  fmt ("Cannot relock %s -- someone else has already "
       +:+ "acquired the lock since you released it.") [lockdir]
  = ret (cannot_relock_text lockdir).
Proof. apply fmt_Ok. unfold cannot_relock_text. fmt_eval. Qed.

Lemma fmt_already_exists lockdir :
  fmt "%s already exists" [lockdir] = ret (lockdir +:+ " already exists").
Proof. apply fmt_Ok. fmt_eval. Qed.

(** The start of [relock] on the backup of [base]. *)
Lemma run_relock_start base w :
  props w !! "LOCKDIR" = Some (backup_of base) →
  relock w
  = (let* taken := os_path_exists_dir base in
     (if taken : bool then
        let* msg := fmt ("Cannot relock %s -- someone else has already "
                         +:+ "acquired the lock since you released it.")
                        [base] in
        logging ERROR msg;;
        let* msg := fmt "%s already exists" [base] in
        raise (OSError None msg)
      else ret ());;
     _move_lockdir (backup_of base) base) w.
Proof.
  intros Hlockdir. unfold relock.
  rewrite run_get_props, (getitem_Some _ _ _ Hlockdir), bind_ret_l.
  cbv zeta. unfold backup_of.
  rewrite (drop_last_app base ".last"), (endswith_app base ".last").
  reflexivity.
Qed.

Lemma run_relock base w :
  props w !! "LOCKDIR" = Some (backup_of base) →
  backup_of base ∈ dirs (fs w) → base ∉ dirs (fs w) → abspath base = base →
  relock w = (lock_moved (backup_of base) base w, Ok ()).
Proof.
  intros Hlockdir Hb Hbase Habs.
  rewrite (run_relock_start base w) by done.
  erewrite run_bind_ok by reflexivity.
  rewrite bool_decide_eq_false_2 by done. rewrite seq_ret_l.
  by apply run_move_lockdir.
Qed.

(** X11.  [relock] refuses a lock directory whose name does not end with
    [.last] (ValueError), and it refuses to take the lock back when the
    lock directory exists again, that is when somebody else has acquired
    the lock since (OSError).  In both cases it logs an error and touches
    neither the file system nor the props. *)
Theorem relock_refuses lockdir w :
  props w !! "LOCKDIR" = Some lockdir →
  (endswith lockdir ".last" = false →
   ∃ msg,
     relock w
     = (log_event (EvLog ERROR msg) w, Raise (ValueError (bad_lockdir_text lockdir))))
  ∧ (∀ base,
       lockdir = backup_of base → base ∈ dirs (fs w) →
       relock w
       = (log_event (EvLog ERROR (cannot_relock_text base)) w,
          Raise (OSError None (base +:+ " already exists")))).
Proof.
  intros Hlockdir. split.
  - intros Hends. eexists. unfold relock.
    rewrite run_get_props, (getitem_Some _ _ _ Hlockdir), !bind_ret_l.
    cbv zeta. rewrite Hends. cbn [negb].
    rewrite fmt_unexpected_lockdir, bind_ret_l.
    erewrite run_seq_raise; [reflexivity|].
    erewrite run_seq_ok by reflexivity.
    rewrite fmt_bad_lockdir, bind_ret_l. reflexivity.
  - intros base -> Hbase.
    rewrite (run_relock_start base w) by done.
    erewrite run_bind_ok by reflexivity.
    rewrite bool_decide_eq_true_2 by done.
    rewrite fmt_cannot_relock, bind_ret_l.
    erewrite run_seq_raise; [reflexivity|].
    erewrite run_seq_ok by reflexivity.
    rewrite fmt_already_exists, bind_ret_l. reflexivity.
Qed.

(** X12.  Releasing the lock with a backup and then relocking gives the
    lock back: the lock directory is there again and the backup is not,
    the record is on disk in the lock directory with LOCKDIR as it was,
    and every property other than LOCK_ACQUIRE_TIME is as it was before
    the release. *)
Theorem release_then_relock lockdir w :
  props w !! "LOCKDIR" = Some lockdir →
  lockdir ∈ dirs (fs w) →
  abspath (backup_of lockdir) = backup_of lockdir →
  abspath lockdir = lockdir →
  ∃ w1 w2,
    release_deploy_lock true w = (w1, Ok ())
    ∧ relock w1 = (w2, Ok ())
    ∧ lockdir ∈ dirs (fs w2) ∧ (backup_of lockdir ∉ dirs (fs w2))
    ∧ props w2 !! "LOCKDIR" = Some lockdir
    ∧ (∀ k, k ≠ "LOCKDIR" → k ≠ "LOCK_ACQUIRE_TIME" →
            props w2 !! k = props w !! k)
    ∧ files (fs w2) !! (lockdir, "deploy.prop")
      = Some (serialize_props (props w2)).
Proof.
  intros Hlockdir Hdir Habs Habs'.
  pose proof (backup_ne lockdir) as Hne.
  destruct (run_release_with_backup lockdir w Hlockdir Hdir Habs)
    as (w0 & Hrun & Hdirs & Hprops & Hnow & _).
  eexists _, _. split; [exact Hrun|].
  split.
  { apply run_relock.
    - unfold lock_moved, moved_record. simpl.
      rewrite lookup_insert_ne by done. apply lookup_insert_eq.
    - unfold lock_moved. simpl. dirs_go.
    - unfold lock_moved. simpl. rewrite Hdirs. dirs_go.
    - done. }
  unfold lock_moved, moved_record. simpl. rewrite Hdirs, Hprops.
  split; [dirs_go|]. split; [dirs_go|].
  split.
  { rewrite lookup_insert_ne by done. apply lookup_insert_eq. }
  split.
  { intros k Hk1 Hk2. by rewrite !lookup_insert_ne. }
  apply lookup_insert_eq.
Qed.

End Relock.

(** ** The stages that talk to git and to the hosting platform *)

Section QuietStages.
Context `{C : Collaborators}.

#[local] Hint Resolve quiet_lookup_only quiet_current_gae_version quiet_alert
  quiet_run_command quiet_finish_url : quiet.
#[local] Hint Resolve keeps_alert keeps_run_command keeps_safe_urlopen : keeps.

Lemma quiet_pipe_command cmd : quiet no_fs_call (_pipe_command cmd).
Proof. unfold _pipe_command. quiet_go. Qed.

Lemma keeps_pipe_command cmd : keeps_props (_pipe_command cmd).
Proof. unfold _pipe_command. keeps_go. Qed.

#[local] Hint Resolve quiet_pipe_command : quiet.
#[local] Hint Resolve keeps_pipe_command : keeps.

Lemma quiet_tag_release d : quiet no_fs_call (_tag_release d).
Proof. unfold _tag_release. quiet_go. Qed.

Lemma keeps_tag_release d : keeps_props (_tag_release d).
Proof. unfold _tag_release. keeps_go. Qed.

Lemma quiet_tag_as_bad_version d : quiet no_fs_call (_tag_as_bad_version d).
Proof. unfold _tag_as_bad_version. quiet_go. Qed.

Lemma keeps_tag_as_bad_version d : keeps_props (_tag_as_bad_version d).
Proof. unfold _tag_as_bad_version. keeps_go. Qed.

#[local] Hint Resolve quiet_tag_release quiet_tag_as_bad_version : quiet.
#[local] Hint Resolve keeps_tag_release keeps_tag_as_bad_version : keeps.

Lemma quiet_rollback_steps d : quiet no_fs_call (rollback_steps d).
Proof. unfold rollback_steps, _password_on_stdin. quiet_go. Qed.

Lemma keeps_rollback_steps d : keeps_props (rollback_steps d).
Proof. unfold rollback_steps, _password_on_stdin. keeps_go. Qed.

#[local] Hint Resolve quiet_rollback_steps : quiet.
#[local] Hint Resolve keeps_rollback_steps : keeps.

Lemma quiet_rollback_deploy d : quiet no_fs_call (_rollback_deploy d).
Proof. unfold _rollback_deploy. quiet_go. Qed.

Lemma keeps_current_gae_version : keeps_props _current_gae_version.
Proof. unfold _current_gae_version. keeps_go. Qed.

#[local] Hint Resolve keeps_current_gae_version : keeps.

Lemma keeps_rollback_deploy d : keeps_props (_rollback_deploy d).
Proof. unfold _rollback_deploy. keeps_go. Qed.

Lemma quiet_merge_to_master d : quiet no_fs_call (merge_to_master d).
Proof. unfold merge_to_master, _DRY_RUN. cbv iota. quiet_go. Qed.

Lemma keeps_merge_to_master d : keeps_props (merge_to_master d).
Proof. unfold merge_to_master, _DRY_RUN. cbv iota. keeps_go. Qed.


End QuietStages.

(** ** The finish stages *)

Section Finish.
Context `{C : Collaborators}.

Lemma fmt_rolling_back_due version last_error :
  fmt "Rolling back %s due to problems with the deploy: %s"
    [version; last_error]
  = ret (rolling_back_due_text version last_error).
Proof. apply fmt_Ok. unfold rolling_back_due_text. fmt_eval. Qed.

Lemma fmt_manual_rollback url :
  fmt ("Once you have manually rolled back, release the deploy "
       +:+ "lock: %s") [url]
  = ret ("Once you have manually rolled back, release the deploy lock: "
         +:+ url).
Proof. apply fmt_Ok. fmt_eval. Qed.

Lemma fs_rollback_announced room sender name version last_error w :
  fs (rollback_announced room sender name version last_error w) = fs w
  ∧ props (rollback_announced room sender name version last_error w) = props w.
Proof. unfold rollback_announced. by destruct (truthy last_error). Qed.

(** X14.  [finish_with_rollback] keeps the lock when the rollback did not
    succeed: it sends an alert with the link that releases the lock and
    raises RuntimeError, and it has made no file-system call, so the lock
    directory and the record in it are as they were.  When the rollback
    succeeded it goes on as [finish_with_failure]. *)
Theorem finish_with_rollback_keeps_the_lock w w2 rolled_back last_error
    version name room sender jenkins_url token :
  props w !! "LAST_ERROR" = Some last_error →
  props w !! "VERSION_NAME" = Some version →
  props w !! "DEPLOYER_HIPCHAT_NAME" = Some name →
  props w !! "HIPCHAT_ROOM" = Some room →
  props w !! "HIPCHAT_SENDER" = Some sender →
  props w !! "JENKINS_URL" = Some jenkins_url →
  props w !! "TOKEN" = Some token →
  _rollback_deploy (props w)
    (rollback_announced room sender name version last_error w)
  = (w2, Ok rolled_back) →
  if rolled_back then finish_with_rollback w = finish_with_failure w2
  else
    finish_with_rollback w
    = (alerted room sender
         (name +:+ " " +:+ manual_rollback_text jenkins_url token)
         ERROR None false w2,
       Raise (RuntimeError "Failed to roll back to the previous deploy."))
    ∧ fs w2 = fs w ∧ props w2 = props w.
Proof.
  intros Herror Hversion Hname Hroom Hsender Hurl Htoken Hrollback.
  assert (finish_with_rollback w
            = (let* rolled_back := _rollback_deploy (props w) in
               (if negb rolled_back then
                  let* url := _finish_url (props w) [("STATUS", "unlock")] in
                  let* text :=
                    fmt ("Once you have manually rolled back, release the deploy "
                         +:+ "lock: %s") [url] in
                  _alert (props w) text ERROR None false true;;
                  raise (RuntimeError "Failed to roll back to the previous deploy.")
                else ret ());;
               finish_with_failure)
                (rollback_announced room sender name version last_error w))
    as Hstart.
  { unfold finish_with_rollback.
    rewrite run_get_props, (getitem_Some _ _ _ Herror), bind_ret_l.
    unfold rollback_announced. destruct (truthy last_error).
    - rewrite (getitem_Some _ _ _ Hversion), !bind_ret_l.
      rewrite fmt_rolling_back_due, bind_ret_l.
      by erewrite run_seq_ok by (by apply run_alert).
    - by rewrite seq_ret_l. }
  rewrite Hstart. clear Hstart.
  rewrite (run_bind_ok _ _ _ _ _ Hrollback).
  destruct rolled_back; cbn [negb].
  - by rewrite seq_ret_l.
  - split.
    + rewrite (run_finish_url _ _ _ _ Hurl Htoken), bind_ret_l.
      rewrite fmt_manual_rollback, bind_ret_l.
      pose proof (keeps_rollback_deploy (props w)
                    (rollback_announced room sender name version last_error w))
        as Hkeeps.
      rewrite Hrollback in Hkeeps. simpl in Hkeeps.
      rewrite (proj2 (fs_rollback_announced _ _ _ _ _ _)) in Hkeeps.
      erewrite run_seq_raise; [reflexivity|].
      erewrite run_seq_ok; [reflexivity|].
      unfold manual_rollback_text.
      by apply run_alert.
    + destruct (quiet_rollback_deploy (props w)
                  (rollback_announced room sender name version last_error w))
        as (Hfs & _).
      pose proof (keeps_rollback_deploy (props w)
                    (rollback_announced room sender name version last_error w))
        as Hkeeps.
      rewrite Hrollback in Hfs, Hkeeps. simpl in Hfs, Hkeeps.
      destruct (fs_rollback_announced room sender name version last_error w)
        as [Hfs0 Hprops0].
      split; congruence.
Qed.

Lemma fmt_merge_failed version git_revision jenkins_url token :
  fmt ("(sadpanda) Deploy of %s (branch %s) succeeded, "
       +:+ "but we did not successfully merge %s into master. "
       +:+ "Merge and push manually, then release the lock: %s")
    [version; git_revision; git_revision;
     finish_url_text jenkins_url token [("STATUS", "unlock")]]
  = ret (merge_failed_text version git_revision jenkins_url token).
Proof. apply fmt_Ok. unfold merge_failed_text. fmt_eval. Qed.

(** X15.  [finish_with_success] keeps the lock when the merge into master
    fails: it sends an alert at severity ERROR with the link that releases
    the lock, raises the error of the merge again, and has made no
    file-system call: the lock is not released. *)
Theorem finish_with_success_keeps_the_lock w w1 w2 w3 live e version
    git_revision name room sender jenkins_url token :
  props w !! "VERSION_NAME" = Some version →
  props w !! "GIT_REVISION" = Some git_revision →
  props w !! "DEPLOYER_HIPCHAT_NAME" = Some name →
  props w !! "HIPCHAT_ROOM" = Some room →
  props w !! "HIPCHAT_SENDER" = Some sender →
  props w !! "JENKINS_URL" = Some jenkins_url →
  props w !! "TOKEN" = Some token →
  _current_gae_version w = (w1, Ok live) →
  when (bool_decide (live = version)) (_tag_release (props w)) w1
  = (w2, Ok ()) →
  merge_to_master (props w) w2 = (w3, Raise e) →
  finish_with_success w
  = (alerted room sender
       (name +:+ " "
        +:+ merge_failed_text version git_revision jenkins_url token)
       ERROR None false w3,
     Raise e)
  ∧ fs w3 = fs w ∧ props w3 = props w.
Proof.
  intros Hversion Hrev Hname Hroom Hsender Hurl Htoken Hlive Htag Hmerge.
  split.
  - unfold finish_with_success.
    rewrite run_get_props, (run_bind_ok _ _ _ _ _ Hlive).
    rewrite (getitem_Some _ _ _ Hversion), bind_ret_l.
    rewrite (run_seq_ok _ _ _ _ _ Htag).
    erewrite run_seq_raise; [reflexivity|].
    erewrite run_try_raise by exact Hmerge.
    rewrite (getitem_Some _ _ _ Hrev), !bind_ret_l.
    rewrite (run_finish_url _ _ _ _ Hurl Htoken), bind_ret_l.
    rewrite fmt_merge_failed, bind_ret_l.
    erewrite run_seq_ok; [reflexivity|].
    apply run_alert; done.
  - destruct (quiet_current_gae_version w) as (Hfs1 & _).
    pose proof (keeps_current_gae_version w) as Hk1.
    rewrite Hlive in Hfs1, Hk1. simpl in Hfs1, Hk1.
    assert (fs w2 = fs w1 ∧ props w2 = props w1) as [Hfs2 Hk2].
    { unfold when in Htag. destruct (bool_decide (live = version)).
      - destruct (quiet_tag_release (props w) w1) as (Hfs2 & _).
        pose proof (keeps_tag_release (props w) w1) as Hk2.
        rewrite Htag in Hfs2, Hk2. by split.
      - by injection Htag as <-. }
    destruct (quiet_merge_to_master (props w) w2) as (Hfs3 & _).
    pose proof (keeps_merge_to_master (props w) w2) as Hk3.
    rewrite Hmerge in Hfs3, Hk3. simpl in Hfs3, Hk3.
    split; congruence.
Qed.

(** [finish_with_failure] reports the failure and goes on to release the
    lock. *)
Lemma run_finish_with_failure w last_error version git_revision name room
    sender :
  props w !! "LAST_ERROR" = Some last_error →
  props w !! "VERSION_NAME" = Some version →
  props w !! "GIT_REVISION" = Some git_revision →
  props w !! "DEPLOYER_HIPCHAT_NAME" = Some name →
  props w !! "HIPCHAT_ROOM" = Some room →
  props w !! "HIPCHAT_SENDER" = Some sender →
  finish_with_failure w
  = release_deploy_lock true
      (alerted room sender
         (name +:+ " " +:+ deploy_failed_text version git_revision last_error)
         ERROR None false w).
Proof.
  intros Herror Hversion Hrev Hname Hroom Hsender.
  unfold finish_with_failure, deploy_failed_text.
  rewrite run_get_props, (getitem_Some _ _ _ Herror), bind_ret_l.
  rewrite (getitem_Some _ _ _ Hversion), (getitem_Some _ _ _ Hrev).
  destruct (truthy last_error).
  - rewrite bind_ret_l. erewrite fmt_Ok by fmt_eval. rewrite !bind_ret_l.
    erewrite fmt_Ok by fmt_eval. rewrite bind_ret_l.
    by erewrite run_seq_ok by (by apply run_alert).
  - rewrite !bind_ret_l.
    erewrite fmt_Ok by fmt_eval. rewrite bind_ret_l.
    by erewrite run_seq_ok by (by apply run_alert).
Qed.

(** X16.  [finish_with_failure] on a lock that is held: it reports the
    failure at severity ERROR, with the last error when there is one and
    with an apology when there is none, and then releases the lock with a
    backup, from which [relock] can take it back. *)
Theorem finish_with_failure_releases_the_lock w lockdir last_error version
    git_revision name room sender :
  props w !! "LOCKDIR" = Some lockdir →
  lockdir ∈ dirs (fs w) →
  abspath (backup_of lockdir) = backup_of lockdir →
  props w !! "LAST_ERROR" = Some last_error →
  props w !! "VERSION_NAME" = Some version →
  props w !! "GIT_REVISION" = Some git_revision →
  props w !! "DEPLOYER_HIPCHAT_NAME" = Some name →
  props w !! "HIPCHAT_ROOM" = Some room →
  props w !! "HIPCHAT_SENDER" = Some sender →
  ∃ w' evs,
    finish_with_failure w = (w', Ok ())
    ∧ trace w' =
        trace w
        ++ [EvLog ERROR
              (name +:+ " " +:+ deploy_failed_text version git_revision last_error);
            EvHipchat room sender
              (name +:+ " " +:+ deploy_failed_text version git_revision last_error)
              None false]
        ++ evs
    ∧ (lockdir ∉ dirs (fs w')) ∧ backup_of lockdir ∈ dirs (fs w')
    ∧ props w' = moved_record (backup_of lockdir) (now w) (props w)
    ∧ files (fs w') !! (backup_of lockdir, "deploy.prop")
      = Some (serialize_props (props w')).
Proof.
  intros Hlockdir Hdir Habs Herror Hversion Hrev Hname Hroom Hsender.
  pose proof (backup_ne lockdir) as Hne.
  destruct (run_release_with_backup lockdir
              (alerted room sender
                 (name +:+ " "
                  +:+ deploy_failed_text version git_revision last_error)
                 ERROR None false w))
    as (w1 & Hrun & Hdirs & Hprops & Hnow & Htrace); [done..|].
  eexists _, (EvFs (Rmtree (backup_of lockdir)) :: _). split.
  { rewrite (run_finish_with_failure w last_error version git_revision name
               room sender) by done.
    exact Hrun. }
  unfold lock_moved. simpl. rewrite Hdirs, Hprops, Hnow, Htrace. simpl.
  split.
  { rewrite <-!(assoc_L (++)). simpl. reflexivity. }
  split; [dirs_go|]. split; [dirs_go|]. split; [done|].
  apply lookup_insert_eq.
Qed.

End Finish.

(** ** The dispatcher: what [main] does around a stage *)

Section Main.
Context `{C : Collaborators}.

Lemma fmt_expecting steps action :
  fmt ("Expecting you to run %s, but you are running %s. "
       +:+ "Perhaps you double-clicked on a link?  Ignoring.")
    [join " or " (split "," steps); action]
  = ret (expecting_text steps action).
Proof. apply fmt_Ok. unfold expecting_text. fmt_eval. Qed.

(** [_update_properties(props, {'LAST_ERROR': text})]: no derivation rule
    fires; the record gets the text and is written. *)
Lemma run_update_last_error text lockdir w :
  props w !! "LOCKDIR" = Some lockdir →
  _update_properties {[ "LAST_ERROR" := text ]} w
  = _write_properties (<["LAST_ERROR" := text]> (props w))
      (set_props (<["LAST_ERROR" := text]> (props w)) w).
Proof.
  intros Hlockdir. unfold _update_properties.
  rewrite (lookup_singleton_ne "LAST_ERROR" "GIT_SHA1") by done.
  rewrite bind_ret_l. cbv zeta.
  rewrite (lookup_singleton_ne "LAST_ERROR" "DEPLOYER_EMAIL") by done.
  rewrite (lookup_singleton_ne "LAST_ERROR" "DEPLOYER_USERNAME") by done.
  rewrite bind_ret_l.
  rewrite (lookup_singleton_ne "LAST_ERROR" "LOCKDIR") by done.
  rewrite bind_ret_l.
  rewrite (lookup_singleton_ne "LAST_ERROR" "POSSIBLE_NEXT_STEPS") by done.
  rewrite run_get_props.
  erewrite run_seq_ok by reflexivity.
  rewrite run_get_props. simpl props.
  unfold dict_update. by rewrite <-insert_union_singleton_l.
Qed.

Lemma run_write_properties_missing d lockdir w :
  d !! "LOCKDIR" = Some lockdir → lockdir ∉ dirs (fs w) →
  (_write_properties d w).2
  = Raise (IOError (Some ENOENT) "No such file or directory").
Proof.
  intros Hd Hdir. unfold _write_properties.
  rewrite (getitem_Some _ _ _ Hd), !bind_ret_l.
  erewrite fmt_Ok by fmt_eval. rewrite bind_ret_l.
  erewrite run_seq_ok by reflexivity.
  unfold write_file. erewrite run_seq_ok by reflexivity.
  unfold step. simpl. by rewrite decide_False.
Qed.

(** [main] up to the stage, for a caller that passes the token check. *)
Lemma run_main_illegal action lockdir args token mt jbu ce w w1 steps :
  main_load action lockdir args ce w = (w1, Ok true) →
  token_passes token (props w1) →
  props w1 !! "POSSIBLE_NEXT_STEPS" = Some steps →
  step_legal action steps = false →
  main action lockdir args token mt jbu ce w
  = (_alert (props w1) (expecting_text steps action) ERROR None false true;;
     ret true) w1.
Proof.
  intros Hload Htoken Hsteps Hlegal. unfold main.
  rewrite (run_bind_ok _ _ _ _ _ Hload). cbn [negb].
  rewrite run_get_props, Htoken.
  rewrite (getitem_Some _ _ _ Hsteps), bind_ret_l.
  rewrite <-negb_orb. fold (step_legal action steps). rewrite Hlegal.
  cbn [negb]. by rewrite fmt_expecting, bind_ret_l.
Qed.

Lemma run_main_stage_raises action lockdir args token mt jbu ce w w1 w2 steps e :
  main_load action lockdir args ce w = (w1, Ok true) →
  token_passes token (props w1) →
  props w1 !! "POSSIBLE_NEXT_STEPS" = Some steps →
  step_legal action steps = true →
  main_stage action mt jbu ce w1 = (w2, Raise e) →
  main action lockdir args token mt jbu ce w
  = (when (negb (bool_decide (action = "acquire-lock")))
       (_update_properties {[ "LAST_ERROR" := exn_str e ]});;
     ret false) (log_event (EvLog ERROR action) w2).
Proof.
  intros Hload Htoken Hsteps Hlegal Hstage. unfold main.
  rewrite (run_bind_ok _ _ _ _ _ Hload). cbn [negb].
  rewrite run_get_props, Htoken.
  rewrite (getitem_Some _ _ _ Hsteps), bind_ret_l.
  rewrite <-negb_orb. fold (step_legal action steps). rewrite Hlegal.
  cbn [negb].
  erewrite run_try_raise by (by erewrite run_seq_raise by exact Hstage).
  by erewrite run_seq_ok by reflexivity.
Qed.

(** X17.  A stage that is not among the legal next steps of the record is
    not run.  [main] sends an alert that names the expected steps and
    returns True, so that the calling job does not release the lock; the
    file system is as it was, and the props and the collaborators are as
    the load of the record left them. *)
Theorem main_ignores_illegal_step action lockdir args token mt jbu ce w w1
    steps name room sender :
  main_load action lockdir args ce w = (w1, Ok true) →
  token_passes token (props w1) →
  props w1 !! "POSSIBLE_NEXT_STEPS" = Some steps →
  action ∉ split "," steps → "<all>" ∉ split "," steps →
  props w1 !! "DEPLOYER_HIPCHAT_NAME" = Some name →
  props w1 !! "HIPCHAT_ROOM" = Some room →
  props w1 !! "HIPCHAT_SENDER" = Some sender →
  ∃ w',
    main action lockdir args token mt jbu ce w = (w', Ok true)
    ∧ fs w' = fs w ∧ props w' = props w1 ∧ ext w' = ext w1 ∧ now w' = now w
    ∧ trace w' =
        trace w1
        ++ [EvLog ERROR (name +:+ " " +:+ expecting_text steps action);
            EvHipchat room sender
              (name +:+ " " +:+ expecting_text steps action) None false].
Proof.
  intros Hload Htoken Hsteps Haction Hall Hname Hroom Hsender.
  destruct (quiet_main_load action lockdir args ce w) as (Hfs & Hnow & _).
  rewrite Hload in Hfs, Hnow. simpl in Hfs, Hnow.
  eexists. split.
  { rewrite (run_main_illegal _ _ _ _ _ _ _ _ _ steps Hload Htoken Hsteps).
    - by erewrite run_seq_ok by (by apply run_alert).
    - unfold step_legal, mem.
      by rewrite !bool_decide_eq_false_2. }
  simpl. rewrite <-(assoc_L (++)). done.
Qed.

(** X18.  When a stage raises, [main] logs the action and returns False.
    For every action but acquire-lock it first records the text of the
    error as LAST_ERROR, in the props and in the file of the lock
    directory; when the lock directory is gone by then, that write fails
    and the IOError leaves [main].  For acquire-lock nothing is written:
    the run ends with the log line. *)
Theorem main_records_the_failure action lockdir args token mt jbu ce w w1 w2
    steps e :
  main_load action lockdir args ce w = (w1, Ok true) →
  token_passes token (props w1) →
  props w1 !! "POSSIBLE_NEXT_STEPS" = Some steps →
  step_legal action steps = true →
  main_stage action mt jbu ce w1 = (w2, Raise e) →
  (action = "acquire-lock" →
   main action lockdir args token mt jbu ce w
   = (log_event (EvLog ERROR action) w2, Ok false))
  ∧ (∀ held,
       action ≠ "acquire-lock" → props w2 !! "LOCKDIR" = Some held →
       held ∈ dirs (fs w2) →
       ∃ w',
         main action lockdir args token mt jbu ce w = (w', Ok false)
         ∧ props w' = <["LAST_ERROR" := exn_str e]> (props w2)
         ∧ files (fs w') !! (held, "deploy.prop")
           = Some (serialize_props (props w')))
  ∧ (∀ held,
       action ≠ "acquire-lock" → props w2 !! "LOCKDIR" = Some held →
       held ∉ dirs (fs w2) →
       (main action lockdir args token mt jbu ce w).2
       = Raise (IOError (Some ENOENT) "No such file or directory")).
Proof.
  intros Hload Htoken Hsteps Hlegal Hstage.
  rewrite (run_main_stage_raises _ _ _ _ _ _ _ _ _ _ _ _ Hload Htoken Hsteps
             Hlegal Hstage).
  split; [|split].
  - intros ->. by rewrite bool_decide_eq_true_2.
  - intros held Hne Hheld Hdir.
    rewrite bool_decide_eq_false_2 by done. cbn [negb when].
    eexists. split.
    { erewrite run_seq_ok; [reflexivity|].
      rewrite (run_update_last_error _ held) by done.
      apply (run_write_properties _ held); [|done].
      simpl. by rewrite lookup_insert_ne. }
    simpl. split; [done|]. apply lookup_insert_eq.
  - intros held Hne Hheld Hdir.
    rewrite bool_decide_eq_false_2 by done. cbn [negb when].
    assert ((_update_properties {[ "LAST_ERROR" := exn_str e ]}
               (log_event (EvLog ERROR action) w2)).2
            = Raise (IOError (Some ENOENT) "No such file or directory"))
      as Hwrite.
    { rewrite (run_update_last_error _ held) by done.
      apply (run_write_properties_missing _ held); [|done].
      simpl. by rewrite lookup_insert_ne. }
    destruct (_update_properties _ (log_event (EvLog ERROR action) w2))
      as [w3 r] eqn:Hrun.
    simpl in Hwrite. subst r.
    by erewrite run_seq_raise by exact Hrun.
Qed.

End Main.

(** ** Records that cannot be read *)

Section Unreadable.
Context `{C : Collaborators}.

Lemma split1_None sep s : contains sep s = false → split1 sep s = None.
Proof.
  induction s as [|c s IH]; simpl; [done|].
  intros [Hc Hs]%orb_false_elim. apply bool_decide_eq_false in Hc.
  rewrite decide_False by done. by rewrite IH.
Qed.

Lemma parse_line_error r l e :
  parse_line r l = Raise e → (r = Raise e ∨ e = unpack_error).
Proof.
  unfold parse_line. destruct r as [d|e']; [|by intros [= ->]; left].
  destruct (split1 "=" (strip l)) as [[k v]|]; [done|].
  intros [= <-]. by right.
Qed.

Lemma foldl_parse_line_raise e lines :
  foldl parse_line (Raise e) lines = Raise e.
Proof. induction lines as [|l lines IH]; [done|]. exact IH. Qed.

Lemma foldl_parse_line_error r lines e :
  foldl parse_line r lines = Raise e → (r = Raise e ∨ e = unpack_error).
Proof.
  revert r. induction lines as [|l lines IH]; intros r; simpl.
  - intros ->. by left.
  - intros [Hr|He]%IH; [|by right].
    by apply parse_line_error in Hr.
Qed.

(** The only error of the parser is the one of a line without [=]. *)
Lemma parse_props_error content e :
  parse_props content = Raise e → e = unpack_error.
Proof.
  unfold parse_props. by intros [[=]|He]%foldl_parse_line_error.
Qed.

Lemma foldl_parse_line_bad r lines l :
  l ∈ lines → contains "=" (strip l) = false →
  (∀ e, r = Raise e → e = unpack_error) →
  foldl parse_line r lines = Raise unpack_error.
Proof.
  intros Hin Hbad. revert r.
  induction lines as [|l' lines IH]; intros r Hr; [by apply elem_of_nil in Hin|].
  apply elem_of_cons in Hin as [<-|Hin]; simpl.
  - destruct r as [d|e]; simpl.
    + rewrite split1_None by done. apply foldl_parse_line_raise.
    + rewrite (Hr e eq_refl). apply foldl_parse_line_raise.
  - apply IH; [done|]. intros e He.
    apply parse_line_error in He as [He|He]; [by apply Hr|done].
Qed.

(** X19.  Every line of deploy.prop must have an [=] once it is stripped:
    one line without it, a blank line for instance, makes the whole read
    fail with ValueError, whatever the other lines are. *)
Theorem read_needs_equals_on_every_line lockdir content l w :
  files (fs w) !! (lockdir, "deploy.prop") = Some content →
  l ∈ readlines content → contains "=" (strip l) = false →
  parse_props content = Raise (ValueError "need more than 1 value to unpack")
  ∧ _read_properties lockdir w
    = (w, Raise (ValueError "need more than 1 value to unpack")).
Proof.
  intros Hfile Hin Hbad.
  assert (parse_props content = Raise unpack_error) as Hparse.
  { unfold parse_props. by eapply foldl_parse_line_bad. }
  split; [exact Hparse|].
  unfold _read_properties.
  erewrite run_bind_ok by (unfold read_file; by rewrite Hfile).
  rewrite Hparse. reflexivity.
Qed.

Lemma run_main_load_raises action lockdir args ce w e :
  action ≠ "acquire-lock" →
  _read_properties lockdir w = (w, Raise e) →
  (∀ errno msg, e ≠ IOError errno msg) →
  ∀ token mt jbu,
    main action lockdir args token mt jbu ce w = (w, Raise e).
Proof.
  intros Haction Hread Hio token mt jbu. unfold main.
  erewrite run_bind_raise; [reflexivity|].
  unfold main_load. rewrite decide_False by done.
  erewrite run_try_raise by (by erewrite run_bind_raise by exact Hread).
  destruct e; try reflexivity. by destruct (Hio errno msg).
Qed.

(** X20.  A record that is there but cannot be used makes every stage
    other than acquire-lock raise out of [main], which neither returns
    False nor sends an alert: [main] only catches the IOError of a
    missing file.  This happens for a file with a line without [=]
    (ValueError), for a record without LOCKDIR (KeyError) and for a
    record whose LOCKDIR is another directory (AssertionError). *)
Theorem main_raises_on_an_unusable_record action lockdir args token mt jbu ce
    w content :
  action ≠ "acquire-lock" →
  files (fs w) !! (lockdir, "deploy.prop") = Some content →
  (∀ e, parse_props content = Raise e →
        main action lockdir args token mt jbu ce w
        = (w, Raise (ValueError "need more than 1 value to unpack")))
  ∧ (∀ d, parse_props content = Ok d → d !! "LOCKDIR" = None →
          main action lockdir args token mt jbu ce w
          = (w, Raise (KeyError "LOCKDIR")))
  ∧ (∀ d recorded,
       parse_props content = Ok d → d !! "LOCKDIR" = Some recorded →
       recorded ≠ lockdir →
       main action lockdir args token mt jbu ce w
       = (w, Raise (AssertionError (repr_list [recorded; lockdir])))).
Proof.
  intros Haction Hfile.
  assert (∀ k : string → M (gmap string string),
            bind (read_file lockdir "deploy.prop") k w = k content w) as Hread.
  { intros k. apply run_bind_ok. unfold read_file. by rewrite Hfile. }
  split; [|split].
  - intros e Hparse. apply run_main_load_raises; [done| |done].
    unfold _read_properties. rewrite Hread, Hparse.
    by rewrite (parse_props_error _ _ Hparse).
  - intros d Hparse Hnone. apply run_main_load_raises; [done| |done].
    unfold _read_properties. rewrite Hread, Hparse.
    change (lift (Ok d)) with (ret d).
    by rewrite bind_ret_l, (getitem_None _ _ Hnone).
  - intros d recorded Hparse Hrec Hne.
    apply run_main_load_raises; [done| |done].
    unfold _read_properties. rewrite Hread, Hparse.
    change (lift (Ok d)) with (ret d).
    rewrite bind_ret_l, (getitem_Some _ _ _ Hrec), bind_ret_l.
    by rewrite decide_False.
Qed.

Lemma fmt_no_backup lockdir :
  fmt ("There is no backup lock at %s to " +:+ "recover from, sorry.")
    [lockdir]
  = ret (no_backup_text lockdir).
Proof. apply fmt_Ok. unfold no_backup_text. fmt_eval. Qed.

Lemma fmt_no_lock url :
  fmt ("(sadpanda) Trying to run without the lock. "
       +:+ "If you think you *should* have the lock, "
       +:+ "try to re-acquire it: %s. Then run your command again.") [url]
  = ret ("(sadpanda) Trying to run without the lock. "
         +:+ "If you think you *should* have the lock, try to re-acquire it: "
         +:+ url +:+ ". Then run your command again.").
Proof. apply fmt_Ok. fmt_eval. Qed.

(** X21.  Without a record in the lock directory no stage other than
    acquire-lock runs: [main] returns False, having touched neither the
    file system nor the props.  For relock it logs that there is no
    backup; for the other stages it sends an alert, in the name of the
    caller, to the default room, with the link that relocks. *)
Theorem main_without_a_lock action lockdir args token mt jbu ce w :
  action ≠ "acquire-lock" →
  files (fs w) !! (lockdir, "deploy.prop") = None →
  ∃ w' evs,
    main action lockdir args token mt jbu ce w = (w', Ok false)
    ∧ fs w' = fs w ∧ props w' = props w ∧ now w' = now w
    ∧ trace w' = trace w ++ evs ∧ Forall no_fs_call evs
    ∧ (action = "relock" → evs = [EvLog ERROR (no_backup_text lockdir)])
    ∧ (action ≠ "relock" →
       ∃ name evs0,
         evs = evs0
               ++ [EvLog ERROR (name +:+ " " +:+ no_lock_text);
                   EvHipchat "1s/0s: deploys" "Mr Gorilla"
                     (name +:+ " " +:+ no_lock_text) None false]).
Proof.
  intros Haction Hfile.
  assert (∀ w1,
            main_load action lockdir args ce w = (w1, Ok false) →
            main action lockdir args token mt jbu ce w = (w1, Ok false))
    as Hmain.
  { intros w1 Hload. unfold main.
    by rewrite (run_bind_ok _ _ _ _ _ Hload). }
  assert (∀ k : exn → M bool,
            try_except (let* props := _read_properties lockdir in
                        put_props props;; ret true) k w
            = k (IOError (Some ENOENT) "No such file or directory") w)
    as Hread.
  { intros k. apply run_try_raise. apply run_bind_raise.
    by apply run_read_properties_missing. }
  destruct (decide (action = "relock")) as [Hrelock|Hrelock].
  - exists (log_event (EvLog ERROR (no_backup_text lockdir)) w),
      [EvLog ERROR (no_backup_text lockdir)].
    split.
    { apply Hmain. unfold main_load. rewrite decide_False by done.
      rewrite Hread. lazy beta iota. rewrite decide_True by done.
      rewrite fmt_no_backup, bind_ret_l.
      by erewrite run_seq_ok by reflexivity. }
    simpl. repeat split; try done.
    by apply Forall_singleton.
  - destruct (returns_run (_email_to_hipchat_name ce) w
                (returns_email_to_hipchat_name ce)) as (w1 & name & Hname).
    destruct (quiet_email_to_hipchat_name ce w)
      as (Hfs & Hnow & evs0 & Htrace & Hevs0).
    pose proof (keeps_email_to_hipchat_name ce w) as Hprops.
    rewrite Hname in Hfs, Hnow, Htrace, Hprops.
    simpl in Hfs, Hnow, Htrace, Hprops.
    exists (alerted "1s/0s: deploys" "Mr Gorilla" (name +:+ " " +:+ no_lock_text)
              ERROR None false w1),
      (evs0 ++ [EvLog ERROR (name +:+ " " +:+ no_lock_text);
                EvHipchat "1s/0s: deploys" "Mr Gorilla"
                  (name +:+ " " +:+ no_lock_text) None false]).
    split.
    { apply Hmain. unfold main_load. rewrite decide_False by done.
      rewrite Hread. lazy beta iota. rewrite decide_False by done.
      eapply run_seq_then; [|reflexivity].
      rewrite (run_bind_ok _ _ _ _ _ Hname). cbv zeta.
      erewrite (run_finish_url _ _ "http://jenkins.khanacademy.org/" "")
        by (by simplify_map_eq).
      rewrite bind_ret_l, fmt_no_lock, bind_ret_l.
      unfold no_lock_text.
      apply run_alert; by simplify_map_eq. }
    simpl. rewrite Htrace, <-!(assoc_L (++)).
    repeat split; try done.
    + apply Forall_app. split; [done|]. by repeat constructor.
    + intros _. by exists name, evs0.
Qed.

End Unreadable.

(** ** The order of the stages *)

Section Stages.
Context `{C : Collaborators}.

Lemma getitem_ok_inv d k w w' v :
  getitem d k w = (w', Ok v) → d !! k = Some v ∧ w' = w.
Proof.
  unfold getitem. destruct (d !! k) as [v'|]; [|done].
  by intros [= <- <-].
Qed.

(** What a successful [_update_properties] stores for the steps it was
    given. *)
Lemma update_stores_steps new_values w w' steps :
  _update_properties new_values w = (w', Ok ()) →
  new_values !! "POSSIBLE_NEXT_STEPS" = Some steps →
  ∃ stored,
    props w' !! "POSSIBLE_NEXT_STEPS" = Some stored
    ∧ steps_of stored = steps_of steps ∪ escape_hatches.
Proof.
  intros Hrun Hsteps.
  apply update_outcome in Hrun as [[_ ?]|(derived & Hd & ->)]; [done|].
  rewrite Hsteps in Hd. unfold with_escape_hatches, dict_update.
  rewrite Hd. eexists. split.
  - apply lookup_union_Some_l. apply lookup_insert_eq.
  - apply PyFacts.steps_of_stored.
Qed.

(** X22.  The order of the pipeline.  When a stage that keeps the lock
    succeeds, the legal next steps of the record are the successors of
    that stage together with the four escape hatches: merge-from-master
    after acquire-lock; set-default (with AUTO_DEPLOY) or manual-test
    (without), and finish-with-success, after merge-from-master;
    set-default after manual-test; finish-with-success after a
    set-default without AUTO_DEPLOY; every step after relock. *)
Theorem stage_sets_the_next_steps action mt jbu ce w w' steps :
  main_stage action mt jbu ce w = (w', Ok ()) →
  next_steps_after action (props w !! "AUTO_DEPLOY") = Some steps →
  ∃ stored,
    props w' !! "POSSIBLE_NEXT_STEPS" = Some stored
    ∧ steps_of stored = steps_of steps ∪ escape_hatches.
Proof.
  unfold main_stage, next_steps_after. intros Hrun Hsteps.
  destruct (decide (action = "acquire-lock")) as [->|H1].
  { injection Hsteps as <-.
    apply seq_ok_inv in Hrun as (w1 & [] & _ & Hrun).
    apply bind_ok_inv in Hrun as (w2 & d & _ & Hrun).
    apply seq_ok_inv in Hrun as (w3 & [] & _ & Hrun).
    eapply update_stores_steps; [exact Hrun|].
    apply lookup_singleton_eq. }
  destruct (decide (action = "merge-from-master")) as [->|H2].
  { injection Hsteps as <-.
    apply bind_ok_inv in Hrun as (w1 & d & [= <- <-] & Hrun).
    apply seq_ok_inv in Hrun as (w2 & [] & _ & Hrun).
    apply bind_ok_inv in Hrun as (w3 & rev & _ & Hrun).
    apply bind_ok_inv in Hrun as (w4 & sha1 & _ & Hrun).
    apply bind_ok_inv in Hrun as (w5 & auto & [Hauto _]%getitem_ok_inv & Hrun).
    cbv zeta in Hrun. rewrite Hauto.
    eapply update_stores_steps; [exact Hrun|].
    rewrite lookup_insert_eq. f_equal. f_equal.
    destruct (decide (auto = "true")) as [->|Hne].
    - by rewrite decide_True.
    - by rewrite decide_False by congruence. }
  destruct (decide (action = "manual-test")) as [->|H3].
  { injection Hsteps as <-.
    apply bind_ok_inv in Hrun as (w1 & d & _ & Hrun).
    apply seq_ok_inv in Hrun as (w2 & [] & _ & Hrun).
    eapply update_stores_steps; [exact Hrun|].
    apply lookup_singleton_eq. }
  destruct (decide (action = "set-default")) as [->|H4].
  { apply bind_ok_inv in Hrun as (w1 & d & [= <- <-] & Hrun).
    apply seq_ok_inv in Hrun as (w2 & [] & _ & Hrun).
    apply bind_ok_inv in Hrun as (w3 & auto & [Hauto _]%getitem_ok_inv & Hrun).
    rewrite Hauto in Hsteps.
    destruct (decide (auto = "true")) as [->|Hne].
    - by rewrite decide_True in Hsteps.
    - rewrite decide_False in Hsteps by congruence. injection Hsteps as <-.
      eapply update_stores_steps; [exact Hrun|].
      apply lookup_singleton_eq. }
  destruct (decide (action = "relock")) as [->|H5]; [|done].
  injection Hsteps as <-.
  rewrite !decide_False in Hrun by done.
  apply seq_ok_inv in Hrun as (w1 & [] & _ & Hrun).
  eapply update_stores_steps; [exact Hrun|].
  apply lookup_singleton_eq.
Qed.

End Stages.

(** ** Taking a lock that is free *)

Section AcquireFree.
Context `{C : Collaborators}.

Lemma run_mkdir path w :
  path ∉ dirs (fs w) → mkdir_fault path (fs w) = None →
  os_mkdir path w
  = (set_fs (mkFS ({[path]} ∪ dirs (fs w)) (files (fs w)))
       (log_event (EvFs (Mkdir path)) w),
     Ok ()).
Proof.
  intros Hdir Hfault. unfold os_mkdir. erewrite run_seq_ok by reflexivity.
  unfold step. simpl. rewrite decide_False by done. by rewrite Hfault.
Qed.

Lemma fmt_lockdir_acquired lockdir :
  fmt "Lockdir %s acquired." [lockdir]
  = ret ("Lockdir " +:+ lockdir +:+ " acquired.").
Proof. apply fmt_Ok. fmt_eval. Qed.

(** The [else:] branch of the loop, for a caller that did not wait and
    whose props have what the alert needs. *)
Lemma run_lock_acquired lockdir jbu w git_revision auto_deploy name room
    sender :
  props w !! "GIT_REVISION" = Some git_revision →
  props w !! "AUTO_DEPLOY" = Some auto_deploy →
  props w !! "DEPLOYER_HIPCHAT_NAME" = Some name →
  props w !! "HIPCHAT_ROOM" = Some room →
  props w !! "HIPCHAT_SENDER" = Some sender →
  ∃ rest,
    lock_acquired lockdir jbu false w
    = (alerted room sender (name +:+ " " +:+ starting_text git_revision rest)
         INFO (Some "green") false
         (log_event (EvLog INFO ("Lockdir " +:+ lockdir +:+ " acquired."))
            (set_props (<["LOCK_ACQUIRE_TIME" := pretty (now w)]> (props w))
               w)),
       Ok ()).
Proof.
  intros Hrev Hauto Hname Hroom Hsender. unfold lock_acquired.
  erewrite run_bind_ok by reflexivity.
  rewrite run_get_props.
  erewrite run_seq_ok by reflexivity.
  rewrite fmt_lockdir_acquired, bind_ret_l.
  erewrite run_seq_ok by reflexivity.
  rewrite run_get_props. simpl props. cbv zeta.
  rewrite (getitem_Some _ _ git_revision) by (by rewrite lookup_insert_ne).
  rewrite bind_ret_l.
  rewrite (fmt_Ok _ _ (starting_text git_revision ""))
    by (unfold starting_text; fmt_eval).
  rewrite bind_ret_l.
  rewrite (getitem_Some _ _ auto_deploy) by (by rewrite lookup_insert_ne).
  change ("" +:+ starting_text git_revision "")
    with (starting_text git_revision "").
  assert (∀ rest, starting_text git_revision "" +:+ rest
                  = starting_text git_revision rest) as Hrest.
  { intros rest. unfold starting_text.
    by rewrite !PyFacts.app_assoc. }
  destruct (truthy_opt jbu).
  - rewrite bind_ret_l. case_decide.
    + erewrite fmt_Ok by fmt_eval. rewrite !bind_ret_l, Hrest.
      eexists. apply run_alert; by rewrite lookup_insert_ne.
    + rewrite bind_ret_l.
      eexists. apply run_alert; by rewrite lookup_insert_ne.
  - rewrite bind_ret_l.
    eexists. apply run_alert; by rewrite lookup_insert_ne.
Qed.

(** What [acquire_deploy_lock] does on a lock that is free. *)
Lemma run_acquire_free jbu wait_sec notify_sec w lockdir git_revision
    auto_deploy name room sender :
  props w !! "LOCKDIR" = Some lockdir →
  lockdir ∉ dirs (fs w) →
  files (fs w) !! (lockdir, "deploy.prop") = None →
  mkdir_fault lockdir (fs w) = None →
  (0 < wait_sec)%Z →
  props w !! "GIT_REVISION" = Some git_revision →
  props w !! "AUTO_DEPLOY" = Some auto_deploy →
  props w !! "DEPLOYER_HIPCHAT_NAME" = Some name →
  props w !! "HIPCHAT_ROOM" = Some room →
  props w !! "HIPCHAT_SENDER" = Some sender →
  ∃ rest,
    acquire_deploy_lock jbu wait_sec notify_sec w
    = (alerted room sender (name +:+ " " +:+ starting_text git_revision rest)
         INFO (Some "green") false
         (log_event (EvLog INFO ("Lockdir " +:+ lockdir +:+ " acquired."))
            (set_props (<["LOCK_ACQUIRE_TIME" := pretty (now w)]> (props w))
               (set_fs (mkFS ({[lockdir]} ∪ dirs (fs w)) (files (fs w)))
                  (log_event (EvFs (Mkdir lockdir)) w)))),
       Ok ()).
Proof.
  intros Hlockdir Hdir Hfile Hfault Hwait Hrev Hauto Hname Hroom Hsender.
  destruct (run_lock_acquired lockdir jbu
              (set_fs (mkFS ({[lockdir]} ∪ dirs (fs w)) (files (fs w)))
                 (log_event (EvFs (Mkdir lockdir)) w))
              git_revision auto_deploy name room sender)
    as (rest & Hacquired); [done..|].
  exists rest. unfold acquire_deploy_lock.
  rewrite run_get_props, (getitem_Some _ _ _ Hlockdir), bind_ret_l.
  erewrite run_bind_ok; cycle 1.
  { erewrite run_try_raise; cycle 1.
    { apply run_bind_raise. by apply run_read_properties_missing. }
    reflexivity. }
  cbv zeta. simpl fst. simpl snd.
  destruct (Z.to_nat (wait_sec - 0)) as [|fuel] eqn:Hfuel; [lia|].
  cbn [acquire_wait]. rewrite decide_True by done.
  erewrite run_bind_ok; cycle 1.
  { erewrite run_bind_ok; cycle 1.
    { apply run_try_ok. by erewrite run_seq_ok by (by apply run_mkdir). }
    cbv iota.
    by erewrite run_seq_ok by exact Hacquired. }
  reflexivity.
Qed.

(** X23.  [acquire_deploy_lock] on a lock that is free takes it at the
    first attempt: the lock directory is created, LOCK_ACQUIRE_TIME is set
    to the current time in the props, a green alert announces the deploy,
    and the caller has neither waited nor written a file. *)
Theorem acquire_takes_a_free_lock jbu wait_sec notify_sec w lockdir
    git_revision auto_deploy name room sender :
  props w !! "LOCKDIR" = Some lockdir →
  lockdir ∉ dirs (fs w) →
  files (fs w) !! (lockdir, "deploy.prop") = None →
  mkdir_fault lockdir (fs w) = None →
  (0 < wait_sec)%Z →
  props w !! "GIT_REVISION" = Some git_revision →
  props w !! "AUTO_DEPLOY" = Some auto_deploy →
  props w !! "DEPLOYER_HIPCHAT_NAME" = Some name →
  props w !! "HIPCHAT_ROOM" = Some room →
  props w !! "HIPCHAT_SENDER" = Some sender →
  ∃ w' rest,
    acquire_deploy_lock jbu wait_sec notify_sec w = (w', Ok ())
    ∧ dirs (fs w') = {[lockdir]} ∪ dirs (fs w)
    ∧ files (fs w') = files (fs w)
    ∧ props w' = <["LOCK_ACQUIRE_TIME" := pretty (now w)]> (props w)
    ∧ now w' = now w ∧ ext w' = ext w
    ∧ trace w' =
        trace w
        ++ [EvFs (Mkdir lockdir);
            EvLog INFO ("Lockdir " +:+ lockdir +:+ " acquired.");
            EvLog INFO (name +:+ " " +:+ starting_text git_revision rest);
            EvHipchat room sender
              (name +:+ " " +:+ starting_text git_revision rest)
              (Some "green") false].
Proof.
  intros Hlockdir Hdir Hfile Hfault Hwait Hrev Hauto Hname Hroom Hsender.
  destruct (run_acquire_free jbu wait_sec notify_sec w lockdir git_revision
              auto_deploy name room sender) as (rest & Hrun); [done..|].
  eexists _, rest. split; [exact Hrun|].
  simpl. repeat split; try done.
  by rewrite <-!(assoc_L (++)).
Qed.

(** The record that [_create_properties] returns. *)
Lemma created_record a w w' d :
  _create_properties a w = (w', Ok d) →
  d !! "LOCKDIR" = Some (arg_lockdir a)
  ∧ d !! "TOKEN" = Some (arg_token a)
  ∧ d !! "GIT_REVISION" = Some (arg_git_revision a)
  ∧ d !! "AUTO_DEPLOY" = Some (str_lower_bool (arg_auto_deploy a))
  ∧ d !! "HIPCHAT_ROOM" = Some (arg_hipchat_room a)
  ∧ d !! "HIPCHAT_SENDER" = Some (arg_hipchat_sender a)
  ∧ is_Some (d !! "DEPLOYER_HIPCHAT_NAME")
  ∧ d !! "POSSIBLE_NEXT_STEPS" = Some "acquire-lock,finish-with-unlock,relock".
Proof.
  unfold _create_properties. cbv zeta.
  rewrite (getitem_Some _ _ (arg_git_revision a)) by (by simplify_map_eq).
  rewrite bind_ret_l.
  rewrite (getitem_Some _ _ (arg_git_revision a)) by (by simplify_map_eq).
  rewrite bind_ret_l.
  intros (w1 & v & _ & Hrun)%bind_ok_inv. revert Hrun.
  rewrite (getitem_Some _ _ (arg_deployer_email a)) by (by simplify_map_eq).
  rewrite bind_ret_l.
  intros (w2 & n & _ & Hrun)%bind_ok_inv.
  apply bind_ok_inv in Hrun as (w3 & msg & _ & Hrun).
  apply seq_ok_inv in Hrun as (w4 & [] & _ & Hrun).
  injection Hrun as _ <-.
  repeat split; by simplify_map_eq.
Qed.

Lemma run_update_steps steps lockdir w :
  props w !! "LOCKDIR" = Some lockdir → lockdir ∈ dirs (fs w) →
  _update_properties {[ "POSSIBLE_NEXT_STEPS" := steps ]} w
  = (written lockdir (<["POSSIBLE_NEXT_STEPS" := stored_steps steps]> (props w))
       (set_props (<["POSSIBLE_NEXT_STEPS" := stored_steps steps]> (props w)) w),
     Ok ()).
Proof.
  intros Hlockdir Hdir. unfold _update_properties.
  rewrite (lookup_singleton_ne "POSSIBLE_NEXT_STEPS" "GIT_SHA1") by done.
  rewrite bind_ret_l. cbv zeta.
  rewrite (lookup_singleton_ne "POSSIBLE_NEXT_STEPS" "DEPLOYER_EMAIL") by done.
  rewrite (lookup_singleton_ne "POSSIBLE_NEXT_STEPS" "DEPLOYER_USERNAME") by done.
  rewrite bind_ret_l.
  rewrite (lookup_singleton_ne "POSSIBLE_NEXT_STEPS" "LOCKDIR") by done.
  rewrite bind_ret_l.
  rewrite lookup_singleton_eq.
  rewrite run_get_props.
  erewrite run_seq_ok by reflexivity.
  rewrite run_get_props. simpl props.
  fold (stored_steps steps).
  unfold dict_update. rewrite insert_singleton_eq, <-insert_union_singleton_l.
  apply run_write_properties; [|done].
  by rewrite lookup_insert_ne.
Qed.

(** Writing the record and then its next steps, as the acquire-lock
    branch of [main] does after it got the lock. *)
Lemma run_record_steps steps lockdir w :
  props w !! "LOCKDIR" = Some lockdir → lockdir ∈ dirs (fs w) →
  ∃ w',
    (let* props := get_props in
     _write_properties props;;
     _update_properties {[ "POSSIBLE_NEXT_STEPS" := steps ]}) w = (w', Ok ())
    ∧ props w' = <["POSSIBLE_NEXT_STEPS" := stored_steps steps]> (props w)
    ∧ dirs (fs w') = dirs (fs w)
    ∧ files (fs w') !! (lockdir, "deploy.prop")
      = Some (serialize_props (props w')).
Proof.
  intros Hlockdir Hdir. eexists. split.
  { rewrite run_get_props.
    eapply run_seq_then; [by apply (run_write_properties _ lockdir)|].
    by apply (run_update_steps _ lockdir). }
  simpl. split; [done|]. split; [done|]. apply lookup_insert_eq.
Qed.

(** What [main] does after a stage that returned, when the record is on
    disk: LAST_ERROR is emptied. *)
Lemma run_main_clears_error lockdir w content :
  props w !! "LOCKDIR" = Some lockdir → lockdir ∈ dirs (fs w) →
  files (fs w) !! (lockdir, "deploy.prop") = Some content →
  ∃ w',
    (let* props := get_props in
     let* lockdir := getitem props "LOCKDIR" in
     let* on_disk := os_path_exists_file lockdir "deploy.prop" in
     when on_disk (_update_properties {[ "LAST_ERROR" := "" ]});;
     ret true) w = (w', Ok true)
    ∧ props w' = <["LAST_ERROR" := ""]> (props w)
    ∧ dirs (fs w') = dirs (fs w)
    ∧ files (fs w') !! (lockdir, "deploy.prop")
      = Some (serialize_props (props w')).
Proof.
  intros Hlockdir Hdir Hfile. eexists. split.
  { rewrite run_get_props, (getitem_Some _ _ _ Hlockdir), bind_ret_l.
    eapply run_bind_then; [reflexivity|].
    rewrite Hfile, bool_decide_eq_true_2 by done. cbn [when].
    eapply run_seq_then; [|reflexivity].
    rewrite (run_update_last_error _ lockdir) by done.
    apply (run_write_properties _ lockdir); [|done].
    simpl. by rewrite lookup_insert_ne. }
  simpl. split; [done|]. split; [done|]. apply lookup_insert_eq.
Qed.

Lemma steps_of_stored_steps steps :
  steps_of (stored_steps steps) = steps_of steps ∪ escape_hatches.
Proof. apply PyFacts.steps_of_stored. Qed.

(** X24.  acquire-lock on a lock that is free, from the arguments of the
    command line to the record on disk: once the record is created,
    [main] creates the lock directory, writes the record in it and
    returns True.  The record on disk is the one in memory; it has the
    time of the acquisition, no error, the token of the caller, and
    merge-from-master and the escape hatches as its next steps. *)
Theorem main_acquires_a_free_lock lockdir a token mt jbu ce w w1 :
  main_load "acquire-lock" lockdir (Some a) ce w = (w1, Ok true) →
  token_passes token (props w1) →
  arg_lockdir a ∉ dirs (fs w) →
  files (fs w) !! (arg_lockdir a, "deploy.prop") = None →
  mkdir_fault (arg_lockdir a) (fs w) = None →
  ∃ w',
    main "acquire-lock" lockdir (Some a) token mt jbu ce w = (w', Ok true)
    ∧ dirs (fs w') = {[arg_lockdir a]} ∪ dirs (fs w)
    ∧ files (fs w') !! (arg_lockdir a, "deploy.prop")
      = Some (serialize_props (props w'))
    ∧ props w'
      = <["LAST_ERROR" := ""]>
          (<["POSSIBLE_NEXT_STEPS" := stored_steps "merge-from-master"]>
             (<["LOCK_ACQUIRE_TIME" := pretty (now w)]> (props w1)))
    ∧ props w1 !! "LOCKDIR" = Some (arg_lockdir a)
    ∧ props w1 !! "TOKEN" = Some (arg_token a)
    ∧ steps_of (stored_steps "merge-from-master")
      = {[ "merge-from-master" ]} ∪ escape_hatches.
Proof.
  intros Hload Htoken Hdir Hfile Hfault.
  destruct (quiet_main_load "acquire-lock" lockdir (Some a) ce w)
    as (Hfs & Hnow & _).
  rewrite Hload in Hfs, Hnow. simpl in Hfs, Hnow.
  assert (∃ w0, _create_properties a w = (w0, Ok (props w1)))
    as [w0 Hcreate].
  { revert Hload. unfold main_load. rewrite decide_True by done.
    intros (w0 & d & Hcreate & Hrun)%bind_ok_inv.
    apply seq_ok_inv in Hrun as (w2 & [] & [= <-] & [= <-]).
    by exists w0. }
  apply created_record in Hcreate
    as (Hlockdir & Htok & Hrev & Hauto & Hroom & Hsender & [name Hname] & Hsteps).
  destruct (run_acquire_free jbu 3600 600 w1 (arg_lockdir a)
              (arg_git_revision a) (str_lower_bool (arg_auto_deploy a)) name
              (arg_hipchat_room a) (arg_hipchat_sender a))
    as (rest & Hacquire); rewrite ?Hfs; try done.
  match type of Hacquire with _ = (?x, _) => set (w2 := x) in Hacquire end.
  destruct (run_record_steps "merge-from-master" (arg_lockdir a) w2)
    as (w3 & Hrecord & Hprops3 & Hdirs3 & Hfile3).
  { simpl. by rewrite lookup_insert_ne. }
  { simpl. dirs_go. }
  destruct (run_main_clears_error (arg_lockdir a) w3
              (serialize_props (props w3)))
    as (w4 & Hclear & Hprops4 & Hdirs4 & Hfile4); [| |exact Hfile3|].
  { rewrite Hprops3. simpl. by rewrite !lookup_insert_ne. }
  { rewrite Hdirs3. simpl. dirs_go. }
  exists w4. split.
  { unfold main.
    rewrite (run_bind_ok _ _ _ _ _ Hload). cbn [negb].
    rewrite run_get_props, Htoken.
    rewrite (getitem_Some _ _ _ Hsteps), bind_ret_l.
    replace (negb (mem "acquire-lock"
                     (split "," "acquire-lock,finish-with-unlock,relock")))
      with false by (by vm_compute).
    cbn [andb].
    apply run_try_ok.
    eapply run_seq_then; [|exact Hclear].
    unfold main_stage. rewrite decide_True by done.
    eapply run_seq_then; [exact Hacquire|exact Hrecord]. }
  split; [by rewrite Hdirs4, Hdirs3, <-Hfs|].
  split; [exact Hfile4|].
  split; [by rewrite Hprops4, Hprops3, <-Hnow|].
  split; [done|]. split; [done|].
  apply steps_of_stored_steps.
Qed.

End AcquireFree.

(** ** Tags and the manual release *)

Section Tags.
Context `{C : Collaborators}.

(** What [_pipe_command] does when the command exits with 0. *)
Lemma run_pipe_command cmd w s text :
  ext_step (Subprocess cmd) (ext w) = (s, Ok (0%Z, text)) →
  _pipe_command cmd w
  = (log_event (EvLog INFO (">>> " +:+ rstrip text))
       (set_ext s
          (log_event (EvExt (Subprocess cmd))
             (log_event (EvLog INFO ("Running pipe-command: "
                                     +:+ repr_list cmd)) w))),
     Ok (rstrip text)).
Proof.
  intros Hstep. unfold _pipe_command.
  erewrite fmt_Ok by fmt_eval. rewrite bind_ret_l.
  erewrite run_seq_ok by reflexivity.
  erewrite run_bind_ok by (by apply run_call).
  cbn [fst snd]. rewrite decide_True by done.
  erewrite fmt_Ok by fmt_eval. rewrite bind_ret_l.
  by erewrite run_seq_ok by reflexivity.
Qed.

(** X25.  [_tag_release] and [_tag_as_bad_version] do not create a tag
    that is there: when [git tag -l] prints the tag, that listing is the
    only command they run, and they return without reading GIT_REVISION
    or GIT_SHA1. *)
Theorem tags_are_not_created_twice props version w :
  props !! "VERSION_NAME" = Some version →
  (∀ s text,
     ext_step (Subprocess ["git"; "tag"; "-l"; "gae-" +:+ version]) (ext w)
     = (s, Ok (0%Z, text)) →
     rstrip text ≠ "" →
     _tag_release props w
     = (set_ext s
          (add_events
             [EvLog INFO ("Running pipe-command: "
                          +:+ repr_list ["git"; "tag"; "-l"; "gae-" +:+ version]);
              EvExt (Subprocess ["git"; "tag"; "-l"; "gae-" +:+ version]);
              EvLog INFO (">>> " +:+ rstrip text)] w),
        Ok ()))
  ∧ (∀ s text,
       ext_step (Subprocess ["git"; "tag"; "-l"; "gae-" +:+ version +:+ "-bad"])
         (ext w)
       = (s, Ok (0%Z, text)) →
       rstrip text ≠ "" →
       _tag_as_bad_version props w
       = (set_ext s
            (add_events
               [EvLog INFO ("Running pipe-command: "
                            +:+ repr_list ["git"; "tag"; "-l";
                                           "gae-" +:+ version +:+ "-bad"]);
                EvExt (Subprocess ["git"; "tag"; "-l";
                                   "gae-" +:+ version +:+ "-bad"]);
                EvLog INFO (">>> " +:+ rstrip text)] w),
          Ok ())).
Proof.
  intros Hversion. split.
  - intros s text Hstep Hout. unfold _tag_release.
    rewrite (getitem_Some _ _ _ Hversion), bind_ret_l.
    rewrite (fmt_Ok _ _ ("gae-" +:+ version)) by fmt_eval.
    rewrite bind_ret_l.
    erewrite run_bind_ok by (by apply run_pipe_command).
    unfold truthy. rewrite bool_decide_eq_false_2 by done. cbn [negb].
    unfold ret, set_ext, log_event, add_events. simpl.
    by rewrite <-!(assoc_L (++)).
  - intros s text Hstep Hout. unfold _tag_as_bad_version.
    rewrite (getitem_Some _ _ _ Hversion), bind_ret_l.
    rewrite (fmt_Ok _ _ ("gae-" +:+ version +:+ "-bad")) by fmt_eval.
    rewrite bind_ret_l.
    erewrite run_bind_ok by (by apply run_pipe_command).
    unfold truthy. rewrite bool_decide_eq_false_2 by done. cbn [negb].
    unfold ret, set_ext, log_event, add_events. simpl.
    by rewrite <-!(assoc_L (++)).
Qed.

Lemma fmt_manually_released caller :
  fmt ": %s has manually released the deploy lock." [caller]
  = ret (": " +:+ caller +:+ " has manually released the deploy lock.").
Proof. apply fmt_Ok. fmt_eval. Qed.

(** X26.  [finish_with_unlock] releases the lock with a backup, whoever
    calls it.  The alert is in the name of the deployer of the record;
    when the caller is somebody else, the alert names the caller too. *)
Theorem finish_with_unlock_names_the_caller caller lockdir name room sender w :
  props w !! "LOCKDIR" = Some lockdir →
  lockdir ∈ dirs (fs w) →
  abspath (backup_of lockdir) = backup_of lockdir →
  props w !! "DEPLOYER_HIPCHAT_NAME" = Some name →
  props w !! "HIPCHAT_ROOM" = Some room →
  props w !! "HIPCHAT_SENDER" = Some sender →
  ∃ w' text evs,
    finish_with_unlock caller w = (w', Ok ())
    ∧ (caller = name →
       text = name +:+ " has manually released the deploy lock.")
    ∧ (caller ≠ name →
       text = name +:+ " : " +:+ caller
              +:+ " has manually released the deploy lock.")
    ∧ trace w' = trace w ++ [EvLog INFO text;
                             EvHipchat room sender text None false] ++ evs
    ∧ (lockdir ∉ dirs (fs w')) ∧ backup_of lockdir ∈ dirs (fs w')
    ∧ files (fs w') !! (backup_of lockdir, "deploy.prop")
      = Some (serialize_props (props w')).
Proof.
  intros Hlockdir Hdir Habs Hname Hroom Hsender.
  pose proof (backup_ne lockdir) as Hne.
  set (text := if decide (caller = name)
               then name +:+ " has manually released the deploy lock."
               else name +:+ " : " +:+ caller
                    +:+ " has manually released the deploy lock.").
  destruct (run_release_with_backup lockdir
              (alerted room sender text INFO None false w))
    as (w1 & Hrun & Hdirs & Hprops & Hnow & Htrace); [done..|].
  eexists _, text, _. split.
  { unfold finish_with_unlock.
    rewrite run_get_props, (getitem_Some _ _ _ Hname), bind_ret_l.
    eapply run_seq_then; [|exact Hrun].
    unfold text. destruct (decide (caller = name)) as [->|Hother].
    - by apply run_alert.
    - rewrite fmt_manually_released, bind_ret_l. by apply run_alert. }
  split; [intros Heq; unfold text; by rewrite decide_True|].
  split; [intros Heq; unfold text; by rewrite decide_False|].
  unfold lock_moved. simpl. rewrite Htrace, Hdirs. simpl.
  split; [by rewrite <-!(assoc_L (++))|].
  split; [dirs_go|]. split; [dirs_go|].
  apply lookup_insert_eq.
Qed.

End Tags.

(** * Runs on explicit inputs *)

Import Demo.

Lemma token_isolation_witness :
  ∃ w' evs,
    main (C := offline) "manual-test" "/lock" None (Some "intruder") None None
      None (world_of held_by_owner) = (w', Ok true)
    ∧ fs w' = fs (world_of held_by_owner)
    ∧ props w' = held_by_owner ∧ ext w' = () ∧ now w' = 1000%Z
    ∧ Forall no_fs_call evs
    ∧ trace w' =
        [] ++ evs
        ++ [EvLog ERROR (not_owner_text "owner-1" "intruder");
            EvHipchat "deploys" "bot" (not_owner_text "owner-1" "intruder")
              None false].
Proof.
  apply (token_isolation (C := offline) "manual-test" "/lock" None "intruder"
           "owner-1" None None None (world_of held_by_owner)
           (main_load (C := offline) "manual-test" "/lock" None None
              (world_of held_by_owner)).1 "deploys" "bot").
  - apply run_result. vm_compute. reflexivity.
  - discriminate.
  - discriminate.
  - discriminate.
  - vm_compute. reflexivity.
  - vm_compute. reflexivity.
  - vm_compute. reflexivity.
Defined.

Lemma token_check_is_guarded_witness :
  main (C := offline) "manual-test" "/lock" None (Some "abc") None None None
    (world_of held_without_token)
  = main (C := offline) "manual-test" "/lock" None None None None None
      (world_of held_without_token).
Proof.
  apply (token_check_is_guarded (C := offline) "manual-test" "/lock" None "abc"
           None None None (world_of held_without_token)
           (main_load (C := offline) "manual-test" "/lock" None None
              (world_of held_without_token)).1).
  - apply run_result. vm_compute. reflexivity.
  - discriminate.
  - vm_compute. discriminate.
  - vm_compute. reflexivity.
Defined.

(** C4 as stated fails: the supplied token abc is not the stored TOKEN
    (which is empty), and yet the stage runs: manual_test sends its alerts
    and sleeps, and the record moves on to set-default, on disk too. *)
Lemma empty_stored_token_runs_stage :
  tokenless_load.2 = Ok true
  ∧ props tokenless_load.1 !! "TOKEN" = Some ""
  ∧ tokenless_run.2 = Ok true
  ∧ trace tokenless_run.1 !! 3%nat = Some (EvSleep 1)
  ∧ props tokenless_run.1 !! "POSSIBLE_NEXT_STEPS"
    = Some "finish-with-failure,finish-with-rollback,finish-with-unlock,relock,set-default"
  ∧ match trace tokenless_run.1 !! 7%nat with
    | Some (EvFs (WriteFile "/lock" "deploy.prop" _)) => True
    | _ => False
    end.
Proof.
  refine (conj _ (conj _ (conj _ (conj _ (conj _ _)))));
    vm_compute; first [reflexivity | exact I].
Qed.

Lemma create_seeds_three_steps_witness :
  ∃ steps,
    fresh_record !! "POSSIBLE_NEXT_STEPS" = Some steps
    ∧ steps_of steps
      = ({[ "acquire-lock"; "finish-with-unlock"; "relock" ]} : gset string)
    ∧ ("finish-with-failure" ∉ steps_of steps)
    ∧ ("finish-with-rollback" ∉ steps_of steps).
Proof.
  apply (create_seeds_three_steps (C := platform "v1") (args "/lock" "tok")
           (world (C := platform "v1") () (mkFS ∅ ∅) 1000 ∅) fresh_run.1).
  apply (run_ok fresh_run). vm_compute. reflexivity.
Defined.

Lemma update_adds_escape_hatches_witness :
  ∃ stored,
    props next_step_run.1 !! "POSSIBLE_NEXT_STEPS" = Some stored
    ∧ steps_of stored = steps_of "merge-from-master" ∪ escape_hatches
    ∧ escape_hatches ⊆ steps_of stored.
Proof.
  apply (proj1 (update_adds_escape_hatches (C := offline)
                  {[ "POSSIBLE_NEXT_STEPS" := "merge-from-master" ]}
                  just_acquired_world) "merge-from-master" next_step_run.1).
  - vm_compute. reflexivity.
  - apply (run_result next_step_run). vm_compute. reflexivity.
Defined.

(** C2 as stated fails: an update that does not pass POSSIBLE_NEXT_STEPS
    returns and leaves the legal next steps of the record as they were,
    here without finish-with-failure and finish-with-rollback. *)
Lemma update_without_steps_adds_nothing :
  last_error_run.2 = Ok ()
  ∧ props last_error_run.1 !! "POSSIBLE_NEXT_STEPS"
    = Some "acquire-lock,finish-with-unlock,relock"
  ∧ ¬ (escape_hatches ⊆ steps_of "acquire-lock,finish-with-unlock,relock").
Proof.
  refine (conj _ (conj _ _)).
  - vm_compute. reflexivity.
  - vm_compute. reflexivity.
  - apply (bool_decide_eq_false_1 _). vm_compute. reflexivity.
Qed.

Lemma write_read_write_witness :
  ∃ w1 w2 w3,
    _write_properties (C := offline) held_by_owner (world_of held_by_owner)
    = (w1, Ok ())
    ∧ files (fs w1) !! ("/lock", "deploy.prop")
      = Some (serialize_props held_by_owner)
    ∧ _read_properties "/lock" w1 = (w2, Ok held_by_owner)
    ∧ _write_properties held_by_owner w2 = (w3, Ok ())
    ∧ fs w3 = fs w1.
Proof.
  apply (write_read_write (C := offline) held_by_owner "/lock"
           (world_of held_by_owner)).
  - vm_compute. reflexivity.
  - apply (bool_decide_unpack _). vm_compute. exact I.
  - apply (bool_decide_unpack _). vm_compute. exact I.
Defined.

(** C9 as stated fails.  After the record with the two-line LAST_ERROR is
    written, reading it back raises ValueError: the second line has no
    [=].  The record whose LAST_ERROR ends with a blank reads back with
    the blank gone, so the next write is a different file. *)
Lemma free_text_does_not_round_trip :
  (_write_properties (C := offline) two_line_error
     (world_of two_line_error)).2 = Ok ()
  ∧ two_line_reread.2 = Raise (ValueError "need more than 1 value to unpack")
  ∧ parse_props (serialize_props trailing_blank)
    = Ok (<["LAST_ERROR" := "merge failed:"]> held_by_owner)
  ∧ serialize_props (<["LAST_ERROR" := "merge failed:"]> held_by_owner)
    ≠ serialize_props trailing_blank.
Proof.
  refine (conj _ (conj _ (conj _ _))).
  - vm_compute. reflexivity.
  - vm_compute. reflexivity.
  - apply (bool_decide_unpack _). vm_compute. exact I.
  - apply (bool_decide_eq_false_1 _). vm_compute. reflexivity.
Qed.

Lemma rollback_skips_when_not_live_witness :
  ∃ w' evs,
    _rollback_deploy (C := platform "v9") held_by_owner other_live_world
    = (w', Ok true)
    ∧ trace w' = trace other_live_world ++ evs
    ∧ Forall lookup_only evs
    ∧ last evs = Some (EvLog INFO (skipping_text "v2" "v9" "v1"))
    ∧ fs w' = fs other_live_world
    ∧ ext w' = ext (_current_gae_version other_live_world).1.
Proof.
  apply (rollback_skips_when_not_live (C := platform "v9") held_by_owner
           other_live_world (_current_gae_version other_live_world).1).
  - apply run_result. vm_compute. reflexivity.
  - vm_compute. reflexivity.
  - vm_compute. reflexivity.
  - discriminate.
Defined.

Lemma rollback_absorbs_failures_witness :
  _rollback_deploy (C := push_fails) held_by_owner push_fails_world
  = (alerted "deploys" "bot" ("@kim" +:+ " " +:+ rollback_failed_text "v1")
       CRITICAL None false
       (log_event (EvLog ERROR "Auto-rollback failed") push_fails_steps.1),
     Ok false).
Proof.
  refine (proj2 (rollback_absorbs_failures (C := push_fails) held_by_owner
                   push_fails_world (_current_gae_version push_fails_world).1
                   "v2" "v2" "v1" "@kim" "deploys" "bot" _ _ _ _ _ _)
            push_fails_steps.1
            (CalledProcessError 1 ["git"; "push"; "--tags"]) eq_refl _).
  - apply run_result. vm_compute. reflexivity.
  - vm_compute. reflexivity.
  - vm_compute. reflexivity.
  - vm_compute. reflexivity.
  - vm_compute. reflexivity.
  - vm_compute. reflexivity.
  - apply (run_result push_fails_steps). vm_compute. reflexivity.
Defined.

(** The platform cannot be reached: the rollback of the deploy that holds
    the lock raises the IOError of the third fetch. *)
Lemma rollback_raises_when_version_read_fails_witness :
  offline_rollback
  = ((_current_gae_version (C := offline) (world_of held_by_owner)).1,
     Raise (IOError None "offline"))
  ∧ fs (_current_gae_version (C := offline) (world_of held_by_owner)).1
    = fs (world_of held_by_owner)
  ∧ ∃ evs,
      trace (_current_gae_version (C := offline) (world_of held_by_owner)).1
      = trace (world_of held_by_owner) ++ evs
      ∧ Forall lookup_only evs.
Proof.
  apply (rollback_raises_when_version_read_fails (C := offline) held_by_owner
           (world_of held_by_owner)
           (_current_gae_version (C := offline) (world_of held_by_owner)).1
           (IOError None "offline")).
  apply run_result. vm_compute. reflexivity.
Defined.

Lemma acquire_gives_up_at_once_witness :
  acquire_deploy_lock (C := offline) None 3600 600 late_world
  = acquire_timeout held_by_owner (now late_world - 100)
      (was_read "/lock" held_by_owner late_world)
  ∧ is_ok (acquire_deploy_lock None 3600 600 late_world).2 = false
  ∧ fs (acquire_deploy_lock None 3600 600 late_world).1 = fs late_world
  ∧ now (acquire_deploy_lock None 3600 600 late_world).1 = now late_world
  ∧ ∃ evs,
      trace (acquire_deploy_lock None 3600 600 late_world).1
      = trace late_world ++ evs
      ∧ Forall no_fs_call evs.
Proof.
  apply (acquire_gives_up_at_once (C := offline) None 3600 600 late_world
           "/lock" (serialize_props held_by_owner) held_by_owner "100" 100).
  - vm_compute. reflexivity.
  - vm_compute. reflexivity.
  - apply (bool_decide_unpack _). vm_compute. exact I.
  - vm_compute. reflexivity.
  - vm_compute. reflexivity.
  - vm_compute. reflexivity.
  - vm_compute. discriminate.
Defined.

Lemma newcomer_ok : caller_ok (props unreadable_world).
Proof.
  refine (conj _ (conj _ (conj _ (conj _ _)))); vm_compute; by eexists.
Qed.

Lemma acquire_unreadable_holder_keyerror_witness :
  ∃ w' evs,
    acquire_deploy_lock (C := offline) None 20 600 unreadable_world
    = (w', Raise (KeyError "POSSIBLE_NEXT_STEPS"))
    ∧ trace w' = trace unreadable_world ++ evs
    ∧ Forall waiting_event evs.
Proof.
  apply (acquire_unreadable_holder_keyerror (C := offline) None 20 600
           unreadable_world "/lock").
  - vm_compute. reflexivity.
  - apply (bool_decide_unpack _). vm_compute. exact I.
  - vm_compute. reflexivity.
  - exact newcomer_ok.
  - intros t f Hf. exact Hf.
  - discriminate.
Defined.

(** C6, where the code departs from it.  The checked-out commit does not
    contain master and abc123 is not a branch on the remote:
    [merge_from_master] raises TypeError, not ValueError, and the message
    names no branch; [main] then records that message as the last
    error. *)
Theorem not_a_branch_raises_typeerror :
  detached_merge.2
  = Raise (TypeError "not enough arguments for format string")
  ∧ detached_main.2 = Ok false
  ∧ props detached_main.1 !! "LAST_ERROR"
    = Some "not enough arguments for format string".
Proof.
  refine (conj _ (conj _ _)); vm_compute; reflexivity.
Qed.

(** ** Runs of the further properties *)

Lemma safe_urlopen_gives_up_after_three_witness :
  _safe_urlopen (C := offline) "http://example.org/" held_world
  = (set_ext (C := offline) ()
       (add_events
          [EvExt (UrlOpen "http://example.org/");
           EvLog WARNING (retry_text (C := offline) "http://example.org/");
           EvExt (UrlOpen "http://example.org/");
           EvLog WARNING (retry_text (C := offline) "http://example.org/");
           EvExt (UrlOpen "http://example.org/")] held_world),
     Raise (IOError None "offline")).
Proof.
  apply (safe_urlopen_gives_up_after_three (C := offline)
           "http://example.org/" held_world
           () (IOError None "offline") () (IOError None "offline")
           () (IOError None "offline")); reflexivity.
Defined.

Lemma current_gae_version_is_major_witness :
  _current_gae_version (C := platform "v9.abc") minor_world
  = ((_safe_urlopen (C := platform "v9.abc")
        "http://www.khanacademy.org/api/internal/dev/version" minor_world).1,
     Ok "v9").
Proof.
  apply (proj2 (current_gae_version_is_major (C := platform "v9.abc")
                  minor_world) _ "v9.abc" "v9" "abc").
  - apply run_result. vm_compute. reflexivity.
  - reflexivity.
  - vm_compute. reflexivity.
Defined.

Lemma pipe_command_output_is_stripped_witness :
  (_pipe_command (C := push_fails) ["git"; "push"; "--tags"]
     push_fails_world).2
  = Raise (CalledProcessError 1 ["git"; "push"; "--tags"]).
Proof.
  apply (proj2 (pipe_command_output_is_stripped (C := push_fails)
                  ["git"; "push"; "--tags"] push_fails_world) () 1%Z "").
  - reflexivity.
  - discriminate.
Defined.

Lemma move_lockdir_takes_over_witness :
  ∃ w',
    _move_lockdir (C := offline) "/lock" "/lock.last" held_world = (w', Ok ())
    ∧ dirs (fs w') = {["/lock.last"]} ∪ dirs (fs held_world) ∖ {["/lock"]}
    ∧ props w' !! "LOCKDIR" = Some "/lock.last"
    ∧ props w' !! "LOCK_ACQUIRE_TIME" = Some (pretty (now held_world))
    ∧ (∀ k, k ≠ "LOCKDIR" → k ≠ "LOCK_ACQUIRE_TIME" →
            props w' !! k = props held_world !! k)
    ∧ files (fs w') !! ("/lock.last", "deploy.prop")
      = Some (serialize_props (props w'))
    ∧ (∀ name, files (fs w') !! ("/lock", name) = None).
Proof.
  apply (proj2 (move_lockdir_takes_over (C := offline) "/lock" "/lock.last"
                  held_world)).
  - apply (bool_decide_unpack _). vm_compute. exact I.
  - apply (bool_decide_unpack _). vm_compute. exact I.
  - reflexivity.
Defined.

Lemma release_keeps_a_backup_witness :
  ∃ w',
    release_deploy_lock (C := offline) true held_world = (w', Ok ())
    ∧ ("/lock" ∉ dirs (fs w')) ∧ backup_of "/lock" ∈ dirs (fs w')
    ∧ props w'
      = moved_record (backup_of "/lock") (now held_world) (props held_world)
    ∧ files (fs w') !! (backup_of "/lock", "deploy.prop")
      = Some (serialize_props (props w'))
    ∧ (_read_properties "/lock" w').2
      = Raise (IOError (Some ENOENT) "No such file or directory").
Proof.
  apply (release_keeps_a_backup (C := offline) "/lock" held_world).
  - vm_compute. reflexivity.
  - apply (bool_decide_unpack _). vm_compute. exact I.
  - reflexivity.
Defined.

Lemma release_without_backup_removes_the_lock_witness :
  ∃ w',
    release_deploy_lock (C := offline) false held_world = (w', Ok ())
    ∧ ("/lock" ∉ dirs (fs w')) ∧ (backup_of "/lock" ∉ dirs (fs w'))
    ∧ (∀ name, files (fs w') !! ("/lock", name) = None)
    ∧ props w' = props held_world.
Proof.
  apply (release_without_backup_removes_the_lock (C := offline) "/lock"
           held_world).
  - vm_compute. reflexivity.
  - apply (bool_decide_unpack _). vm_compute. exact I.
Defined.

Lemma release_of_a_free_lock_fails_witness :
  ∃ w' evs,
    release_deploy_lock (C := offline) true released_world
    = (w', Raise (not_released_error (C := offline) no_such_dir))
    ∧ props w' = props released_world ∧ ("/lock" ∉ dirs (fs w'))
    ∧ trace w' =
        trace released_world ++ evs
        ++ [EvLog ERROR ("@kim" +:+ " " +:+ not_released_text (C := offline) "/lock" no_such_dir);
            EvHipchat "deploys" "bot"
              ("@kim" +:+ " " +:+ not_released_text (C := offline) "/lock" no_such_dir)
              None false].
Proof.
  apply (release_of_a_free_lock_fails (C := offline) "/lock" true
           released_world "@kim" "deploys" "bot").
  - vm_compute. reflexivity.
  - apply (bool_decide_unpack _). vm_compute. exact I.
  - vm_compute. reflexivity.
  - vm_compute. reflexivity.
  - vm_compute. reflexivity.
Defined.

Lemma relock_refuses_witness :
  ∃ msg,
    relock (C := offline) held_world
    = (log_event (EvLog ERROR msg) held_world,
       Raise (ValueError (bad_lockdir_text "/lock"))).
Proof.
  apply (proj1 (relock_refuses (C := offline) "/lock" held_world eq_refl)).
  vm_compute. reflexivity.
Defined.

Lemma release_then_relock_witness :
  ∃ w1 w2,
    release_deploy_lock (C := offline) true held_world = (w1, Ok ())
    ∧ relock w1 = (w2, Ok ())
    ∧ "/lock" ∈ dirs (fs w2) ∧ (backup_of "/lock" ∉ dirs (fs w2))
    ∧ props w2 !! "LOCKDIR" = Some "/lock"
    ∧ (∀ k, k ≠ "LOCKDIR" → k ≠ "LOCK_ACQUIRE_TIME" →
            props w2 !! k = props held_world !! k)
    ∧ files (fs w2) !! ("/lock", "deploy.prop")
      = Some (serialize_props (props w2)).
Proof.
  apply (release_then_relock (C := offline) "/lock" held_world).
  - vm_compute. reflexivity.
  - apply (bool_decide_unpack _). vm_compute. exact I.
  - reflexivity.
  - reflexivity.
Defined.

Lemma finish_with_rollback_keeps_the_lock_witness :
  finish_with_rollback (C := push_fails) push_fails_world
  = (alerted "deploys" "bot"
       ("@kim" +:+ " " +:+ manual_rollback_text (C := push_fails) "http://jenkins/" "owner-1")
       ERROR None false push_fails_rolled,
     Raise (RuntimeError "Failed to roll back to the previous deploy."))
  ∧ fs push_fails_rolled = fs push_fails_world
  ∧ props push_fails_rolled = props push_fails_world.
Proof.
  apply (finish_with_rollback_keeps_the_lock (C := push_fails)
           push_fails_world push_fails_rolled false "" "v2" "@kim" "deploys"
           "bot" "http://jenkins/" "owner-1").
  - vm_compute. reflexivity.
  - vm_compute. reflexivity.
  - vm_compute. reflexivity.
  - vm_compute. reflexivity.
  - vm_compute. reflexivity.
  - vm_compute. reflexivity.
  - vm_compute. reflexivity.
  - apply run_result. vm_compute. reflexivity.
Defined.

Lemma finish_with_success_keeps_the_lock_witness :
  finish_with_success (C := push_fails) push_fails_world
  = (alerted "deploys" "bot"
       ("@kim" +:+ " "
        +:+ merge_failed_text (C := push_fails) "v2" "feature-x" "http://jenkins/" "owner-1")
       ERROR None false push_fails_merged,
     Raise (CalledProcessError 1 ["git"; "push"; "--tags"; "origin"; "master"]))
  ∧ fs push_fails_merged = fs push_fails_world
  ∧ props push_fails_merged = props push_fails_world.
Proof.
  apply (finish_with_success_keeps_the_lock (C := push_fails)
           push_fails_world (_current_gae_version push_fails_world).1
           push_fails_tagged push_fails_merged "v2"
           (CalledProcessError 1 ["git"; "push"; "--tags"; "origin"; "master"])
           "v2" "feature-x" "@kim" "deploys" "bot" "http://jenkins/" "owner-1").
  - vm_compute. reflexivity.
  - vm_compute. reflexivity.
  - vm_compute. reflexivity.
  - vm_compute. reflexivity.
  - vm_compute. reflexivity.
  - vm_compute. reflexivity.
  - vm_compute. reflexivity.
  - apply run_result. vm_compute. reflexivity.
  - apply run_result. vm_compute. reflexivity.
  - apply run_result. vm_compute. reflexivity.
Defined.

Lemma finish_with_failure_releases_the_lock_witness :
  ∃ w' evs,
    finish_with_failure (C := offline) held_world = (w', Ok ())
    ∧ trace w' =
        trace held_world
        ++ [EvLog ERROR
              ("@kim" +:+ " " +:+ deploy_failed_text "v2" "feature-x" "");
            EvHipchat "deploys" "bot"
              ("@kim" +:+ " " +:+ deploy_failed_text "v2" "feature-x" "")
              None false]
        ++ evs
    ∧ ("/lock" ∉ dirs (fs w')) ∧ backup_of "/lock" ∈ dirs (fs w')
    ∧ props w'
      = moved_record (backup_of "/lock") (now held_world) (props held_world)
    ∧ files (fs w') !! (backup_of "/lock", "deploy.prop")
      = Some (serialize_props (props w')).
Proof.
  apply (finish_with_failure_releases_the_lock (C := offline) held_world
           "/lock" "" "v2" "feature-x" "@kim" "deploys" "bot").
  - vm_compute. reflexivity.
  - apply (bool_decide_unpack _). vm_compute. exact I.
  - reflexivity.
  - vm_compute. reflexivity.
  - vm_compute. reflexivity.
  - vm_compute. reflexivity.
  - vm_compute. reflexivity.
  - vm_compute. reflexivity.
  - vm_compute. reflexivity.
Defined.

Lemma main_ignores_illegal_step_witness :
  ∃ w',
    main (C := offline) "set-default" "/lock" None (Some "owner-1") None None
      None (world_of held_by_owner) = (w', Ok true)
    ∧ fs w' = fs (world_of held_by_owner)
    ∧ props w' = held_by_owner ∧ ext w' = () ∧ now w' = 1000%Z
    ∧ trace w' =
        trace (main_load (C := offline) "set-default" "/lock" None None
                 (world_of held_by_owner)).1
        ++ [EvLog ERROR
              ("@kim" +:+ " "
               +:+ expecting_text
                     "manual-test,finish-with-failure,finish-with-rollback,finish-with-unlock,relock"
                     "set-default");
            EvHipchat "deploys" "bot"
              ("@kim" +:+ " "
               +:+ expecting_text
                     "manual-test,finish-with-failure,finish-with-rollback,finish-with-unlock,relock"
                     "set-default")
              None false].
Proof.
  apply (main_ignores_illegal_step (C := offline) "set-default" "/lock" None
           (Some "owner-1") None None None (world_of held_by_owner)
           (main_load (C := offline) "set-default" "/lock" None None
              (world_of held_by_owner)).1
           "manual-test,finish-with-failure,finish-with-rollback,finish-with-unlock,relock"
           "@kim" "deploys" "bot").
  - apply run_result. vm_compute. reflexivity.
  - vm_compute. reflexivity.
  - vm_compute. reflexivity.
  - apply (bool_decide_unpack _). vm_compute. exact I.
  - apply (bool_decide_unpack _). vm_compute. exact I.
  - vm_compute. reflexivity.
  - vm_compute. reflexivity.
  - vm_compute. reflexivity.
Defined.

Lemma main_records_the_failure_witness :
  ∃ w',
    main (C := detached) "merge-from-master" "/lock" None (Some "owner-1") None
      None None detached_world = (w', Ok false)
    ∧ props w'
      = <["LAST_ERROR" := "not enough arguments for format string"]>
          commit_deploy
    ∧ files (fs w') !! ("/lock", "deploy.prop")
      = Some (serialize_props (props w')).
Proof.
  refine (proj1 (proj2
            (main_records_the_failure (C := detached) "merge-from-master"
               "/lock" None (Some "owner-1") None None None detached_world
               (main_load (C := detached) "merge-from-master" "/lock" None None
                  detached_world).1
               (main_stage (C := detached) "merge-from-master" None None None
                  (main_load (C := detached) "merge-from-master" "/lock" None
                     None detached_world).1).1
               "merge-from-master,finish-with-failure,finish-with-rollback,finish-with-unlock,relock"
               (TypeError "not enough arguments for format string")
               _ _ _ _ _)) "/lock" _ _ _).
  - apply run_result. vm_compute. reflexivity.
  - vm_compute. reflexivity.
  - vm_compute. reflexivity.
  - vm_compute. reflexivity.
  - apply run_result. vm_compute. reflexivity.
  - discriminate.
  - vm_compute. reflexivity.
  - apply (bool_decide_unpack _). vm_compute. exact I.
Defined.

Lemma read_needs_equals_on_every_line_witness :
  parse_props (serialize_props two_line_error)
  = Raise (ValueError "need more than 1 value to unpack")
  ∧ _read_properties (C := offline) "/lock" two_line_world
    = (two_line_world, Raise (ValueError "need more than 1 value to unpack")).
Proof.
  apply (read_needs_equals_on_every_line (C := offline) "/lock"
           (serialize_props two_line_error) ("conflict in main.py" +:+ NL)
           two_line_world).
  - vm_compute. reflexivity.
  - apply (bool_decide_unpack _). vm_compute. exact I.
  - vm_compute. reflexivity.
Defined.

Lemma main_raises_on_an_unusable_record_witness :
  main (C := offline) "manual-test" "/lock" None None None None None
    two_line_world
  = (two_line_world, Raise (ValueError "need more than 1 value to unpack")).
Proof.
  refine (proj1 (main_raises_on_an_unusable_record (C := offline)
                   "manual-test" "/lock" None None None None None
                   two_line_world (serialize_props two_line_error) _ _)
            (ValueError "need more than 1 value to unpack") _).
  - discriminate.
  - vm_compute. reflexivity.
  - vm_compute. reflexivity.
Defined.

Lemma main_without_a_lock_witness :
  ∃ w' evs,
    main (C := offline) "manual-test" "/lock" None None None None None
      empty_world = (w', Ok false)
    ∧ fs w' = fs empty_world ∧ props w' = props empty_world
    ∧ now w' = now empty_world
    ∧ trace w' = trace empty_world ++ evs ∧ Forall no_fs_call evs
    ∧ ("manual-test" = "relock" →
       evs = [EvLog ERROR (no_backup_text "/lock")])
    ∧ ("manual-test" ≠ "relock" →
       ∃ name evs0,
         evs = evs0
               ++ [EvLog ERROR (name +:+ " " +:+ no_lock_text (C := offline));
                   EvHipchat "1s/0s: deploys" "Mr Gorilla"
                     (name +:+ " " +:+ no_lock_text (C := offline)) None false]).
Proof.
  apply (main_without_a_lock (C := offline) "manual-test" "/lock" None None
           None None None empty_world).
  - discriminate.
  - vm_compute. reflexivity.
Defined.

Lemma stage_sets_the_next_steps_witness :
  ∃ stored,
    props (main_stage (C := offline) "manual-test" None None None held_world).1
      !! "POSSIBLE_NEXT_STEPS" = Some stored
    ∧ steps_of stored = steps_of "set-default" ∪ escape_hatches.
Proof.
  apply (stage_sets_the_next_steps (C := offline) "manual-test" None None None
           held_world).
  - apply run_result. vm_compute. reflexivity.
  - vm_compute. reflexivity.
Defined.

Lemma acquire_takes_a_free_lock_witness :
  ∃ w' rest,
    acquire_deploy_lock (C := offline) None 3600 600 newcomer_world
    = (w', Ok ())
    ∧ dirs (fs w') = {["/lock"]} ∪ dirs (fs newcomer_world)
    ∧ files (fs w') = files (fs newcomer_world)
    ∧ props w'
      = <["LOCK_ACQUIRE_TIME" := pretty (now newcomer_world)]>
          (props newcomer_world)
    ∧ now w' = now newcomer_world ∧ ext w' = ext newcomer_world
    ∧ trace w' =
        trace newcomer_world
        ++ [EvFs (Mkdir "/lock");
            EvLog INFO ("Lockdir " +:+ "/lock" +:+ " acquired.");
            EvLog INFO ("@kim" +:+ " " +:+ starting_text "feature-x" rest);
            EvHipchat "deploys" "bot"
              ("@kim" +:+ " " +:+ starting_text "feature-x" rest)
              (Some "green") false].
Proof.
  apply (acquire_takes_a_free_lock (C := offline) None 3600 600 newcomer_world
           "/lock" "feature-x" "false" "@kim" "deploys" "bot").
  - vm_compute. reflexivity.
  - apply (bool_decide_unpack _). vm_compute. exact I.
  - vm_compute. reflexivity.
  - reflexivity.
  - reflexivity.
  - vm_compute. reflexivity.
  - vm_compute. reflexivity.
  - vm_compute. reflexivity.
  - vm_compute. reflexivity.
  - vm_compute. reflexivity.
Defined.

Lemma main_acquires_a_free_lock_witness :
  ∃ w',
    main (C := platform "v1") "acquire-lock" "/lock" (Some (args "/lock" "tok"))
      (Some "tok") None None None fresh_world = (w', Ok true)
    ∧ dirs (fs w') = {["/lock"]} ∪ dirs (fs fresh_world)
    ∧ files (fs w') !! ("/lock", "deploy.prop")
      = Some (serialize_props (props w'))
    ∧ props w'
      = <["LAST_ERROR" := ""]>
          (<["POSSIBLE_NEXT_STEPS" := stored_steps "merge-from-master"]>
             (<["LOCK_ACQUIRE_TIME" := pretty (now fresh_world)]>
                (props (main_load (C := platform "v1") "acquire-lock" "/lock"
                          (Some (args "/lock" "tok")) None fresh_world).1)))
    ∧ props (main_load (C := platform "v1") "acquire-lock" "/lock"
               (Some (args "/lock" "tok")) None fresh_world).1
        !! "LOCKDIR" = Some "/lock"
    ∧ props (main_load (C := platform "v1") "acquire-lock" "/lock"
               (Some (args "/lock" "tok")) None fresh_world).1
        !! "TOKEN" = Some "tok"
    ∧ steps_of (stored_steps "merge-from-master")
      = {[ "merge-from-master" ]} ∪ escape_hatches.
Proof.
  apply (main_acquires_a_free_lock (C := platform "v1") "/lock"
           (args "/lock" "tok") (Some "tok") None None None fresh_world).
  - apply run_result. vm_compute. reflexivity.
  - vm_compute. reflexivity.
  - apply (bool_decide_unpack _). vm_compute. exact I.
  - vm_compute. reflexivity.
  - reflexivity.
Defined.

Lemma tags_are_not_created_twice_witness :
  _tag_release (C := tagged) held_by_owner tagged_world
  = (set_ext (C := tagged) ()
       (add_events
          [EvLog INFO ("Running pipe-command: "
                       +:+ repr_list (Collaborators := tagged)
                             ["git"; "tag"; "-l"; "gae-" +:+ "v2"]);
           EvExt (Subprocess ["git"; "tag"; "-l"; "gae-" +:+ "v2"]);
           EvLog INFO (">>> " +:+ rstrip ("gae-v2" +:+ NL))] tagged_world),
     Ok ()).
Proof.
  apply (proj1 (tags_are_not_created_twice (C := tagged) held_by_owner "v2"
                  tagged_world eq_refl) () ("gae-v2" +:+ NL)).
  - reflexivity.
  - vm_compute. discriminate.
Defined.

Lemma finish_with_unlock_names_the_caller_witness :
  ∃ w' text evs,
    finish_with_unlock (C := offline) "@sam" held_world = (w', Ok ())
    ∧ ("@sam" = "@kim" →
       text = "@kim" +:+ " has manually released the deploy lock.")
    ∧ ("@sam" ≠ "@kim" →
       text = "@kim" +:+ " : " +:+ "@sam"
              +:+ " has manually released the deploy lock.")
    ∧ trace w' = trace held_world
                 ++ [EvLog INFO text;
                     EvHipchat "deploys" "bot" text None false] ++ evs
    ∧ ("/lock" ∉ dirs (fs w')) ∧ backup_of "/lock" ∈ dirs (fs w')
    ∧ files (fs w') !! (backup_of "/lock", "deploy.prop")
      = Some (serialize_props (props w')).
Proof.
  apply (finish_with_unlock_names_the_caller (C := offline) "@sam" "/lock"
           "@kim" "deploys" "bot" held_world).
  - vm_compute. reflexivity.
  - apply (bool_decide_unpack _). vm_compute. exact I.
  - reflexivity.
  - vm_compute. reflexivity.
  - vm_compute. reflexivity.
  - vm_compute. reflexivity.
Defined.


